(** * Glue importer: nested column types to a field tree

    A shallow embedding of [datacontract/imports/glue_importer.py]:
    [map_type_from_sql], [generate_sub_fields], [format_schema],
    [import_record_fields] and [import_array_field], with the part of
    [json.loads] they rest on.

    Python values are embedded as follows.
    - [str] is a list of characters ([pystr]).  The catalogue's type
      grammar is ASCII, and the embedding covers ASCII text: [\w] is
      [[A-Za-z0-9_]] and [lower] acts on [A-Z] only.
    - an index is an integer ([Z]): [find] and [rfind] answer [-1] when
      nothing is found, and a slice resolves its bounds as Python does.
    - exceptions are an error type [exn]; a call returns [res A].
    - the column records are dictionaries that [format_schema] updates in
      place, so they live in a store and the schema is a list of
      references into it.
    - the recursive functions take fuel; the entry points give them more
      than they can use, which is proved below. *)

From Stdlib Require Import ZArith List String Ascii Bool Lia.
From stdpp Require Import base list.
Import ListNotations.

Local Open Scope Z_scope.

(** ** Python strings *)

Definition pystr := list ascii.

Definition py (s : string) : pystr := list_ascii_of_string s.

Definition str_eqb (a b : pystr) : bool :=
  String.eqb (string_of_list_ascii a) (string_of_list_ascii b).

Definition is_upper (c : ascii) : bool :=
  let n := nat_of_ascii c in (Nat.leb 65 n && Nat.leb n 90)%bool.

(** [str.lower()] *)
Definition lower_char (c : ascii) : ascii :=
  if is_upper c then ascii_of_nat (nat_of_ascii c + 32) else c.

Definition lower (s : pystr) : pystr := List.map lower_char s.

(** [s.startswith(p)] *)
Fixpoint startswith (s p : pystr) {struct p} : bool :=
  match p, s with
  | [], _ => true
  | _ :: _, [] => false
  | c :: p', d :: s' => Ascii.eqb c d && startswith s' p'
  end.

(** ** Python values, exceptions, results *)

(** Values that reach the importer: column records as the catalogue hands
    them over and whatever [json.loads] builds.  A [dict] is kept in
    insertion order with [str] keys. *)
#[warnings="-register-all"]
Inductive pyval : Type :=
  | PNone
  | PBool (b : bool)
  | PInt (z : Z)
  | PStr (s : pystr)
  | PList (l : list pyval)
  | PDict (d : list (pystr * pyval)).

(** The exceptions the modelled calls can raise.  [UnbalancedBracketsError]
    and [MalformedTypeError] are the error kinds of the design document;
    no statement of the source raises them.  [NotModelled] marks the
    inputs outside the embedding (a float literal or a non-ASCII escape
    met by [json.loads]); [OutOfFuel] is the recursion bound of the
    embedding itself. *)
Inductive exn : Type :=
  | JSONDecodeError
  | IndexError
  | KeyError
  | TypeError
  | AttributeError
  | UnbalancedBracketsError
  | MalformedTypeError
  | NotModelled
  | OutOfFuel.

Inductive res (A : Type) : Type :=
  | Ok (a : A)
  | Raise (e : exn).
Arguments Ok {A} a.
Arguments Raise {A} e.

Definition bind {A B : Type} (m : res A) (k : A -> res B) : res B :=
  match m with
  | Ok a => k a
  | Raise e => Raise e
  end.

Notation "'let*' x ':=' m 'in' k" := (bind m (fun x => k))
  (at level 10, x pattern, k at level 200).

(** ** [map_type_from_sql] *)

Definition map_type_from_sql (sql_type : pyval) : res (option pystr) :=
  match sql_type with
  | PNone => Ok None
  | PStr sql_type =>
      Ok (Some (
        if startswith (lower sql_type) (py "varchar") then py "varchar"
        else if startswith (lower sql_type) (py "string") then py "string"
        else if startswith (lower sql_type) (py "text") then py "text"
        else if startswith (lower sql_type) (py "byte") then py "byte"
        else if startswith (lower sql_type) (py "short") then py "short"
        else if startswith (lower sql_type) (py "integer") then py "integer"
        else if startswith (lower sql_type) (py "long") then py "long"
        else if startswith (lower sql_type) (py "bigint") then py "long"
        else if startswith (lower sql_type) (py "float") then py "float"
        else if startswith (lower sql_type) (py "double") then py "double"
        else if startswith (lower sql_type) (py "boolean") then py "boolean"
        else if startswith (lower sql_type) (py "timestamp") then py "timestamp"
        else if startswith (lower sql_type) (py "date") then py "date"
        else if startswith (lower sql_type) (py "array") then py "array"
        else if startswith (lower sql_type) (py "struct") then py "struct"
        else py "variant"))
  | _ => Raise AttributeError
  end.

(** The mapper as the design document words it: an ordered table of
    prefixes, matched case-insensitively, first match wins, [variant]
    otherwise, absence propagated. *)
Module MapperSpec.

Definition table : list (pystr * pystr) :=
  [ (py "varchar", py "varchar"); (py "string", py "string");
    (py "text", py "text"); (py "byte", py "byte");
    (py "short", py "short"); (py "integer", py "integer");
    (py "long", py "long"); (py "bigint", py "long");
    (py "float", py "float"); (py "double", py "double");
    (py "boolean", py "boolean"); (py "timestamp", py "timestamp");
    (py "date", py "date"); (py "array", py "array");
    (py "struct", py "struct") ].

(** [p] is a prefix of [s], letter case ignored *)
Definition prefix_ci (p s : pystr) : bool := startswith (lower s) (lower p).

Fixpoint first_match (tbl : list (pystr * pystr)) (s : pystr) : option pystr :=
  match tbl with
  | [] => None
  | (p, canonical) :: tbl' =>
      if prefix_ci p s then Some canonical else first_match tbl' s
  end.

Definition recognized (s : pystr) : Prop :=
  exists p canonical, In (p, canonical) table /\ prefix_ci p s = true.

(** no prefix of the table extends a prefix listed after it *)
Fixpoint ordered_apart (tbl : list (pystr * pystr)) : bool :=
  match tbl with
  | [] => true
  | (p, _) :: rest =>
      forallb (fun entry => negb (startswith (lower p) (lower (fst entry)))) rest
      && ordered_apart rest
  end.

Definition TypeNameMapper (input : option pystr) : option pystr :=
  match input with
  | None => None
  | Some s =>
      match first_match table s with
      | Some canonical => Some canonical
      | None => Some (py "variant")
      end
  end.

End MapperSpec.

(** ** String methods used by the normalizer *)

Definition dquote : ascii := ascii_of_nat 34.

Definition len (s : pystr) : Z := Z.of_nat (length s).

Definition len_list {A : Type} (l : list A) : Z := Z.of_nat (length l).

(** [s.count(c)], [c] one character *)
Fixpoint count (s : pystr) (c : ascii) : nat :=
  match s with
  | [] => O
  | d :: s' => if Ascii.eqb d c then S (count s' c) else count s' c
  end.

Fixpoint index_of (c : ascii) (s : pystr) : option nat :=
  match s with
  | [] => None
  | d :: s' => if Ascii.eqb d c then Some O else option_map S (index_of c s')
  end.

(** [s.find(c)]: the lowest index of [c], or [-1] *)
Definition find (s : pystr) (c : ascii) : Z :=
  match index_of c s with
  | Some i => Z.of_nat i
  | None => -1
  end.

(** [s.rfind(c)]: the highest index of [c], or [-1] *)
Definition rfind (s : pystr) (c : ascii) : Z :=
  match index_of c (rev s) with
  | Some i => len s - 1 - Z.of_nat i
  | None => -1
  end.

(** A slice bound as Python resolves it: a negative index counts from the
    end, and the result is clipped to [0 .. len]. *)
Definition bound (n i : Z) : Z :=
  if i <? 0 then Z.max 0 (i + n) else Z.min i n.

(** [s[i:j]] *)
Definition slice (s : pystr) (i j : Z) : pystr :=
  let a := bound (len s) i in
  let b := bound (len s) j in
  firstn (Z.to_nat (b - a)) (skipn (Z.to_nat a) s).

(** [s[i:]] *)
Definition slice_from (s : pystr) (i : Z) : pystr :=
  skipn (Z.to_nat (bound (len s) i)) s.

(** [s[:j]] *)
Definition slice_to (s : pystr) (j : Z) : pystr :=
  firstn (Z.to_nat (bound (len s) j)) s.

(** [s.split(sep)], [sep] one character *)
Fixpoint split_from (s : pystr) (sep : ascii) (cur : pystr) : list pystr :=
  match s with
  | [] => [rev cur]
  | c :: s' =>
      if Ascii.eqb c sep then rev cur :: split_from s' sep []
      else split_from s' sep (c :: cur)
  end.

Definition split (s : pystr) (sep : ascii) : list pystr := split_from s sep [].

(** [s.replace(old, new)], both one character *)
Definition replace (s : pystr) (old new : ascii) : pystr :=
  List.map (fun c => if Ascii.eqb c old then new else c) s.

(** [l[i]] on a list *)
Definition item {A : Type} (l : list A) (i : nat) : res A :=
  match nth_error l i with
  | Some a => Ok a
  | None => Raise IndexError
  end.

(** [l[-1]] *)
Definition last_item {A : Type} (l : list A) : res A :=
  match rev l with
  | a :: _ => Ok a
  | [] => Raise IndexError
  end.

(** [\w] *)
Definition is_word (c : ascii) : bool :=
  let n := nat_of_ascii c in
  ((Nat.leb 48 n && Nat.leb n 57) || (Nat.leb 65 n && Nat.leb n 90)
   || (Nat.leb 97 n && Nat.leb n 122) || Nat.eqb n 95)%bool.

(** [re.findall(r'\b\w+\b', s)]: the maximal runs of word characters,
    left to right.  [cur] is the run being read, most recent character
    first. *)
Fixpoint words_from (s : pystr) (cur : pystr) : list pystr :=
  match s with
  | [] => match cur with [] => [] | _ => [rev cur] end
  | c :: s' =>
      if is_word c then words_from s' (c :: cur)
      else match cur with
           | [] => words_from s' []
           | _ => rev cur :: words_from s' []
           end
  end.

Definition findall_words (s : pystr) : list pystr := words_from s [].

(** ** Dictionaries *)

Abbreviation dict V := (list (pystr * V)) (only parsing).

Fixpoint dict_get {V : Type} (d : dict V) (k : pystr) : option V :=
  match d with
  | [] => None
  | (k', v) :: d' => if str_eqb k' k then Some v else dict_get d' k
  end.

(** [d[k] = v]: an existing key keeps its place, a new one goes last *)
Fixpoint dict_set {V : Type} (d : dict V) (k : pystr) (v : V) : dict V :=
  match d with
  | [] => [(k, v)]
  | (k', v') :: d' =>
      if str_eqb k' k then (k', v) :: d' else (k', v') :: dict_set d' k v
  end.

(** [d[k]] *)
Definition subscript (d : pyval) (k : pystr) : res pyval :=
  match d with
  | PDict d =>
      match dict_get d k with
      | Some v => Ok v
      | None => Raise KeyError
      end
  | _ => Raise TypeError
  end.

(** [d.get(k)]: only a [dict] has the method *)
Definition get (d : pyval) (k : pystr) : res pyval :=
  match d with
  | PDict d =>
      match dict_get d k with
      | Some v => Ok v
      | None => Ok PNone
      end
  | _ => Raise AttributeError
  end.

(** ** [json.loads]

    CPython's decoder in its default (strict) configuration, on the
    fragment of the embedding: integers are exact; a float literal,
    [NaN], [Infinity] and a [\u] escape above 127 give [NotModelled].
    Every parser returns the value read and the text that follows it.
    The parsers recurse on a fuel argument; [loads] starts them with more
    than they can use.

    Two limits of the interpreter are outside the embedding.  CPython
    ends the decoder with [RecursionError] when the nesting of the text
    uses up its recursion limit (1000 frames unless it was changed), and
    with [ValueError] on an integer literal of more than 4300 digits;
    the embedded decoder reads on.  A property that gives the value
    decoded from a text of any size is stated within a bound that keeps
    the text away from these limits; the others are about an error met
    before either limit, or are relative to what the decoder returns. *)
Module Json.

Definition is_ws (c : ascii) : bool :=
  let n := nat_of_ascii c in
  (Nat.eqb n 32 || Nat.eqb n 9 || Nat.eqb n 10 || Nat.eqb n 13)%bool.

Fixpoint skip_ws (s : pystr) : pystr :=
  match s with
  | c :: s' => if is_ws c then skip_ws s' else s
  | [] => []
  end.

Definition is_digit (c : ascii) : bool :=
  let n := nat_of_ascii c in (Nat.leb 48 n && Nat.leb n 57)%bool.

Definition hex_value (c : ascii) : option nat :=
  let n := nat_of_ascii c in
  if (Nat.leb 48 n && Nat.leb n 57)%bool then Some (n - 48)%nat
  else if (Nat.leb 97 n && Nat.leb n 102)%bool then Some (n - 87)%nat
  else if (Nat.leb 65 n && Nat.leb n 70)%bool then Some (n - 55)%nat
  else None.

Definition hex4 (a b c d : ascii) : option nat :=
  match hex_value a, hex_value b, hex_value c, hex_value d with
  | Some x, Some y, Some z, Some w =>
      Some (((x * 16 + y) * 16 + z) * 16 + w)%nat
  | _, _, _, _ => None
  end.

(** the character a one-letter escape stands for *)
Definition unescape (e : ascii) : option ascii :=
  if Ascii.eqb e dquote then Some dquote
  else if Ascii.eqb e "\" then Some "\"%char
  else if Ascii.eqb e "/" then Some "/"%char
  else if Ascii.eqb e "b" then Some (ascii_of_nat 8)
  else if Ascii.eqb e "f" then Some (ascii_of_nat 12)
  else if Ascii.eqb e "n" then Some (ascii_of_nat 10)
  else if Ascii.eqb e "r" then Some (ascii_of_nat 13)
  else if Ascii.eqb e "t" then Some (ascii_of_nat 9)
  else None.

(** [scanstring]: [s] starts right after the opening quote; [acc] holds
    the characters read so far, most recent first. *)
Fixpoint scanstring (s : pystr) (acc : pystr) : res (pystr * pystr) :=
  match s with
  | [] => Raise JSONDecodeError
  | c :: s' =>
      if Ascii.eqb c dquote then Ok (rev acc, s')
      else if Ascii.eqb c "\" then
        match s' with
        | [] => Raise JSONDecodeError
        | e :: s'' =>
            if Ascii.eqb e "u" then
              match s'' with
              | h1 :: h2 :: h3 :: h4 :: rest =>
                  match hex4 h1 h2 h3 h4 with
                  | Some n =>
                      if Nat.ltb n 128 then scanstring rest (ascii_of_nat n :: acc)
                      else Raise NotModelled
                  | None => Raise JSONDecodeError
                  end
              | _ => Raise JSONDecodeError
              end
            else
              match unescape e with
              | Some ch => scanstring s'' (ch :: acc)
              | None => Raise JSONDecodeError
              end
        end
      else if Nat.ltb (nat_of_ascii c) 32 then Raise JSONDecodeError
      else scanstring s' (c :: acc)
  end.

Fixpoint span_digits (s : pystr) (value : Z) : Z * pystr :=
  match s with
  | c :: s' =>
      if is_digit c
      then span_digits s' (10 * value + (Z.of_nat (nat_of_ascii c) - 48))
      else (value, s)
  | [] => (value, [])
  end.

Definition starts_digit (s : pystr) : bool :=
  match s with
  | c :: _ => is_digit c
  | [] => false
  end.

(** [(\.\d+)?([eE][-+]?\d+)?] matches something non-empty *)
Definition has_frac_or_exp (s : pystr) : bool :=
  match s with
  | c :: s' =>
      if Ascii.eqb c "." then starts_digit s'
      else if (Ascii.eqb c "e" || Ascii.eqb c "E")%bool then
        match s' with
        | d :: s'' =>
            if (Ascii.eqb d "+" || Ascii.eqb d "-")%bool
            then starts_digit s'' else is_digit d
        | [] => false
        end
      else false
  | [] => false
  end.

(** [NUMBER_RE]: [None] when no number starts here *)
Definition scan_number (s : pystr) : option (res (pyval * pystr)) :=
  let (negative, s1) :=
    match s with
    | c :: s' => if Ascii.eqb c "-" then (true, s') else (false, s)
    | [] => (false, s)
    end in
  match s1 with
  | d :: s2 =>
      if is_digit d then
        let (magnitude, rest) :=
          if Ascii.eqb d "0" then (0, s2) else span_digits s1 0 in
        if has_frac_or_exp rest then Some (Raise NotModelled)
        else Some (Ok (PInt (if negative then - magnitude else magnitude), rest))
      else None
  | [] => None
  end.

(** [scan_once], [JSONObject] and [JSONArray].  [parse_members] starts
    right after the opening quote of a key, [parse_elements] at the
    first character of an element. *)
Fixpoint parse_value (fuel : nat) (s : pystr) : res (pyval * pystr) :=
  match fuel with
  | O => Raise OutOfFuel
  | S fuel =>
      match s with
      | [] => Raise JSONDecodeError
      | c :: s' =>
          if Ascii.eqb c dquote then
            let* (text, rest) := scanstring s' [] in Ok (PStr text, rest)
          else if Ascii.eqb c "{" then
            match skip_ws s' with
            | d :: rest =>
                if Ascii.eqb d "}" then Ok (PDict [], rest)
                else if Ascii.eqb d dquote then parse_members fuel rest []
                else Raise JSONDecodeError
            | [] => Raise JSONDecodeError
            end
          else if Ascii.eqb c "[" then
            match skip_ws s' with
            | d :: rest =>
                if Ascii.eqb d "]" then Ok (PList [], rest)
                else parse_elements fuel (d :: rest) []
            | [] => Raise JSONDecodeError
            end
          else if startswith s (py "null") then Ok (PNone, skipn 4 s)
          else if startswith s (py "true") then Ok (PBool true, skipn 4 s)
          else if startswith s (py "false") then Ok (PBool false, skipn 5 s)
          else
            match scan_number s with
            | Some r => r
            | None =>
                if (startswith s (py "NaN") || startswith s (py "Infinity")
                    || startswith s (py "-Infinity"))%bool
                then Raise NotModelled
                else Raise JSONDecodeError
            end
      end
  end
with parse_members (fuel : nat) (s : pystr) (pairs : dict pyval)
    : res (pyval * pystr) :=
  match fuel with
  | O => Raise OutOfFuel
  | S fuel =>
      let* (key, s1) := scanstring s [] in
      match skip_ws s1 with
      | c :: s2 =>
          if Ascii.eqb c ":" then
            let* (value, s3) := parse_value fuel (skip_ws s2) in
            let pairs := dict_set pairs key value in
            match skip_ws s3 with
            | d :: s4 =>
                if Ascii.eqb d "}" then Ok (PDict pairs, s4)
                else if Ascii.eqb d "," then
                  match skip_ws s4 with
                  | q :: s5 =>
                      if Ascii.eqb q dquote then parse_members fuel s5 pairs
                      else Raise JSONDecodeError
                  | [] => Raise JSONDecodeError
                  end
                else Raise JSONDecodeError
            | [] => Raise JSONDecodeError
            end
          else Raise JSONDecodeError
      | [] => Raise JSONDecodeError
      end
  end
with parse_elements (fuel : nat) (s : pystr) (values : list pyval)
    : res (pyval * pystr) :=
  match fuel with
  | O => Raise OutOfFuel
  | S fuel =>
      let* (value, s1) := parse_value fuel s in
      match skip_ws s1 with
      | d :: s2 =>
          if Ascii.eqb d "]" then Ok (PList (rev (value :: values)), s2)
          else if Ascii.eqb d "," then parse_elements fuel (skip_ws s2) (value :: values)
          else Raise JSONDecodeError
      | [] => Raise JSONDecodeError
      end
  end.

(** [json.loads(s)]: one value, then nothing but white space *)
Definition loads (s : pystr) : res pyval :=
  let* (obj, rest) := parse_value (S (2 * length s)) (skip_ws s) in
  match skip_ws rest with
  | [] => Ok obj
  | _ :: _ => Raise JSONDecodeError
  end.

End Json.

(** ** [generate_sub_fields] *)

(** The body of the loop over [fields_from_string]: the literal built for
    one struct member ([fileds_to_add]). *)
Definition fileds_to_add (field : pystr) : res pystr :=
  let count_caracter := count field ":" in
  if Nat.eqb count_caracter 1 then
    let sub_filed := split field ":" in
    let* name := item sub_filed 0 in
    let* type := item sub_filed 1 in
    Ok (py "{'Name': '" ++ name ++ py "'|'Type': '" ++ type ++ py "'}")
  else
    let name_position := find field ":" in
    let name := slice_to field name_position in
    let new_field := slice_from field (name_position + 1) in
    Ok (py "{'Name':'" ++ name ++ py "'|" ++ new_field ++ py "}").

(** [for x, field in enumerate(fields_from_string)] *)
Fixpoint struct_fields (x last_item_index : Z) (fields_from_string : list pystr)
    (fields : pystr) : res pystr :=
  match fields_from_string with
  | [] => Ok fields
  | field :: rest =>
      let* added := fileds_to_add field in
      struct_fields (x + 1) last_item_index rest
        (fields ++ (if x <? last_item_index then added ++ py "|" else added))
  end.

(** One pass of the [for i in range(iteration_count)] loop. *)
Definition rewrite_innermost (original_type_field : pystr) : res pystr :=
  let index_opening_sub_element := rfind original_type_field "<" in
  let sub_text := slice_from original_type_field index_opening_sub_element in
  let index_closing_sub_element := index_opening_sub_element + find sub_text ">" in
  let content :=
    slice original_type_field (index_opening_sub_element + 1) index_closing_sub_element in
  let prev_content := slice_to original_type_field index_opening_sub_element in
  let index_start_end_content := index_closing_sub_element + 1 in
  let end_content := slice_from original_type_field index_start_end_content in
  let* sub_content_type := last_item (findall_words prev_content) in
  let* original_type_field :=
    if str_eqb sub_content_type (py "struct") then
      let new_prev_content := slice_to prev_content (-6) in
      let fields_from_string := split content "," in
      let last_item_index := len_list fields_from_string - 1 in
      let* fields := struct_fields 0 last_item_index fields_from_string (py "[") in
      let fields := fields ++ py "]" in
      Ok (new_prev_content ++ py "'Type':'struct'|'Fields':" ++ fields ++ end_content)
    else Ok original_type_field in
  if str_eqb sub_content_type (py "array") then
    let new_prev_content := slice_to prev_content (-5) in
    if startswith content (py "'Type'") then
      Ok (new_prev_content ++ py "'Type':'array'|'Items':{" ++ content ++ py "}"
          ++ end_content)
    else
      Ok (new_prev_content ++ py "'Type':'array'|'Items':{'Type':'" ++ content
          ++ py "'}" ++ end_content)
  else Ok original_type_field.

Fixpoint for_range (n : nat) (body : pystr -> res pystr) (s : pystr) : res pystr :=
  match n with
  | O => Ok s
  | S n' => let* s' := body s in for_range n' body s'
  end.

(** The text handed to [json.loads] once the loop is over. *)
Definition json_text (original_type_field : pystr) : pystr :=
  let original_type_field :=
    replace (replace original_type_field "|" ",") "'" dquote in
  py "{" ++ original_type_field ++ py "}".

Definition generate_sub_fields (original_type_field : pystr) : res pyval :=
  let iteration_count := count original_type_field "<" in
  let* original_type_field :=
    for_range iteration_count rewrite_innermost original_type_field in
  Json.loads (json_text original_type_field).

(** ** [format_schema]

    Each column is a dictionary owned by the caller; [format_schema]
    assigns to its keys.  The store holds the dictionaries, the schema is
    the list of references to them, and what was assigned before an
    exception stays assigned. *)

Abbreviation heap := (list (dict pyval)) (only parsing).
Abbreviation ref := nat (only parsing).

Definition deref (h : heap) (r : ref) : pyval :=
  match h !! r with
  | Some d => PDict d
  | None => PNone
  end.

(** [column[k] = v] *)
Definition assign (h : heap) (column : ref) (k : pystr) (v : pyval) : heap :=
  match h !! column with
  | Some d => <[column := dict_set d k v]> h
  | None => h
  end.

(** The body of [for column in schema] *)
Definition format_column (column : ref) (h : heap) : res heap :=
  let* type := subscript (deref h column) (py "Type") in
  match type with
  | PStr type =>
      if startswith type (py "array<") then
        let* parsed := generate_sub_fields type in
        let* items := subscript parsed (py "Items") in
        let h := assign h column (py "Items") items in
        Ok (assign h column (py "Type") (PStr (py "array")))
      else if startswith type (py "struct<") then
        let* parsed := generate_sub_fields type in
        let* fields := subscript parsed (py "Fields") in
        let h := assign h column (py "Fields") fields in
        Ok (assign h column (py "Type") (PStr (py "struct")))
      else Ok h
  | _ => Raise AttributeError
  end.

Fixpoint format_columns (schema : list ref) (h : heap) : heap * res unit :=
  match schema with
  | [] => (h, Ok tt)
  | column :: rest =>
      match format_column column h with
      | Ok h' => format_columns rest h'
      | Raise e => (h, Raise e)
      end
  end.

(** [format_schema] returns the list it was given *)
Definition format_schema (schema : list ref) (h : heap) : heap * res (list ref) :=
  let (h', r) := format_columns schema h in
  (h', let* _ := r in Ok schema).

(** ** The contract model's [Field] *)

(** Modelled from the spec: the class [Field] of
    [datacontract.model.data_contract_specification], of which the
    importer assigns [type], [required], [description], [fields] and
    [items].  An attribute the importer never assigned is absent.  The
    attribute [fields] holds whatever was assigned to it: a mapping from
    names to fields, or a single field. *)
#[warnings="-register-all"]
Inductive Field : Type :=
  | mkField (type : option pystr) (required : option bool) (description : pyval)
            (fields : FieldsAttr) (items : option Field)
with FieldsAttr : Type :=
  | Unset
  | Mapping (m : list (pyval * Field))
  | Single (f : Field).

Definition type (f : Field) : option pystr :=
  match f with mkField t _ _ _ _ => t end.
Definition required (f : Field) : option bool :=
  match f with mkField _ r _ _ _ => r end.
Definition description (f : Field) : pyval :=
  match f with mkField _ _ d _ _ => d end.
Definition fields (f : Field) : FieldsAttr :=
  match f with mkField _ _ _ fs _ => fs end.
Definition items (f : Field) : option Field :=
  match f with mkField _ _ _ _ i => i end.

(** ** [import_record_fields] and [import_array_field] *)

(** truth value of [if v:] *)
Definition truthy (v : pyval) : bool :=
  match v with
  | PNone => false
  | PBool b => b
  | PInt z => negb (z =? 0)
  | PStr s => match s with [] => false | _ => true end
  | PList l => match l with [] => false | _ => true end
  | PDict d => match d with [] => false | _ => true end
  end.

(** [for field in v]: what iteration over [v] yields *)
Definition iterate (v : pyval) : res (list pyval) :=
  match v with
  | PList l => Ok l
  | PStr s => Ok (List.map (fun c => PStr [c]) s)
  | PDict d => Ok (List.map (fun kv => PStr (fst kv)) d)
  | _ => Raise TypeError
  end.

(** Keys of the output mapping: [None], [bool], [int] and [str] hash;
    a [list] or a [dict] does not.  [True] and [1] are one key, and so
    are [False] and [0]. *)
Definition hashable (v : pyval) : bool :=
  match v with
  | PList _ | PDict _ => false
  | _ => true
  end.

Definition key_eqb (a b : pyval) : bool :=
  match a, b with
  | PNone, PNone => true
  | PStr s, PStr t => str_eqb s t
  | PBool x, PBool y => Bool.eqb x y
  | PInt x, PInt y => x =? y
  | PBool x, PInt y => (if x then 1 else 0) =? y
  | PInt x, PBool y => x =? (if y then 1 else 0)
  | _, _ => false
  end.

Fixpoint lookup_key {V : Type} (m : list (pyval * V)) (k : pyval) : option V :=
  match m with
  | [] => None
  | (k', v) :: m' => if key_eqb k' k then Some v else lookup_key m' k
  end.

Fixpoint store_key {V : Type} (m : list (pyval * V)) (k : pyval) (v : V)
    : list (pyval * V) :=
  match m with
  | [] => [(k, v)]
  | (k', v') :: m' =>
      if key_eqb k' k then (k', v) :: m' else (k', v') :: store_key m' k v
  end.

(** [m[k] = v] *)
Definition setitem {V : Type} (m : list (pyval * V)) (k : pyval) (v : V)
    : res (list (pyval * V)) :=
  if hashable k then Ok (store_key m k v) else Raise TypeError.

Definition is_type (field_type : option pystr) (name : pystr) : bool :=
  match field_type with
  | Some t => str_eqb t name
  | None => false
  end.

(** [for field in l: acc = body(acc, field)] *)
Fixpoint for_each {A S : Type} (l : list A) (body : S -> A -> res S) (acc : S)
    : res S :=
  match l with
  | [] => Ok acc
  | a :: l' => let* acc' := body acc a in for_each l' body acc'
  end.

Fixpoint import_record_fields (fuel : nat) (record_fields : pyval)
    : res (list (pyval * Field)) :=
  match fuel with
  | O => Raise OutOfFuel
  | S fuel =>
      let* record_fields := iterate record_fields in
      for_each record_fields (fun imported_fields field =>
        let* sql_type := get field (py "Type") in
        let* field_type := map_type_from_sql sql_type in
        let* hive := get field (py "Hive") in
        let required := if truthy hive then true else false in
        let* description := get field (py "Comment") in
        let* imported_field :=
          if is_type field_type (py "struct") then
            let* sub := get field (py "Fields") in
            let* fields := import_record_fields fuel sub in
            Ok (mkField field_type (Some required) description (Mapping fields) None)
          else if is_type field_type (py "array") then
            let* sub := get field (py "Items") in
            let* items := import_array_field fuel sub in
            Ok (mkField field_type (Some required) description Unset (Some items))
          else Ok (mkField field_type (Some required) description Unset None) in
        let* name := get field (py "Name") in
        setitem imported_fields name imported_field) []
  end
with import_array_field (fuel : nat) (array_field : pyval) : res Field :=
  match fuel with
  | O => Raise OutOfFuel
  | S fuel =>
      let* sql_type := get array_field (py "Type") in
      let* field_type := map_type_from_sql sql_type in
      if is_type field_type (py "struct") then
        let* sub := get array_field (py "Fields") in
        let* fields := import_record_fields fuel sub in
        Ok (mkField field_type None PNone (Mapping fields) None)
      else if is_type field_type (py "array") then
        let* sub := get array_field (py "Items") in
        let* fields := import_array_field fuel sub in
        Ok (mkField field_type None PNone (Single fields) None)
      else Ok (mkField field_type None PNone Unset None)
  end.

(** nesting depth of a value: the recursion of the importer never goes
    deeper *)
Fixpoint depth (v : pyval) : nat :=
  match v with
  | PList l => S (list_max (List.map depth l))
  | PDict d => S (list_max (List.map (fun kv => depth (snd kv)) d))
  | _ => O
  end.

(** ** The catalogue's records and the whole run *)

Record RawColumn : Type := {
  Name : pystr;
  Type_ : pystr;
  isPartitionKey : bool;
  Comment : option pystr
}.

(** The dictionary [get_glue_table_schema] hands over for a column: a
    partition key carries [Hive]. *)
Definition column_record (c : RawColumn) : dict pyval :=
  [(py "Name", PStr (Name c)); (py "Type", PStr (Type_ c))]
  ++ (if isPartitionKey c then [(py "Hive", PBool true)] else [])
  ++ (match Comment c with
      | Some text => [(py "Comment", PStr text)]
      | None => []
      end).

Definition snapshot (h : heap) (schema : list ref) : pyval :=
  PList (List.map (deref h) schema).

(** [import_record_fields(format_schema(table_schema))] on fresh records,
    one per column; the result comes with the store as the run leaves
    it. *)
Definition import_columns (columns : list RawColumn)
    : heap * res (list (pyval * Field)) :=
  let h := List.map column_record columns in
  let table_schema := seq 0 (length columns) in
  let (h', r) := format_schema table_schema h in
  (h', let* table_schema := r in
       let record_fields := snapshot h' table_schema in
       import_record_fields (S (depth record_fields)) record_fields).

(** ** Notions used by the statements *)

(** What one pass of the loop of [import_record_fields] builds from
    [field]: the key and the value of the entry it stores. *)
Definition import_record_field (fuel : nat) (field : pyval) : res (pyval * Field) :=
  let* sql_type := get field (py "Type") in
  let* field_type := map_type_from_sql sql_type in
  let* hive := get field (py "Hive") in
  let required := if truthy hive then true else false in
  let* description := get field (py "Comment") in
  let* imported_field :=
    if is_type field_type (py "struct") then
      let* sub := get field (py "Fields") in
      let* fields := import_record_fields fuel sub in
      Ok (mkField field_type (Some required) description (Mapping fields) None)
    else if is_type field_type (py "array") then
      let* sub := get field (py "Items") in
      let* items := import_array_field fuel sub in
      Ok (mkField field_type (Some required) description Unset (Some items))
    else Ok (mkField field_type (Some required) description Unset None) in
  let* name := get field (py "Name") in
  Ok (name, imported_field).

(** What [format_schema] makes of one record *)
Definition format_record (d : dict pyval) : res (dict pyval) :=
  let* type := subscript (PDict d) (py "Type") in
  match type with
  | PStr type =>
      if startswith type (py "array<") then
        let* parsed := generate_sub_fields type in
        let* items := subscript parsed (py "Items") in
        Ok (dict_set (dict_set d (py "Items") items) (py "Type") (PStr (py "array")))
      else if startswith type (py "struct<") then
        let* parsed := generate_sub_fields type in
        let* fields := subscript parsed (py "Fields") in
        Ok (dict_set (dict_set d (py "Fields") fields) (py "Type") (PStr (py "struct")))
      else Ok d
  | _ => Raise AttributeError
  end.

(** the record's type text opens a bracketed [array] or [struct] *)
Definition composite (d : dict pyval) : bool :=
  match dict_get d (py "Type") with
  | Some (PStr type) => (startswith type (py "array<") || startswith type (py "struct<"))%bool
  | _ => false
  end.

(** every nested child of a field, at any depth *)
Fixpoint descendants (f : Field) : list Field :=
  match f with
  | mkField _ _ _ fs it =>
      (match fs with
       | Unset => []
       | Mapping m => flat_map (fun kf => snd kf :: descendants (snd kf)) m
       | Single g => g :: descendants g
       end)
      ++ (match it with
          | Some g => g :: descendants g
          | None => []
          end)
  end.

(** no dictionary inside [v] has a [Hive] or a [Comment] key *)
Fixpoint no_meta (v : pyval) : bool :=
  match v with
  | PList l => forallb no_meta l
  | PDict d =>
      match dict_get d (py "Hive"), dict_get d (py "Comment") with
      | None, None => forallb (fun kv => no_meta (snd kv)) d
      | _, _ => false
      end
  | _ => true
  end.

(** the descriptor parsed from a type text, if there is one, has only
    dictionaries without [Hive] and [Comment] *)
Definition plain_descriptor (type : pystr) : bool :=
  match generate_sub_fields type with
  | Ok v => no_meta v
  | Raise _ => true
  end.

(** a nested child that carries no [required = True] and no description *)
Definition bare (g : Field) : Prop :=
  required g <> Some true /\ description g = PNone.

(** the mapping after the entries [kfs] were stored one after the other *)
Definition store_all {V : Type} (kfs : list (pyval * V)) (m : list (pyval * V))
    : list (pyval * V) :=
  fold_left (fun acc kf => store_key acc (fst kf) (snd kf)) kfs m.

(** [f] is the field the run builds from the column [c] alone *)
Definition built (c : RawColumn) (f : Field) : Prop :=
  exists h, import_columns [c] = (h, Ok [(PStr (Name c), f)]).

(** an absent comment is [None] *)
Definition of_option (input : option pystr) : pyval :=
  match input with
  | Some s => PStr s
  | None => PNone
  end.

(** [d'] is [d] except, possibly, under [Type], [Items] and [Fields]; it
    is [d] itself when [d] is not composite *)
Definition same_record (d d' : dict pyval) : Prop :=
  (forall k, k <> py "Type" -> k <> py "Items" -> k <> py "Fields" ->
             dict_get d' k = dict_get d k)
  /\ (composite d = false -> d' = d).

(** a field as [import_array_field] leaves it: no flag, no description *)
Definition unmarked (g : Field) : Prop :=
  required g = None /\ description g = PNone.

(** what hangs under [items], and a field hung under [fields], is unmarked *)
Definition items_unmarked (f : Field) : Prop :=
  forall g, items f = Some g \/ fields f = Single g -> unmarked g.

(** [P] holds of [f] and of every nested child of [f] *)
Definition every (P : Field -> Prop) (f : Field) : Prop :=
  P f /\ forall g, In g (descendants f) -> P g.

(** a key of the output mapping that is a [str] *)
Definition str_key (k : pyval) : Prop := exists s, k = PStr s.

(** the identifier before a bracket that follows [p] is neither [struct]
    nor [array] *)
Definition unknown_group (p : pystr) : Prop :=
  exists w, last_item (findall_words p) = Ok w
            /\ w <> py "struct" /\ w <> py "array".

(** every field imported from a value that satisfies [I] satisfies [P],
    and so do its nested children *)
Definition nodes_at (I : pyval -> Prop) (P : Field -> Prop) (fuel : nat) : Prop :=
  (forall v m, I v -> import_record_fields fuel v = Ok m ->
               forall k f, In (k, f) m -> every P f)
  /\ (forall v f, I v -> import_array_field fuel v = Ok f -> every P f).

(** ** The type grammar

    The texts the normalizer is written for: a scalar name, [array<T>],
    [struct<n:T,...>] with at least one member.  Names are made of
    characters that the notation and the literals do not use. *)

#[warnings="-register-all"]
Inductive ty : Type :=
  | Scalar (name : pystr)
  | Array (element : ty)
  | Struct (members : list (pystr * ty)).

Definition plain_char (c : ascii) : bool :=
  (negb (existsb (Ascii.eqb c) (py "<>,:|'\"))
   && negb (Ascii.eqb c dquote)
   && Nat.leb 32 (nat_of_ascii c))%bool.

Definition identifier (s : pystr) : bool := forallb plain_char s.

Fixpoint well_formed (t : ty) : bool :=
  match t with
  | Scalar name => identifier name
  | Array element => well_formed element
  | Struct members =>
      match members with
      | [] => false
      | _ => forallb (fun nt => identifier (fst nt) && well_formed (snd nt)) members
      end
  end.

(** [sep.join(l)] *)
Fixpoint join (sep : pystr) (l : list pystr) : pystr :=
  match l with
  | [] => []
  | x :: l' =>
      match l' with
      | [] => x
      | _ => x ++ sep ++ join sep l'
      end
  end.

(** the text of a type, as the catalogue writes it *)
Fixpoint render (t : ty) : pystr :=
  match t with
  | Scalar name => name
  | Array element => py "array<" ++ render element ++ py ">"
  | Struct members =>
      py "struct<"
      ++ join (py ",") (List.map (fun nt => fst nt ++ py ":" ++ render (snd nt)) members)
      ++ py ">"
  end.

(** the number of brackets of a type *)
Fixpoint brackets (t : ty) : nat :=
  match t with
  | Scalar _ => O
  | Array element => S (brackets element)
  | Struct members => S (list_sum (List.map (fun nt => brackets (snd nt)) members))
  end.

(** The literal of a type, from its first key on (the opening quote left
    out): what the loop writes between the braces of an item or of a
    struct member. *)
Fixpoint literal (t : ty) : pystr :=
  match t with
  | Scalar name => py "Type':'" ++ name ++ py "'"
  | Array element => py "Type':'array'|'Items':{'" ++ literal element ++ py "}"
  | Struct members =>
      py "Type':'struct'|'Fields':["
      ++ join (py "|")
           (List.map (fun nt =>
              match snd nt with
              | Scalar name =>
                  py "{'Name': '" ++ fst nt ++ py "'|'Type': '" ++ name ++ py "'}"
              | _ => py "{'Name':'" ++ fst nt ++ py "'|'" ++ literal (snd nt) ++ py "}"
              end) members)
      ++ py "]"
  end.

(** the text that stands for a type once all its brackets are rewritten *)
Definition rewritten (t : ty) : pystr :=
  match t with
  | Scalar name => name
  | _ => "'"%char :: literal t
  end.

(** the entries of the dictionary that [json.loads] reads from a literal *)
Fixpoint entries (t : ty) : list (pystr * pyval) :=
  match t with
  | Scalar name => [(py "Type", PStr name)]
  | Array element =>
      [(py "Type", PStr (py "array")); (py "Items", PDict (entries element))]
  | Struct members =>
      [(py "Type", PStr (py "struct"));
       (py "Fields",
        PList (List.map (fun nt => PDict ((py "Name", PStr (fst nt)) :: entries (snd nt)))
                 members))]
  end.

(** nothing, or a character that is not of a word, comes last: a word
    written after [pre] stands alone *)
Definition boundary (pre : pystr) : bool :=
  match rev pre with
  | [] => true
  | c :: _ => negb (is_word c)
  end.

(** a struct member as the catalogue writes it, as it stands once its
    own brackets are rewritten, and as the loop writes it in the literal *)
Definition member_text (nt : pystr * ty) : pystr :=
  fst nt ++ py ":" ++ render (snd nt).

Definition member_rewritten (nt : pystr * ty) : pystr :=
  fst nt ++ py ":" ++ rewritten (snd nt).

Definition member_literal (nt : pystr * ty) : pystr :=
  match snd nt with
  | Scalar name => py "{'Name': '" ++ fst nt ++ py "'|'Type': '" ++ name ++ py "'}"
  | _ => py "{'Name':'" ++ fst nt ++ py "'|'" ++ literal (snd nt) ++ py "}"
  end.

(** the loop rewrites the text of [t] wherever it stands, provided the
    text before it ends a word and no bracket is left after it *)
Definition normalizes (t : ty) : Prop :=
  forall pre post, boundary pre = true -> ~ In "<"%char post ->
    for_range (brackets t) rewrite_innermost (pre ++ render t ++ post) =
    Ok (pre ++ rewritten t ++ post).

(** the two replacements made before [json.loads] *)
Definition jsonify (s : pystr) : pystr :=
  replace (replace s "|" ",") "'" dquote.

(** none of the keys the literals use is in [pairs] yet *)
Definition fresh (pairs : dict pyval) : Prop :=
  dict_get pairs (py "Type") = None
  /\ dict_get pairs (py "Items") = None
  /\ dict_get pairs (py "Fields") = None.

(** what [json.loads] reads from the literal of a struct member *)
Definition member_entry (nt : pystr * ty) : pyval :=
  PDict ((py "Name", PStr (fst nt)) :: entries (snd nt)).

(** the decoder reads the members of the literal of [t], up to the brace
    that closes them, as the entries of [t] *)
Definition parses (t : ty) : Prop :=
  forall fuel rest pairs, fresh pairs ->
    (2 * length (jsonify (literal t) ++ "}"%char :: rest) < fuel)%nat ->
    Json.parse_members fuel (jsonify (literal t) ++ "}"%char :: rest) pairs =
    Ok (PDict (pairs ++ entries t), rest).

(** a column type of the grammar *)
Definition grammatical (type : pystr) : Prop :=
  exists t, well_formed t = true /\ type = render t.

(** ** The scenarios of the design document *)

Module Scenario.

Definition column (name type : string) (partition : bool) : RawColumn :=
  {| Name := py name; Type_ := py type;
     isPartitionKey := partition; Comment := None |}.

Definition id_column : RawColumn := column "id" "bigint" false.
Definition p_column : RawColumn := column "p" "string" true.
Definition struct_column : RawColumn :=
  column "s" "struct<a:string,b:array<int>>" false.
Definition unbalanced_column : RawColumn := column "u" "struct<a:string" false.
Definition map_column : RawColumn := column "m" "struct<m:map<string,int>>" false.
Definition matrix_column : RawColumn := column "x" "array<array<string>>" false.
Definition tags_column : RawColumn := column "tags" "array<string>" false.

(** two records of one name, the later one a partition key *)
Definition renamed_columns : list RawColumn :=
  [column "id" "string" false; column "id" "bigint" true].

(** a type text that writes keys of its own into a member's literal *)
Definition marked_column : RawColumn :=
  column "c" "struct<a:'Hive':1|'Comment':'x'>" false.

(** The outcome of scenario 4, with the name of the type of the items
    of [b] left open: the column gives one field of type [struct] whose
    mapping holds [a], a [string], then [b], an [array] with items of
    type [item_type]. *)
Definition struct_outcome (item_type : string) (m : list (pyval * Field)) : Prop :=
  exists f fa fb fi,
    m = [(PStr (py "s"), f)]
    /\ type f = Some (py "struct")
    /\ fields f = Mapping [(PStr (py "a"), fa); (PStr (py "b"), fb)]
    /\ type fa = Some (py "string")
    /\ type fb = Some (py "array")
    /\ items fb = Some fi
    /\ type fi = Some (py item_type).

End Scenario.

(** ** The field tree of a type of the grammar *)

(** the name the mapper gives to a type text *)
Definition mapped (name : pystr) : option pystr :=
  match map_type_from_sql (PStr name) with
  | Ok t => t
  | Raise _ => None
  end.

(** a scalar name: an identifier that the mapper does not take for a
    [struct] or an [array] *)
Definition scalar_name (name : pystr) : bool :=
  (identifier name
   && negb (is_type (mapped name) (py "struct"))
   && negb (is_type (mapped name) (py "array")))%bool.

(** a type of the grammar whose scalars are scalar names *)
Fixpoint typed (t : ty) : bool :=
  match t with
  | Scalar name => scalar_name name
  | Array element => typed element
  | Struct members =>
      match members with
      | [] => false
      | _ => forallb (fun nt => identifier (fst nt) && typed (snd nt)) members
      end
  end.

(** how deep the brackets of a type are nested *)
Fixpoint nesting (t : ty) : nat :=
  match t with
  | Scalar _ => O
  | Array element => S (nesting element)
  | Struct members => S (list_max (List.map (fun nt => nesting (snd nt)) members))
  end.

(** The interpreter's recursion limit is outside the embedding: CPython
    ends [json.loads] and the importer with [RecursionError] when the
    nesting of a descriptor uses up the limit, 1000 frames unless it was
    changed.  A level of a type opens two levels of its literal at most
    and one call of the importer, so a type nested no deeper than
    [nesting_bound] stays far from the limit.  What is stated below of
    a run that succeeds on every type of the grammar is stated within
    this bound. *)
Definition nesting_bound : nat := 100.

(** where a field is built: from a record, by [import_record_fields], or
    as the items of an array, by [import_array_field] *)
Inductive place : Type := Record_ | Items_.

(** The field the importer builds for a type.  A record's field has the
    flag and the description given; the field of an array's items has
    neither, and hangs its own items under [fields]. *)
Fixpoint tree (p : place) (flag : option bool) (text : pyval) (t : ty) : Field :=
  match t with
  | Scalar name => mkField (mapped name) flag text Unset None
  | Array element =>
      match p with
      | Record_ =>
          mkField (Some (py "array")) flag text Unset
            (Some (tree Items_ None PNone element))
      | Items_ =>
          mkField (Some (py "array")) flag text
            (Single (tree Items_ None PNone element)) None
      end
  | Struct members =>
      mkField (Some (py "struct")) flag text
        (Mapping
           (store_all
              (List.map (fun nt => (PStr (fst nt), tree Record_ (Some false) PNone (snd nt)))
                 members) []))
        None
  end.

(** the field of a column of type [t] *)
Definition column_field (c : RawColumn) (t : ty) : Field :=
  tree Record_ (Some (isPartitionKey c)) (of_option (Comment c)) t.

(** the record of a column of type [t] as [format_schema] leaves it *)
Definition formatted (c : RawColumn) (t : ty) : dict pyval :=
  match t with
  | Scalar _ => column_record c
  | Array element =>
      dict_set (dict_set (column_record c) (py "Items") (PDict (entries element)))
        (py "Type") (PStr (py "array"))
  | Struct members =>
      dict_set
        (dict_set (column_record c) (py "Fields")
           (PList (List.map member_entry members)))
        (py "Type") (PStr (py "struct"))
  end.

(** what the importer makes of the descriptor of [t], as the items of an
    array and as a struct member *)
Definition imports (t : ty) : Prop :=
  exists fuel0, forall fuel, (fuel0 <= fuel)%nat ->
    import_array_field fuel (PDict (entries t)) = Ok (tree Items_ None PNone t)
    /\ forall n, import_record_field fuel (member_entry (n, t)) =
                 Ok (PStr n, tree Record_ (Some false) PNone t).

(** an [array] or a [struct], as opposed to a scalar *)
Definition bracketed (t : ty) : bool :=
  match t with
  | Scalar _ => false
  | _ => true
  end.

(** ** Notions of the further statements *)

(** the record under [column] is one that [format_schema] leaves as it is *)
Definition at_rest (h : heap) (column : ref) : Prop :=
  exists d, h !! column = Some d /\ format_record d = Ok d.

(** the names [map_type_from_sql] can return *)
Definition canonical_names : list pystr :=
  [ py "varchar"; py "string"; py "text"; py "byte"; py "short"; py "integer";
    py "long"; py "float"; py "double"; py "boolean"; py "timestamp"; py "date";
    py "array"; py "struct"; py "variant" ].

(** the names of [names] in the order of their first occurrence; [seen]
    are the names met before *)
Fixpoint first_seen (seen names : list pystr) : list pystr :=
  match names with
  | [] => []
  | n :: rest =>
      if existsb (str_eqb n) seen then first_seen seen rest
      else n :: first_seen (n :: seen) rest
  end.

(** ** The Glue catalogue

    [get_glue_database], [get_glue_tables], [get_glue_table_schema] and
    [import_glue] talk to the catalogue through a [boto3] client.  The
    three calls they make only read the catalogue, so the client is
    embedded as the answers it gives: a function of the request.  An
    answer is a response or an exception; what the functions print is
    kept as a list of lines. *)

Inductive failure : Type :=
  | EntityNotFoundException
  | ClientException (message : pystr)
  | Python (e : exn).

Inductive outcome (A : Type) : Type :=
  | Returns (a : A)
  | Throws (f : failure).
Arguments Returns {A} a.
Arguments Throws {A} f.

(** the lines of the four [print] calls; [error_line e] is [f"Error: {e}"] *)
Inductive line : Type :=
  | database_not_found (datebase_name : pystr)
  | tables_database_not_found (database_name : pystr)
  | table_not_found (table_name : pyval) (database_name : pystr)
  | error_line (e : failure).

(** a computation that prints and then returns or raises *)
Definition io (A : Type) : Type := (list line * outcome A)%type.

Definition ret {A : Type} (a : A) : io A := ([], Returns a).

Definition print (l : line) : io unit := ([l], Returns tt).

Definition call {A : Type} (answer : outcome A) : io A := ([], answer).

Definition lift {A : Type} (r : res A) : io A :=
  match r with
  | Ok a => ([], Returns a)
  | Raise e => ([], Throws (Python e))
  end.

Definition io_bind {A B : Type} (m : io A) (k : A -> io B) : io B :=
  match m with
  | (out, Returns a) => let (out', r) := k a in (out ++ out', r)
  | (out, Throws f) => (out, Throws f)
  end.

Notation "'let+' x ':=' m 'in' k" := (io_bind m (fun x => k))
  (at level 10, x pattern, k at level 200).

(** The client: [get_database(Name=...)], the pages that
    [get_paginator("get_tables").paginate(DatabaseName=...)] yields with
    the exception that ends the iteration, if any, and
    [get_table(DatabaseName=..., Name=...)]. *)
Record Glue : Type := {
  get_database : pystr -> outcome pyval;
  paginate_get_tables : pystr -> list pyval * option failure;
  get_table : pystr -> pyval -> outcome pyval
}.

(** [d.get(k, default)] *)
Definition get_default (d : pyval) (k : pystr) (default : pyval) : res pyval :=
  match d with
  | PDict d =>
      match dict_get d k with
      | Some v => Ok v
      | None => Ok default
      end
  | _ => Raise AttributeError
  end.

(** [p in s] on strings *)
Fixpoint is_substring (p s : pystr) : bool :=
  (startswith s p
   || match s with
      | [] => false
      | _ :: s' => is_substring p s'
      end)%bool.

(** [k in container], [k] a string *)
Definition contains (container : pyval) (k : pystr) : res bool :=
  match container with
  | PDict d => Ok (match dict_get d k with Some _ => true | None => false end)
  | PList l =>
      Ok (existsb (fun x => match x with PStr s => str_eqb s k | _ => false end) l)
  | PStr s => Ok (is_substring k s)
  | _ => Raise TypeError
  end.

(** [[table["Name"] for table in page["TableList"] if "Name" in table]] *)
Definition page_names (page : pyval) : res (list pyval) :=
  let* tables := subscript page (py "TableList") in
  let* tables := iterate tables in
  for_each tables (fun names table =>
    let* named := contains table (py "Name") in
    if named then
      let* name := subscript table (py "Name") in
      Ok (names ++ [name])
    else Ok names) [].

(** the record appended for a partition key *)
Definition partition_record (name type : pyval) : dict pyval :=
  [(py "Name", name); (py "Type", type); (py "Hive", PBool true);
   (py "Comment", PStr (py "Partition Key"))].

(** [table_schema.append({...})] for the partition key [pk] *)
Definition append_partition_key (table_schema pk : pyval) : res pyval :=
  match table_schema with
  | PList columns =>
      let* name := subscript pk (py "Name") in
      let* type := subscript pk (py "Type") in
      Ok (PList (columns ++ [PDict (partition_record name type)]))
  | _ => Raise AttributeError
  end.

(** [format_schema] on a schema given as a value.  The records of a
    response are objects of their own, no two of them the same, so each
    one is updated by itself ([format_record]); what is not a record has
    no [column['Type']].  The function returns the object it was given:
    the list with its records updated, or, when the loop has nothing to
    do, whatever it was. *)
Definition format_value (column : pyval) : res pyval :=
  match column with
  | PDict d => let* d' := format_record d in Ok (PDict d')
  | _ => let* _ := subscript column (py "Type") in Raise TypeError
  end.

Definition format_schema_value (schema : pyval) : res pyval :=
  let* columns := iterate schema in
  let* columns :=
    for_each columns (fun done column =>
      let* column := format_value column in Ok (done ++ [column])) [] in
  match schema with
  | PList _ => Ok (PList columns)
  | _ => Ok schema
  end.

(** Modelled from the spec: the contract model is the collaborator that
    receives the field trees.  Of its classes [Server], [Model] and
    [DataContractSpecification] the embedding keeps what [import_glue]
    passes or assigns: the four arguments of [Server(...)], the two of
    [Model(...)], and the attributes [servers] and [models], [None] when
    unset.  The constructors are taken to accept what they are given. *)
Record Server : Type := {
  server_type : pystr;
  account : pyval;
  database : pystr;
  location : pyval
}.

Record Model : Type := {
  model_type : pystr;
  model_fields : list (pyval * Field)
}.

Record DataContractSpecification : Type := {
  servers : option (list (pystr * Server));
  models : option (list (pyval * Model))
}.

Section Catalogue.

(** what [boto3.client("glue")] gives *)
Variable boto3_client : outcome Glue.

Definition get_glue_database (datebase_name : pystr) : io (pyval * pyval) :=
  let+ glue := call boto3_client in
  match get_database glue datebase_name with
  | Throws EntityNotFoundException =>
      let+ _ := print (database_not_found datebase_name) in
      ret (PNone, PNone)
  | Throws e =>
      let+ _ := print (error_line e) in
      ret (PNone, PNone)
  | Returns response =>
      let+ database := lift (subscript response (py "Database")) in
      let+ catalogid := lift (subscript database (py "CatalogId")) in
      let+ database := lift (subscript response (py "Database")) in
      let+ location_uri :=
        lift (get_default database (py "LocationUri") (PStr (py "None"))) in
      ret (catalogid, location_uri)
  end.

(** the body of the [try] of [get_glue_tables] *)
Definition collect_table_names (pages : list pyval) (stop : option failure)
    : outcome (list pyval) :=
  match for_each pages (fun table_names page =>
          let* names := page_names page in Ok (table_names ++ names)) [] with
  | Ok table_names =>
      match stop with
      | None => Returns table_names
      | Some e => Throws e
      end
  | Raise e => Throws (Python e)
  end.

Definition get_glue_tables (database_name : pystr) : io (list pyval) :=
  let+ glue := call boto3_client in
  let (pages, stop) := paginate_get_tables glue database_name in
  match collect_table_names pages stop with
  | Returns table_names => ret table_names
  | Throws EntityNotFoundException =>
      let+ _ := print (tables_database_not_found database_name) in
      ret []
  | Throws e =>
      let+ _ := print (error_line e) in
      ret []
  end.

Definition get_glue_table_schema (database_name : pystr) (table_name : pyval)
    : io pyval :=
  let+ glue := call boto3_client in
  match get_table glue database_name table_name with
  | Throws EntityNotFoundException =>
      let+ _ := print (table_not_found table_name database_name) in
      ret (PDict [])
  | Throws e =>
      let+ _ := print (error_line e) in
      ret (PDict [])
  | Returns response =>
      lift (
        let* table := subscript response (py "Table") in
        let* descriptor := subscript table (py "StorageDescriptor") in
        let* table_schema := subscript descriptor (py "Columns") in
        let* table := subscript response (py "Table") in
        let* keys := get table (py "PartitionKeys") in
        let* table_schema :=
          match keys with
          | PNone => Ok table_schema
          | _ =>
              let* table := subscript response (py "Table") in
              let* keys := subscript table (py "PartitionKeys") in
              let* keys := iterate keys in
              for_each keys append_partition_key table_schema
          end in
        format_schema_value table_schema)
  end.

(** The loop of [import_glue] over the table names.  The specification
    is an object that the loop assigns to: the state comes back with the
    lines printed and the exception, if one ended the loop. *)
Fixpoint import_tables (source : pystr) (table_names : list pyval)
    (data_contract_specification : DataContractSpecification)
    : list line * DataContractSpecification * option failure :=
  match table_names with
  | [] => ([], data_contract_specification, None)
  | table_name :: rest =>
      let data_contract_specification :=
        match models data_contract_specification with
        | None =>
            {| servers := servers data_contract_specification; models := Some [] |}
        | Some _ => data_contract_specification
        end in
      match get_glue_table_schema source table_name with
      | (out, Throws e) => (out, data_contract_specification, Some e)
      | (out, Returns table_schema) =>
          match import_record_fields (S (depth table_schema)) table_schema with
          | Raise e => (out, data_contract_specification, Some (Python e))
          | Ok fields =>
              let model := {| model_type := py "table"; model_fields := fields |} in
              match models data_contract_specification with
              | None => (out, data_contract_specification, Some (Python TypeError))
              | Some models_ =>
                  match setitem models_ table_name model with
                  | Raise e => (out, data_contract_specification, Some (Python e))
                  | Ok models_ =>
                      let '(out', final, e) :=
                        import_tables source rest
                          {| servers := servers data_contract_specification;
                             models := Some models_ |} in
                      (out ++ out', final, e)
                  end
              end
          end
      end
  end.

(** [import_glue]: the lines printed, the specification as the call
    leaves it, and the exception raised, if any; without one the
    function returns the specification. *)
Definition import_glue (data_contract_specification : DataContractSpecification)
    (source : pystr) (table_names : option (list pyval))
    : list line * DataContractSpecification * option failure :=
  match get_glue_database source with
  | (out, Throws e) => (out, data_contract_specification, Some e)
  | (out, Returns (catalogid, location_uri)) =>
      match catalogid with
      | PNone => (out, data_contract_specification, None)
      | _ =>
          let (out1, table_names) :=
            match table_names with
            | None => get_glue_tables source
            | Some table_names => ret table_names
            end in
          match table_names with
          | Throws e => (out ++ out1, data_contract_specification, Some e)
          | Returns table_names =>
              let data_contract_specification :=
                {| servers :=
                     Some [(py "production",
                            {| server_type := py "glue"; account := catalogid;
                               database := source; location := location_uri |})];
                   models := models data_contract_specification |} in
              let '(out2, final, e) :=
                import_tables source table_names data_contract_specification in
              (out ++ out1 ++ out2, final, e)
          end
      end
  end.

End Catalogue.

(** ** Notions of the statements on the catalogue *)

(** the line printed for an exception of the client, by the handlers of
    the three functions *)
Definition handler_line (not_found : line) (e : failure) : line :=
  match e with
  | EntityNotFoundException => not_found
  | _ => error_line e
  end.

(** the column that stands for a partition key *)
Definition partition_column (key : pystr * pystr) : RawColumn :=
  {| Name := fst key; Type_ := snd key; isPartitionKey := true;
     Comment := Some (py "Partition Key") |}.

(** [keys] are the names and types of the partition keys of the table
    [table]: none when [PartitionKeys] is absent or [None] *)
Definition partition_keys (table : pyval) (keys : list (pystr * pystr)) : Prop :=
  (get table (py "PartitionKeys") = Ok PNone /\ keys = [])
  \/ exists pks,
       get table (py "PartitionKeys") = Ok (PList pks)
       /\ Forall2 (fun pk key =>
                     subscript pk (py "Name") = Ok (PStr (fst key))
                     /\ subscript pk (py "Type") = Ok (PStr (snd key))) pks keys.

(** the model stored under [name], if any *)
Definition model_of (data_contract_specification : DataContractSpecification)
    (name : pyval) : option Model :=
  match models data_contract_specification with
  | Some m => lookup_key m name
  | None => None
  end.

(** the server [import_glue] records *)
Definition production (catalogid : pyval) (source : pystr) (location_uri : pyval)
    : list (pystr * Server) :=
  [(py "production",
    {| server_type := py "glue"; account := catalogid; database := source;
       location := location_uri |})].

(** the names of the tables of a page that have one *)
Definition listed_names (tables : list (dict pyval)) : list pyval :=
  flat_map (fun table =>
              match dict_get table (py "Name") with
              | Some name => [name]
              | None => []
              end) tables.

(** [LocationUri], or the default of [get_glue_database] *)
Definition location_of (database : dict pyval) : pyval :=
  match dict_get database (py "LocationUri") with
  | Some uri => uri
  | None => PStr (py "None")
  end.

(** the specification once [models] is a dictionary *)
Definition with_models (data_contract_specification : DataContractSpecification)
    : list (pyval * Model) :=
  match models data_contract_specification with
  | Some m => m
  | None => []
  end.

(** what the loop writes for a piece of a struct's content that has no
    colon: the piece without its last character as the name, then the
    piece itself *)
Definition stray_literal (piece : pystr) : pystr :=
  py "{'Name':'" ++ slice_to piece (-1) ++ py "'|" ++ piece ++ py "}".

(** the text of a struct with one member whose type is written with a
    comma, as in [struct<amount:decimal(10,2)>] *)
Definition struct_with_comma (name before after : pystr) : pystr :=
  py "struct<" ++ (name ++ py ":" ++ before ++ py "," ++ after) ++ py ">".

(** ** A sample catalogue *)

Module Sample.

(** the table [orders]: two columns and the partition key [day] *)
Definition orders_columns : list RawColumn :=
  [Scenario.column "id" "bigint" false; Scenario.tags_column].

Definition orders_table : pyval :=
  PDict [(py "StorageDescriptor",
          PDict [(py "Columns",
                  PList (List.map (fun c => PDict (column_record c)) orders_columns))]);
         (py "PartitionKeys",
          PList [PDict [(py "Name", PStr (py "day")); (py "Type", PStr (py "string"))]])].

Definition orders_response : pyval := PDict [(py "Table", orders_table)].

(** a database without [LocationUri] *)
Definition sales_database : dict pyval := [(py "CatalogId", PStr (py "123456789012"))].

Definition sales_response : pyval := PDict [(py "Database", PDict sales_database)].

(** one page: the table [orders] and an entry without a name *)
Definition sales_page : pyval :=
  PDict [(py "TableList",
          PList (List.map PDict [[(py "Name", PStr (py "orders"))];
                                 [(py "Owner", PStr (py "nobody"))]]))].

(** The catalogue holds the database [sales] with the table [orders]. *)
Definition glue : Glue :=
  {| get_database name :=
       if str_eqb name (py "sales") then Returns sales_response
       else Throws EntityNotFoundException;
     paginate_get_tables name :=
       if str_eqb name (py "sales") then ([sales_page], None)
       else ([], Some EntityNotFoundException);
     get_table database_name name :=
       match name with
       | PStr n =>
           if (str_eqb database_name (py "sales") && str_eqb n (py "orders"))%bool
           then Returns orders_response
           else Throws EntityNotFoundException
       | _ => Throws (ClientException (py "ParamValidationError"))
       end |}.

(** the same catalogue to a client that may not list the tables *)
Definition glue_without_listing : Glue :=
  {| get_database := get_database glue;
     paginate_get_tables name := ([], Some (ClientException (py "AccessDeniedException")));
     get_table := get_table glue |}.

Definition blank : DataContractSpecification := {| servers := None; models := None |}.

End Sample.

(** [d.get(k)] on a record *)
Definition entry (d : dict pyval) (k : pystr) : pyval :=
  match dict_get d k with
  | Some v => v
  | None => PNone
  end.

(** [s] holds a character of a word *)
Definition has_word (s : pystr) : bool := existsb is_word s.

(** a word is written before every opening bracket of [s], and before
    its last character *)
Definition guarded (s : pystr) : Prop :=
  (forall a b, s = a ++ "<"%char :: b -> has_word a = true)
  /\ has_word (slice_to s (-1)) = true.

(** the exceptions of the decoder: its error, and what the embedding
    does not cover *)
Definition decoding (e : exn) : Prop := e = JSONDecodeError \/ e = NotModelled.
(** ** What [format_schema] assigns *)

(** [d'] is the record [d], of type text [type], after the assignments of
    [format_schema]: the descriptor's [Items] or [Fields] stored under
    that key, then [Type] replaced by the bare kind.  It is [d] itself
    when the text opens neither bracket. *)
Definition updated (d : dict pyval) (type : pystr) (d' : dict pyval) : Prop :=
  if startswith type (py "array<") then
    exists parsed items,
      generate_sub_fields type = Ok parsed
      /\ subscript parsed (py "Items") = Ok items
      /\ d' = dict_set (dict_set d (py "Items") items) (py "Type") (PStr (py "array"))
  else if startswith type (py "struct<") then
    exists parsed fields,
      generate_sub_fields type = Ok parsed
      /\ subscript parsed (py "Fields") = Ok fields
      /\ d' = dict_set (dict_set d (py "Fields") fields) (py "Type") (PStr (py "struct"))
  else d' = d.

(** ** The objects the importer builds

    [import_record_fields] and [import_array_field] create a [Field]
    empty and assign its attributes one after the other; the mapping
    they return is a dictionary filled entry by entry.  The functions
    above give the values that come out.  Here the same statements are
    read as they are written: the fields and the mappings are objects in
    a store, named by their position in it, an attribute or an entry that
    holds an object holds its reference, and every creation and
    assignment is recorded in the order of the run. *)
Module Objects.

(** A [Field] with its attributes, [type], [required], [description],
    [fields] and [items], or a dictionary from keys to fields. *)
Inductive object : Type :=
  | FieldObject (type : option pystr) (required : option bool) (description : pyval)
                (fields : option ref) (items : option ref)
  | DictObject (es : list (pyval * ref)).

(** [Created r]: the object [r] was created.  [Assigned r a v]: the
    attribute [a] of [r] was assigned; [v] is the object assigned, when
    the value is one.  [Stored m k r]: the entry [m[k]] was set to the
    object [r]. *)
Inductive event : Type :=
  | Created (r : ref)
  | Assigned (r : ref) (attribute : string) (value : option ref)
  | Stored (m : ref) (key : pyval) (r : ref).

Record state : Type := { objects : list object; events : list event }.

Definition start : state := {| objects := []; events := [] |}.

(** A statement runs in a state and leaves a state, with a value or an
    exception. *)
Definition M (A : Type) : Type := state -> state * res A.

Definition ret {A : Type} (a : A) : M A := fun s => (s, Ok a).

(** a call that touches no object *)
Definition lift {A : Type} (r : res A) : M A := fun s => (s, r).

Definition and_then {A B : Type} (m : M A) (k : A -> M B) : M B :=
  fun s =>
    match m s with
    | (s', Ok a) => k a s'
    | (s', Raise e) => (s', Raise e)
    end.

Notation "'let!' x ':=' m 'in' k" := (and_then m (fun x => k))
  (at level 10, x pattern, k at level 200).

(** [Field()], with every attribute absent, and [{}] *)
Definition Field_ : object := FieldObject None None PNone None None.

Definition create (o : object) : M ref :=
  fun s =>
    let r := length (objects s) in
    ({| objects := objects s ++ [o]; events := events s ++ [Created r] |}, Ok r).

Definition set_type (v : option pystr) (o : object) : object :=
  match o with
  | FieldObject _ r d f i => FieldObject v r d f i
  | DictObject _ => o
  end.

Definition set_required (v : option bool) (o : object) : object :=
  match o with
  | FieldObject t _ d f i => FieldObject t v d f i
  | DictObject _ => o
  end.

Definition set_description (v : pyval) (o : object) : object :=
  match o with
  | FieldObject t r _ f i => FieldObject t r v f i
  | DictObject _ => o
  end.

Definition set_fields (v : option ref) (o : object) : object :=
  match o with
  | FieldObject t r d _ i => FieldObject t r d v i
  | DictObject _ => o
  end.

Definition set_items (v : option ref) (o : object) : object :=
  match o with
  | FieldObject t r d f _ => FieldObject t r d f v
  | DictObject _ => o
  end.

Definition set_entry (k : pyval) (v : ref) (o : object) : object :=
  match o with
  | DictObject es => DictObject (store_key es k v)
  | FieldObject _ _ _ _ _ => o
  end.

(** [r.attribute = ...] *)
Definition assign (r : ref) (attribute : string) (update : object -> object)
    (value : option ref) : M unit :=
  fun s =>
    ({| objects := alter update r (objects s);
        events := events s ++ [Assigned r attribute value] |}, Ok tt).

(** [m[k] = r] *)
Definition store (m : ref) (k : pyval) (r : ref) : M unit :=
  fun s =>
    if hashable k then
      ({| objects := alter (set_entry k r) m (objects s);
          events := events s ++ [Stored m k r] |}, Ok tt)
    else (s, Raise TypeError).

(** [for a in l: body] *)
Fixpoint for_in {A : Type} (l : list A) (body : A -> M unit) : M unit :=
  match l with
  | [] => ret tt
  | a :: l' => let! _ := body a in for_in l' body
  end.

Fixpoint import_record_fields (fuel : nat) (record_fields : pyval) : M ref :=
  match fuel with
  | O => lift (Raise OutOfFuel)
  | S fuel =>
      let! imported_fields := create (DictObject []) in
      let! record_fields := lift (iterate record_fields) in
      let! _ :=
        for_in record_fields (fun field =>
          let! imported_field := create Field_ in
          let! sql_type := lift (get field (py "Type")) in
          let! field_type := lift (map_type_from_sql sql_type) in
          let! hive := lift (get field (py "Hive")) in
          let! _ :=
            assign imported_field "required"
              (set_required (Some (if truthy hive then true else false))) None in
          let! description := lift (get field (py "Comment")) in
          let! _ :=
            assign imported_field "description" (set_description description) None in
          let! _ :=
            if is_type field_type (py "struct") then
              let! _ := assign imported_field "type" (set_type field_type) None in
              let! sub := lift (get field (py "Fields")) in
              let! fields := import_record_fields fuel sub in
              assign imported_field "fields" (set_fields (Some fields)) (Some fields)
            else if is_type field_type (py "array") then
              let! _ := assign imported_field "type" (set_type field_type) None in
              let! sub := lift (get field (py "Items")) in
              let! items := import_array_field fuel sub in
              assign imported_field "items" (set_items (Some items)) (Some items)
            else assign imported_field "type" (set_type field_type) None in
          let! name := lift (get field (py "Name")) in
          store imported_fields name imported_field) in
      ret imported_fields
  end
with import_array_field (fuel : nat) (array_field : pyval) : M ref :=
  match fuel with
  | O => lift (Raise OutOfFuel)
  | S fuel =>
      let! items := create Field_ in
      let! sql_type := lift (get array_field (py "Type")) in
      let! field_type := lift (map_type_from_sql sql_type) in
      if is_type field_type (py "struct") then
        let! _ := assign items "type" (set_type field_type) None in
        let! sub := lift (get array_field (py "Fields")) in
        let! fields := import_record_fields fuel sub in
        let! _ := assign items "fields" (set_fields (Some fields)) (Some fields) in
        ret items
      else if is_type field_type (py "array") then
        let! _ := assign items "type" (set_type field_type) None in
        let! sub := lift (get array_field (py "Items")) in
        let! fields := import_array_field fuel sub in
        let! _ := assign items "fields" (set_fields (Some fields)) (Some fields) in
        ret items
      else
        let! _ := assign items "type" (set_type field_type) None in
        ret items
  end.

(** The body of the loop of [import_record_fields], for the mapping
    [imported_fields] under construction. *)
Definition import_field (fuel : nat) (imported_fields : ref) (field : pyval) : M unit :=
  let! imported_field := create Field_ in
  let! sql_type := lift (get field (py "Type")) in
  let! field_type := lift (map_type_from_sql sql_type) in
  let! hive := lift (get field (py "Hive")) in
  let! _ :=
    assign imported_field "required"
      (set_required (Some (if truthy hive then true else false))) None in
  let! description := lift (get field (py "Comment")) in
  let! _ :=
    assign imported_field "description" (set_description description) None in
  let! _ :=
    if is_type field_type (py "struct") then
      let! _ := assign imported_field "type" (set_type field_type) None in
      let! sub := lift (get field (py "Fields")) in
      let! fields := import_record_fields fuel sub in
      assign imported_field "fields" (set_fields (Some fields)) (Some fields)
    else if is_type field_type (py "array") then
      let! _ := assign imported_field "type" (set_type field_type) None in
      let! sub := lift (get field (py "Items")) in
      let! items := import_array_field fuel sub in
      assign imported_field "items" (set_items (Some items)) (Some items)
    else assign imported_field "type" (set_type field_type) None in
  let! name := lift (get field (py "Name")) in
  store imported_fields name imported_field.

(** the object an event writes to *)
Definition writes (e : event) : option ref :=
  match e with
  | Created _ => None
  | Assigned r _ _ => Some r
  | Stored m _ _ => Some m
  end.

(** the object an event stores in another object *)
Definition links (e : event) : option ref :=
  match e with
  | Created _ => None
  | Assigned _ _ value => value
  | Stored _ _ r => Some r
  end.

(** No object is written once another object holds it: an event that
    writes to [r] never comes after an event that stored [r]. *)
Definition sealed (history : list event) : Prop :=
  forall i j e e' r,
    history !! i = Some e -> history !! j = Some e' -> (i < j)%nat ->
    links e = Some r -> writes e' <> Some r.

(** The object [r] of the store is the field [f]: its attributes are
    those of [f], and the objects they refer to are the mapping or the
    field that [f] has there. *)
Fixpoint holds (objs : list object) (r : ref) (f : Field) {struct f} : Prop :=
  match f with
  | mkField t q d fs it =>
      exists rf ri,
        objs !! r = Some (FieldObject t q d rf ri)
        /\ match fs with
           | Unset => rf = None
           | Mapping m =>
               exists rm es,
                 rf = Some rm /\ objs !! rm = Some (DictObject es)
                 /\ (fix each (es : list (pyval * ref)) (m : list (pyval * Field))
                       {struct m} : Prop :=
                       match m, es with
                       | [], [] => True
                       | (k, g) :: m', (k', rg) :: es' =>
                           k' = k /\ holds objs rg g /\ each es' m'
                       | _, _ => False
                       end) es m
           | Single g => exists rg, rf = Some rg /\ holds objs rg g
           end
        /\ match it with
           | None => ri = None
           | Some g => exists rg, ri = Some rg /\ holds objs rg g
           end
  end.

(** the entries of a dictionary object are the entries of [m] *)
Definition holds_entries (objs : list object) (es : list (pyval * ref))
    (m : list (pyval * Field)) : Prop :=
  Forall2 (fun kr kf => fst kr = fst kf /\ holds objs (snd kr) (snd kf)) es m.

(** the object [r] of the store is the mapping [m] *)
Definition holds_mapping (objs : list object) (r : ref) (m : list (pyval * Field)) : Prop :=
  exists es, objs !! r = Some (DictObject es) /\ holds_entries objs es m.

(** [c], run in a state that satisfies [P], leaves a state that satisfies
    [Q] with the value returned, or [E] with the exception raised *)
Definition triple {A : Type} (P : state -> Prop) (c : M A)
    (Q : A -> state -> Prop) (E : exn -> state -> Prop) : Prop :=
  forall s s' r, P s -> c s = (s', r) ->
    match r with
    | Ok a => Q a s'
    | Raise e => E e s'
    end.

(** some event of the history stored [r] in another object *)
Definition linked (history : list event) (r : ref) : Prop :=
  exists e, In e history /\ links e = Some r.

(** The state of a run in which the objects [open] are under
    construction: the history is sealed, it stores objects of the store
    only, and none of the objects under construction is stored yet. *)
Definition building (open : list ref) (s : state) : Prop :=
  sealed (events s)
  /\ List.NoDup open
  /\ (forall r, linked (events s) r -> (r < length (objects s))%nat)
  /\ (forall r, In r open -> (r < length (objects s))%nat /\ ~ linked (events s) r).

(** [objs2] has the objects of [objs] from the position [lo] on *)
Definition agree (lo : nat) (objs objs2 : list object) : Prop :=
  forall i, (lo <= i)%nat -> (i < length objs)%nat -> objs2 !! i = objs !! i.

End Objects.

(** A call on objects does what the call on values does.  [run] leaves
    the objects that were there as they were, and it ends with the
    exception of [value], or else it returns the first object it
    created, which stands for the result of [value] in every store that
    has the objects created by the call. *)
Definition returns_value {A : Type} (run : Objects.M ref) (value : res A)
    (stands : list Objects.object -> ref -> A -> Prop) : Prop :=
  forall s s' r, run s = (s', r) ->
    (length (Objects.objects s) <= length (Objects.objects s'))%nat
    /\ (forall i, (i < length (Objects.objects s))%nat ->
          Objects.objects s' !! i = Objects.objects s !! i)
    /\ match r with
       | Ok x =>
           x = length (Objects.objects s)
           /\ (x < length (Objects.objects s'))%nat
           /\ exists a, value = Ok a
                /\ forall objs2, Objects.agree x (Objects.objects s') objs2 ->
                     stands objs2 x a
       | Raise e => value = Raise e
       end.

(** * Properties *)

(** ** Strings *)

Lemma str_eqb_eq (a b : pystr) : str_eqb a b = true <-> a = b.
Proof.
  unfold str_eqb. rewrite String.eqb_eq. split.
  - intros H.
    rewrite <- (list_ascii_of_string_of_list_ascii a),
            <- (list_ascii_of_string_of_list_ascii b).
    now rewrite H.
  - now intros ->.
Qed.

Lemma str_eqb_refl (a : pystr) : str_eqb a a = true.
Proof. now apply str_eqb_eq. Qed.

Lemma str_eqb_neq (a b : pystr) : str_eqb a b = false <-> a <> b.
Proof.
  rewrite <- str_eqb_eq. destruct (str_eqb a b); split; congruence.
Qed.

Lemma startswith_cons (c d : ascii) (s p : pystr) :
  startswith (d :: s) (c :: p) = true <-> c = d /\ startswith s p = true.
Proof.
  cbn [startswith]. now rewrite andb_true_iff, Ascii.eqb_eq.
Qed.

Lemma startswith_nil (c : ascii) (p : pystr) : startswith [] (c :: p) = false.
Proof. reflexivity. Qed.

Lemma startswith_app (s t p : pystr) :
  startswith s p = true -> startswith (s ++ t) p = true.
Proof.
  revert s. induction p as [|c p IH]; intros s H; [reflexivity|].
  destruct s as [|d s]; [discriminate H|].
  simpl app. rewrite startswith_cons in *. destruct H as [-> H]. auto.
Qed.

Lemma startswith_app_inv (s t p : pystr) :
  startswith (s ++ t) p = true ->
  startswith s p = true \/ startswith p s = true.
Proof.
  revert s. induction p as [|c p IH]; intros s H; [now left|].
  destruct s as [|d s]; [now right|].
  simpl app in H. rewrite !startswith_cons in *. destruct H as [-> H].
  destruct (IH _ H) as [H'|H']; [left|right]; auto.
Qed.

Lemma startswith_trans (q s p : pystr) :
  startswith s p = true -> startswith q s = true -> startswith q p = true.
Proof.
  revert q s. induction p as [|c p IH]; intros q s H1 H2; [reflexivity|].
  destruct s as [|d s]; [discriminate H1|].
  destruct q as [|e q]; [discriminate H2|].
  rewrite !startswith_cons in *. destruct H1 as [-> H1], H2 as [-> H2]. eauto.
Qed.

Lemma startswith_spec (s p : pystr) :
  startswith s p = true <-> exists t, s = p ++ t.
Proof.
  revert s. induction p as [|c p IH]; intros s.
  - split; [eexists; reflexivity|easy].
  - destruct s as [|d s].
    + split; [easy|]. intros [t Ht]. discriminate.
    + rewrite startswith_cons, IH. split.
      * intros [-> [t ->]]. eauto.
      * intros [t Ht]. injection Ht as -> ->. eauto.
Qed.

Lemma lower_app (s t : pystr) : lower (s ++ t) = lower s ++ lower t.
Proof. apply List.map_app. Qed.

(** ** The type-name mapper *)

Module MapperFacts.
Import MapperSpec.

Lemma first_match_found tbl s canonical :
  first_match tbl s = Some canonical ->
  exists p, In (p, canonical) tbl /\ prefix_ci p s = true.
Proof.
  induction tbl as [|[p c] tbl IH]; simpl; [easy|].
  destruct (prefix_ci p s) eqn:E.
  - intros [= ->]. eauto.
  - intros H. destruct (IH H) as (q & Hq & Hs). eauto.
Qed.

Lemma first_match_app tbl s t canonical :
  ordered_apart tbl = true ->
  first_match tbl s = Some canonical ->
  first_match tbl (s ++ t) = Some canonical.
Proof.
  induction tbl as [|[p c] tbl IH]; [easy|].
  cbn [ordered_apart first_match].
  rewrite andb_true_iff. intros [Hp Htbl].
  destruct (prefix_ci p s) eqn:E, (prefix_ci p (s ++ t)) eqn:E'; auto;
    unfold prefix_ci in E, E'; rewrite lower_app in E'.
  - now rewrite (startswith_app _ _ _ E) in E'.
  - intros H. exfalso.
    apply startswith_app_inv in E' as [E'|E']; [congruence|].
    destruct (first_match_found _ _ _ H) as (q & Hq & Hs).
    rewrite forallb_forall in Hp. specialize (Hp _ Hq). simpl in Hp.
    unfold prefix_ci in Hs.
    rewrite (startswith_trans _ _ _ Hs E') in Hp. discriminate.
Qed.

Lemma first_match_complete tbl s p canonical :
  In (p, canonical) tbl -> prefix_ci p s = true -> first_match tbl s <> None.
Proof.
  induction tbl as [|[q c] tbl IH]; [easy|].
  cbn [first_match]. intros [[= -> ->]|Hin] Hp.
  - now rewrite Hp.
  - destruct (prefix_ci q s); [easy|auto].
Qed.

Lemma table_ordered_apart : ordered_apart table = true.
Proof. vm_compute. reflexivity. Qed.

(** the chain of tests of the source, read as a walk down the table *)
Lemma map_type_from_sql_first_match (s : pystr) :
  map_type_from_sql (PStr s) =
  Ok (Some (match first_match table s with
            | Some canonical => canonical
            | None => py "variant"
            end)).
Proof.
  unfold map_type_from_sql, table, first_match, prefix_ci.
  repeat match goal with
         | |- context [lower (py ?x)] => change (lower (py x)) with (py x)
         end.
  repeat (destruct (startswith (lower s) _); [reflexivity|]).
  reflexivity.
Qed.

End MapperFacts.

(** C5: [map_type_from_sql] is the mapper of the design document: on a
    string it answers with the canonical name of the first prefix of the
    ordered table that matches with letter case ignored ([bigint] giving
    [long]), with [variant] when none matches, the empty string included;
    an absent input stays absent. *)
Theorem map_type_from_sql_is_TypeNameMapper (input : option pystr) :
  map_type_from_sql (of_option input) = Ok (MapperSpec.TypeNameMapper input)
  /\ MapperSpec.TypeNameMapper (Some []) = Some (py "variant")
  /\ MapperSpec.TypeNameMapper (Some (py "BigInt(20)")) = Some (py "long").
Proof.
  split; [|split; reflexivity].
  destruct input as [s|]; [|reflexivity].
  cbn [of_option]. rewrite MapperFacts.map_type_from_sql_first_match.
  unfold MapperSpec.TypeNameMapper.
  now destruct (MapperSpec.first_match MapperSpec.table s).
Qed.

(** C9: for a string with a recognised prefix the mapper returns a
    canonical name, the one the table gives for that prefix, and it
    returns the same name when a parenthesised length or precision is
    appended. *)
Theorem map_type_from_sql_suffix_stable (s suffix : pystr) :
  MapperSpec.recognized s ->
  exists p canonical,
    In (p, canonical) MapperSpec.table
    /\ MapperSpec.prefix_ci p s = true
    /\ map_type_from_sql (PStr s) = Ok (Some canonical)
    /\ map_type_from_sql (PStr (s ++ py "(" ++ suffix ++ py ")")) =
       Ok (Some canonical).
Proof.
  intros (p0 & c0 & Hin & Hp).
  rewrite !MapperFacts.map_type_from_sql_first_match.
  destruct (MapperSpec.first_match MapperSpec.table s) as [c|] eqn:E.
  - destruct (MapperFacts.first_match_found _ _ _ E) as (p & Hpc & Hps).
    exists p, c. split; [exact Hpc|]. split; [exact Hps|]. split; [reflexivity|].
    now rewrite (MapperFacts.first_match_app _ _ _ _
                   MapperFacts.table_ordered_apart E).
  - exfalso. exact (MapperFacts.first_match_complete _ _ _ _ Hin Hp E).
Qed.

(** ** The decoder never runs out of fuel *)

Lemma raise_retype {A B : Type} (e : exn) :
  @Raise A e <> Raise OutOfFuel -> @Raise B e <> Raise OutOfFuel.
Proof. intros H [= ->]. now apply H. Qed.

Module JsonFacts.
Import Json.

Lemma skip_ws_length (s : pystr) : (length (skip_ws s) <= length s)%nat.
Proof.
  induction s as [|c s IH]; cbn [skip_ws length]; [lia|].
  destruct (is_ws c); cbn [length]; lia.
Qed.

Lemma skip_ws_cons (s rest : pystr) (c : ascii) :
  skip_ws s = c :: rest -> (length rest < length s)%nat.
Proof.
  intros H. pose proof (skip_ws_length s) as Hl. rewrite H in Hl.
  cbn [length] in Hl. lia.
Qed.

Lemma scanstring_spec (s acc : pystr) :
  scanstring s acc <> Raise OutOfFuel
  /\ forall text rest, scanstring s acc = Ok (text, rest) ->
                       (length rest < length s)%nat.
Proof.
  remember (length s) as n eqn:Hn. revert s acc Hn.
  induction n as [n IHn] using lt_wf_ind. intros s acc ->.
  assert (IH : forall t, (length t < length s)%nat -> forall acc,
            scanstring t acc <> Raise OutOfFuel
            /\ forall text rest, scanstring t acc = Ok (text, rest) ->
                                 (length rest < length t)%nat).
  { intros t Ht acc'. now apply (IHn (length t)). }
  clear IHn.
  destruct s as [|c s]; cbn [scanstring]; [split; easy|].
  destruct (Ascii.eqb c dquote).
  { split; [easy|]. intros ? ? [= _ <-]. cbn [length]. lia. }
  destruct (Ascii.eqb c "\").
  { destruct s as [|e s]; [split; easy|].
    destruct (Ascii.eqb e "u").
    - destruct s as [|h1 [|h2 [|h3 [|h4 rest]]]]; try (split; easy).
      destruct (hex4 h1 h2 h3 h4); [|split; easy].
      destruct (Nat.ltb _ _); [|split; easy].
      destruct (IH rest ltac:(cbn [length]; lia) (ascii_of_nat n :: acc)) as [H1 H2].
      split; [exact H1|]. intros text r Hr. apply H2 in Hr. cbn [length]. lia.
    - destruct (unescape e); [|split; easy].
      destruct (IH s ltac:(cbn [length]; lia) (a :: acc)) as [H1 H2].
      split; [exact H1|]. intros text r Hr. apply H2 in Hr. cbn [length]. lia. }
  destruct (Nat.ltb _ _); [split; easy|].
  destruct (IH s ltac:(cbn [length]; lia) (c :: acc)) as [H1 H2].
  split; [exact H1|]. intros text r Hr. apply H2 in Hr. cbn [length]. lia.
Qed.

Lemma span_digits_length (s rest : pystr) (value value' : Z) :
  span_digits s value = (value', rest) -> (length rest <= length s)%nat.
Proof.
  revert value. induction s as [|c s IH]; intros value; cbn [span_digits].
  - intros [= _ <-]. lia.
  - destruct (is_digit c).
    + intros H. apply IH in H. cbn [length]. lia.
    + intros [= _ <-]. lia.
Qed.

Lemma scan_number_spec (s : pystr) (r : res (pyval * pystr)) :
  scan_number s = Some r ->
  r <> Raise OutOfFuel
  /\ forall v rest, r = Ok (v, rest) -> (length rest < length s)%nat.
Proof.
  unfold scan_number.
  assert (G : forall (negative : bool) (s1 : pystr),
            (length s1 <= length s)%nat ->
            match s1 with
            | [] => None
            | d :: s2 =>
                if is_digit d
                then
                  let (magnitude, rest) :=
                    if Ascii.eqb d "0" then (0, s2) else span_digits s1 0 in
                  if has_frac_or_exp rest
                  then Some (Raise NotModelled)
                  else Some (Ok (PInt (if negative then - magnitude else magnitude), rest))
                else None
            end = Some r ->
            r <> Raise OutOfFuel
            /\ forall v rest, r = Ok (v, rest) -> (length rest < length s)%nat).
  { intros negative [|d s2] Hlen; [discriminate|].
    destruct (is_digit d) eqn:Ed; [|discriminate].
    destruct (Ascii.eqb d "0").
    - destruct (has_frac_or_exp s2); intros [= <-]; split; try easy.
      intros ? ? [= _ <-]. cbn [length] in Hlen. lia.
    - destruct (span_digits (d :: s2) 0) as [magnitude rest] eqn:Es.
      cbn [span_digits] in Es. rewrite Ed in Es. apply span_digits_length in Es.
      destruct (has_frac_or_exp rest); intros [= <-]; split; try easy.
      intros ? ? [= _ <-]. cbn [length] in Hlen. lia. }
  destruct s as [|c s']; [discriminate|].
  destruct (Ascii.eqb c "-"); cbv beta iota.
  - apply (G true s'). cbn [length]. lia.
  - apply (G false (c :: s')). lia.
Qed.

Lemma startswith_length (s p : pystr) :
  startswith s p = true -> (length p <= length s)%nat.
Proof.
  intros H. apply startswith_spec in H as [t ->]. rewrite length_app. lia.
Qed.

(** With fuel above twice the length of the text, no parser of the
    decoder runs dry, and each one consumes something. *)
Lemma parsers_spec (fuel : nat) :
  (forall s, (2 * length s < fuel)%nat ->
     parse_value fuel s <> Raise OutOfFuel
     /\ forall v rest, parse_value fuel s = Ok (v, rest) ->
                       (length rest < length s)%nat)
  /\ (forall s pairs, (2 * length s < fuel)%nat ->
        parse_members fuel s pairs <> Raise OutOfFuel
        /\ forall v rest, parse_members fuel s pairs = Ok (v, rest) ->
                          (length rest < length s)%nat)
  /\ (forall s values, (2 * length s + 1 < fuel)%nat ->
        parse_elements fuel s values <> Raise OutOfFuel
        /\ forall v rest, parse_elements fuel s values = Ok (v, rest) ->
                          (length rest < length s)%nat).
Proof.
  induction fuel as [|fuel (IHv & IHm & IHe)]; [repeat split; intros; lia|].
  split; [|split].
  - intros s Hlen. destruct s as [|c s']; cbn [parse_value]; [split; easy|].
    cbn [length] in Hlen.
    destruct (Ascii.eqb c dquote).
    { destruct (scanstring_spec s' []) as [H1 H2].
      destruct (scanstring s' []) as [[text rest]|e]; cbn [bind].
      - split; [easy|]. intros ? ? [= _ <-].
        specialize (H2 _ _ eq_refl). cbn [length]. lia.
      - split; [exact (raise_retype e H1)|easy]. }
    destruct (Ascii.eqb c "{").
    { destruct (skip_ws s') as [|d rest] eqn:Ews; [split; easy|].
      apply skip_ws_cons in Ews.
      destruct (Ascii.eqb d "}").
      { split; [easy|]. intros ? ? [= _ <-]. cbn [length]. lia. }
      destruct (Ascii.eqb d dquote); [|split; easy].
      destruct (IHm rest [] ltac:(lia)) as [H1 H2].
      split; [exact H1|]. intros v r Hr. apply H2 in Hr. cbn [length]. lia. }
    destruct (Ascii.eqb c "[").
    { destruct (skip_ws s') as [|d rest] eqn:Ews; [split; easy|].
      pose proof (skip_ws_cons _ _ _ Ews) as Hr.
      destruct (Ascii.eqb d "]").
      { split; [easy|]. intros ? ? [= _ <-]. cbn [length]. lia. }
      destruct (IHe (d :: rest) [] ltac:(cbn [length]; lia)) as [H1 H2].
      split; [exact H1|]. intros v r Hr'. apply H2 in Hr'. cbn [length] in *. lia. }
    destruct (startswith (c :: s') (py "null")) eqn:E1.
    { split; [easy|]. intros ? ? [= _ <-]. apply startswith_length in E1.
      rewrite length_skipn. cbn [py list_ascii_of_string length] in *. lia. }
    destruct (startswith (c :: s') (py "true")) eqn:E2.
    { split; [easy|]. intros ? ? [= _ <-]. apply startswith_length in E2.
      rewrite length_skipn. cbn [py list_ascii_of_string length] in *. lia. }
    destruct (startswith (c :: s') (py "false")) eqn:E3.
    { split; [easy|]. intros ? ? [= _ <-]. apply startswith_length in E3.
      rewrite length_skipn. cbn [py list_ascii_of_string length] in *. lia. }
    destruct (scan_number (c :: s')) as [r|] eqn:En.
    { apply scan_number_spec in En. exact En. }
    destruct (_ || _)%bool; split; easy.
  - intros s pairs Hlen. cbn [parse_members].
    destruct (scanstring_spec s []) as [H1 H2].
    destruct (scanstring s []) as [[key s1]|e]; cbn [bind];
      [|split; [exact (raise_retype e H1)|easy]].
    specialize (H2 _ _ eq_refl).
    destruct (skip_ws s1) as [|c s2] eqn:Ews; [split; easy|].
    apply skip_ws_cons in Ews.
    destruct (Ascii.eqb c ":"); [|split; easy].
    pose proof (skip_ws_length s2) as Hs2.
    destruct (IHv (skip_ws s2) ltac:(lia)) as [H3 H4].
    destruct (parse_value fuel (skip_ws s2)) as [[value s3]|e]; cbn [bind];
      [|split; [exact H3|easy]].
    specialize (H4 _ _ eq_refl).
    destruct (skip_ws s3) as [|d s4] eqn:Ews3; [split; easy|].
    apply skip_ws_cons in Ews3.
    destruct (Ascii.eqb d "}").
    { split; [easy|]. intros ? ? [= _ <-]. lia. }
    destruct (Ascii.eqb d ","); [|split; easy].
    destruct (skip_ws s4) as [|q s5] eqn:Ews4; [split; easy|].
    apply skip_ws_cons in Ews4.
    destruct (Ascii.eqb q dquote); [|split; easy].
    destruct (IHm s5 (dict_set pairs key value) ltac:(lia)) as [H5 H6].
    split; [exact H5|]. intros v r Hr. apply H6 in Hr. lia.
  - intros s values Hlen. cbn [parse_elements].
    destruct (IHv s ltac:(lia)) as [H1 H2].
    destruct (parse_value fuel s) as [[value s1]|e]; cbn [bind];
      [|split; [exact H1|easy]].
    specialize (H2 _ _ eq_refl).
    destruct (skip_ws s1) as [|d s2] eqn:Ews; [split; easy|].
    apply skip_ws_cons in Ews.
    destruct (Ascii.eqb d "]").
    { split; [easy|]. intros ? ? [= _ <-]. lia. }
    destruct (Ascii.eqb d ","); [|split; easy].
    pose proof (skip_ws_length s2) as Hs2.
    destruct (IHe (skip_ws s2) (value :: values) ltac:(lia)) as [H3 H4].
    split; [exact H3|]. intros v r Hr. apply H4 in Hr. lia.
Qed.

(** [json.loads] never ends for want of fuel. *)
Lemma loads_not_out_of_fuel (s : pystr) : loads s <> Raise OutOfFuel.
Proof.
  unfold loads. pose proof (skip_ws_length s) as Hl.
  destruct (parsers_spec (S (2 * length s))) as (Hv & _ & _).
  destruct (Hv (skip_ws s) ltac:(lia)) as [H _].
  destruct (parse_value _ _) as [[obj rest]|e]; cbn [bind];
    [|exact (raise_retype e H)].
  now destruct (skip_ws rest).
Qed.

End JsonFacts.

(** ** Results *)

Lemma bind_ok {A B : Type} (m : res A) (k : A -> res B) (b : B) :
  bind m k = Ok b <-> exists a, m = Ok a /\ k a = Ok b.
Proof.
  destruct m as [a|e]; simpl; split.
  - eauto.
  - now intros (a' & [= ->] & H).
  - discriminate.
  - now intros (a' & [=] & _).
Qed.

Ltac bind_inv H :=
  let a := fresh "a" in
  let E := fresh "E" in
  apply bind_ok in H as (a & E & H).

Lemma for_each_ext {A S : Type} (l : list A) (f g : S -> A -> res S) (acc : S) :
  (forall acc a, f acc a = g acc a) -> for_each l f acc = for_each l g acc.
Proof.
  intros H. revert acc. induction l as [|a l IH]; intros acc; simpl; [easy|].
  rewrite H. destruct (g acc a); simpl; auto.
Qed.

Lemma for_each_invariant {A S : Type} (P : S -> Prop) (l : list A)
    (body : S -> A -> res S) (acc r : S) :
  (forall acc a acc', In a l -> P acc -> body acc a = Ok acc' -> P acc') ->
  P acc -> for_each l body acc = Ok r -> P r.
Proof.
  revert acc. induction l as [|a l IH]; intros acc Hbody Hacc; simpl.
  - now intros [= <-].
  - intros H. bind_inv H. apply (IH a0); auto.
    + intros ? ? ? ?. apply Hbody. now right.
    + apply (Hbody acc a); auto. now left.
Qed.

Lemma for_each_stable {A S : Type} (l : list A) (f g : S -> A -> res S)
    (acc : S) (r : res S) :
  (forall acc a x, f acc a = x -> x <> Raise OutOfFuel -> g acc a = x) ->
  for_each l f acc = r -> r <> Raise OutOfFuel -> for_each l g acc = r.
Proof.
  intros H. revert acc. induction l as [|a l IH]; intros acc; simpl; [easy|].
  destruct (f acc a) as [acc'|e] eqn:E; simpl; intros Hr Hne.
  - rewrite (H _ _ _ E) by easy. simpl. auto.
  - rewrite (H _ _ _ E) by (subst; exact Hne). simpl. auto.
Qed.

(** ** The importer, one field at a time *)

Lemma import_record_fields_unfold (fuel : nat) (record_fields : pyval) :
  import_record_fields (S fuel) record_fields =
  let* l := iterate record_fields in
  for_each l (fun imported_fields field =>
    let* kf := import_record_field fuel field in
    setitem imported_fields (fst kf) (snd kf)) [].
Proof.
  cbn [import_record_fields]. destruct (iterate record_fields) as [l|e]; [|easy].
  cbn [bind]. apply for_each_ext. intros acc field.
  unfold import_record_field.
  repeat match goal with
         | |- context [bind ?m _] =>
             lazymatch m with
             | bind _ _ => fail
             | _ => destruct m; cbn [bind fst snd]; try reflexivity
             end
         | |- context [if ?b then _ else _] =>
             lazymatch b with
             | truthy _ => fail
             | _ => destruct b; cbn [bind fst snd]; try reflexivity
             end
         end.
Qed.

Lemma bind_stable {A B : Type} (m m' : res A) (k k' : A -> res B) (r : res B) :
  (m <> Raise OutOfFuel -> m' = m) ->
  (forall a x, k a = x -> x <> Raise OutOfFuel -> k' a = x) ->
  bind m k = r -> r <> Raise OutOfFuel -> bind m' k' = r.
Proof.
  intros Hm Hk. destruct m as [a|e]; simpl; intros Hr Hne.
  - rewrite Hm by easy. simpl. eauto.
  - subst r. rewrite Hm by (intros [= ->]; now apply Hne). now simpl.
Qed.

Lemma import_array_field_unfold (fuel : nat) (array_field : pyval) :
  import_array_field (S fuel) array_field =
  let* sql_type := get array_field (py "Type") in
  let* field_type := map_type_from_sql sql_type in
  if is_type field_type (py "struct") then
    let* sub := get array_field (py "Fields") in
    let* fields := import_record_fields fuel sub in
    Ok (mkField field_type None PNone (Mapping fields) None)
  else if is_type field_type (py "array") then
    let* sub := get array_field (py "Items") in
    let* fields := import_array_field fuel sub in
    Ok (mkField field_type None PNone (Single fields) None)
  else Ok (mkField field_type None PNone Unset None).
Proof. reflexivity. Qed.

(** More fuel never changes an outcome other than [OutOfFuel]. *)
Lemma fuel_stable (fuel : nat) :
  (forall v r fuel', import_record_fields fuel v = r -> r <> Raise OutOfFuel ->
     (fuel <= fuel')%nat -> import_record_fields fuel' v = r)
  /\ (forall v r fuel', import_array_field fuel v = r -> r <> Raise OutOfFuel ->
     (fuel <= fuel')%nat -> import_array_field fuel' v = r).
Proof.
  induction fuel as [|fuel [IHr IHa]].
  - split; intros v r fuel' H Hne; simpl in H; congruence.
  - assert (Hfield : forall fuel' field x, (fuel <= fuel')%nat ->
              import_record_field fuel field = x -> x <> Raise OutOfFuel ->
              import_record_field fuel' field = x).
    { intros fuel' field x Hle. unfold import_record_field.
      repeat (apply bind_stable; [reflexivity|intros ? ?]).
      apply bind_stable; [|intros ? ? <-; reflexivity].
      destruct (is_type _ _); [|destruct (is_type _ _)]; [| |easy].
      - intros Hne. eapply bind_stable; [reflexivity| |reflexivity|exact Hne].
        intros sub y. apply bind_stable; [|intros ? ? <-; reflexivity].
        intros Hne'. now apply IHr.
      - intros Hne. eapply bind_stable; [reflexivity| |reflexivity|exact Hne].
        intros sub y. apply bind_stable; [|intros ? ? <-; reflexivity].
        intros Hne'. now apply IHa. }
    split; intros v r [|fuel'] H Hne Hle; try lia.
    + rewrite import_record_fields_unfold in *.
      revert H Hne. apply bind_stable; [reflexivity|]. intros l x.
      apply for_each_stable. intros acc field y.
      apply bind_stable; [|intros ? ? <-; reflexivity].
      intros Hne. apply Hfield; [lia|reflexivity|exact Hne].
    + rewrite import_array_field_unfold in *.
      revert H Hne. repeat (apply bind_stable; [reflexivity|intros ? ?]).
      destruct (is_type _ _); [|destruct (is_type _ _)]; [| |easy].
      * apply bind_stable; [reflexivity|]. intros sub y.
        apply bind_stable; [|intros ? ? <-; reflexivity].
        intros Hne'. apply IHr; [reflexivity|exact Hne'|lia].
      * apply bind_stable; [reflexivity|]. intros sub y.
        apply bind_stable; [|intros ? ? <-; reflexivity].
        intros Hne'. apply IHa; [reflexivity|exact Hne'|lia].
Qed.

Lemma bind_not_raise {A B : Type} (m : res A) (k : A -> res B) (e : exn) :
  m <> Raise e -> (forall a, m = Ok a -> k a <> Raise e) -> bind m k <> Raise e.
Proof.
  destruct m as [a|e']; simpl; intros Hm Hk; [now apply Hk|].
  intros [= ->]. now apply Hm.
Qed.

Lemma for_each_not_raise {A S : Type} (l : list A) (body : S -> A -> res S)
    (acc : S) (e : exn) :
  (forall acc a, In a l -> body acc a <> Raise e) -> for_each l body acc <> Raise e.
Proof.
  revert acc. induction l as [|a l IH]; intros acc H; simpl; [easy|].
  apply bind_not_raise.
  - apply H. now left.
  - intros acc' _. apply IH. intros ? ? ?. apply H. now right.
Qed.

Lemma depth_in_list (x : pyval) (l : list pyval) :
  In x l -> (depth x < depth (PList l))%nat.
Proof.
  intros H. cbn [depth].
  assert (G : Forall (fun k => (k <= list_max (List.map depth l))%nat)
                (List.map depth l)) by now apply list_max_le.
  rewrite List.Forall_forall in G. specialize (G (depth x) (in_map depth l x H)). lia.
Qed.

Lemma dict_get_in {V : Type} (d : dict V) (k : pystr) (v : V) :
  dict_get d k = Some v -> exists k', In (k', v) d.
Proof.
  induction d as [|[k' v'] d IH]; simpl; [easy|].
  destruct (str_eqb k' k).
  - intros [= ->]. eauto.
  - intros H. destruct (IH H) as [k'' Hk]. eauto.
Qed.

Lemma depth_dict_get (d : dict pyval) (k : pystr) (v : pyval) :
  dict_get d k = Some v -> (depth v < depth (PDict d))%nat.
Proof.
  intros H. apply dict_get_in in H as [k' H]. cbn [depth].
  assert (G : Forall (fun n => (n <= list_max (List.map (fun kv => depth (snd kv)) d))%nat)
                (List.map (fun kv => depth (snd kv)) d)) by now apply list_max_le.
  rewrite List.Forall_forall in G.
  specialize (G _ (in_map (fun kv => depth (snd kv)) d (k', v) H)).
  simpl in G. lia.
Qed.

Lemma depth_get (field sub : pyval) (k : pystr) :
  get field k = Ok sub -> (depth sub < depth field)%nat.
Proof.
  destruct field; simpl; try discriminate.
  destruct (dict_get d k) eqn:E.
  - intros [= <-]. now apply depth_dict_get in E.
  - intros [= <-]. simpl. lia.
Qed.

Lemma get_not_out_of_fuel (field : pyval) (k : pystr) :
  get field k <> Raise OutOfFuel.
Proof. destruct field; simpl; try easy. now destruct (dict_get d k). Qed.

Lemma map_type_from_sql_not_out_of_fuel (v : pyval) :
  map_type_from_sql v <> Raise OutOfFuel.
Proof. destruct v; simpl; easy. Qed.

Lemma setitem_not_out_of_fuel {V : Type} (m : list (pyval * V)) k v :
  setitem m k v <> Raise OutOfFuel.
Proof. unfold setitem. now destruct (hashable k). Qed.

(** Fuel above the nesting depth of the input is never exhausted. *)
Lemma enough_fuel (fuel : nat) :
  (forall v, (depth v < fuel)%nat -> import_record_fields fuel v <> Raise OutOfFuel)
  /\ (forall v, (depth v < fuel)%nat -> import_array_field fuel v <> Raise OutOfFuel).
Proof.
  induction fuel as [|fuel [IHr IHa]]; [split; intros; lia|].
  assert (Hfield : forall field, (depth field <= fuel)%nat ->
            import_record_field fuel field <> Raise OutOfFuel).
  { intros field Hd. unfold import_record_field.
    apply bind_not_raise; [apply get_not_out_of_fuel|intros sql_type _].
    apply bind_not_raise; [apply map_type_from_sql_not_out_of_fuel|intros ft _].
    apply bind_not_raise; [apply get_not_out_of_fuel|intros hive _].
    apply bind_not_raise; [apply get_not_out_of_fuel|intros descr _].
    apply bind_not_raise.
    - destruct (is_type _ _); [|destruct (is_type _ _)]; [| |easy].
      + apply bind_not_raise; [apply get_not_out_of_fuel|intros sub Hsub].
        apply depth_get in Hsub.
        apply bind_not_raise; [apply IHr; lia|easy].
      + apply bind_not_raise; [apply get_not_out_of_fuel|intros sub Hsub].
        apply depth_get in Hsub.
        apply bind_not_raise; [apply IHa; lia|easy].
    - intros f _. apply bind_not_raise; [apply get_not_out_of_fuel|easy]. }
  split; intros v Hd.
  - rewrite import_record_fields_unfold.
    apply bind_not_raise; [now destruct v|]. intros l Hl.
    apply for_each_not_raise. intros acc field Hin.
    apply bind_not_raise; [|intros; apply setitem_not_out_of_fuel].
    apply Hfield. destruct v; try discriminate; injection Hl as <-.
    + apply in_map_iff in Hin as (c & <- & _). simpl. lia.
    + apply depth_in_list in Hin. lia.
    + apply in_map_iff in Hin as (c & <- & _). simpl. lia.
  - rewrite import_array_field_unfold.
    apply bind_not_raise; [apply get_not_out_of_fuel|intros sql_type _].
    apply bind_not_raise; [apply map_type_from_sql_not_out_of_fuel|intros ft _].
    destruct (is_type _ _); [|destruct (is_type _ _)]; [| |easy].
    + apply bind_not_raise; [apply get_not_out_of_fuel|intros sub Hsub].
      apply depth_get in Hsub.
      apply bind_not_raise; [apply IHr; lia|easy].
    + apply bind_not_raise; [apply get_not_out_of_fuel|intros sub Hsub].
      apply depth_get in Hsub.
      apply bind_not_raise; [apply IHa; lia|easy].
Qed.

Lemma import_record_field_stable (fuel fuel' : nat) (field : pyval) x :
  (fuel <= fuel')%nat -> import_record_field fuel field = x ->
  x <> Raise OutOfFuel -> import_record_field fuel' field = x.
Proof.
  intros Hle. destruct (fuel_stable fuel) as [IHr IHa].
  unfold import_record_field.
  repeat (apply bind_stable; [reflexivity|intros ? ?]).
  apply bind_stable; [|intros ? ? <-; reflexivity].
  destruct (is_type _ _); [|destruct (is_type _ _)]; [| |easy].
  - intros Hne. eapply bind_stable; [reflexivity| |reflexivity|exact Hne].
    intros sub y. apply bind_stable; [|intros ? ? <-; reflexivity].
    intros Hne'. now apply IHr.
  - intros Hne. eapply bind_stable; [reflexivity| |reflexivity|exact Hne].
    intros sub y. apply bind_stable; [|intros ? ? <-; reflexivity].
    intros Hne'. now apply IHa.
Qed.

Lemma import_record_field_enough (fuel : nat) (field : pyval) :
  (depth field <= fuel)%nat -> import_record_field fuel field <> Raise OutOfFuel.
Proof.
  intros Hd. destruct (enough_fuel fuel) as [IHr IHa].
  unfold import_record_field.
  apply bind_not_raise; [apply get_not_out_of_fuel|intros sql_type _].
  apply bind_not_raise; [apply map_type_from_sql_not_out_of_fuel|intros ft _].
  apply bind_not_raise; [apply get_not_out_of_fuel|intros hive _].
  apply bind_not_raise; [apply get_not_out_of_fuel|intros descr _].
  apply bind_not_raise.
  - destruct (is_type _ _); [|destruct (is_type _ _)]; [| |easy].
    + apply bind_not_raise; [apply get_not_out_of_fuel|intros sub Hsub].
      apply depth_get in Hsub.
      apply bind_not_raise; [apply IHr; lia|easy].
    + apply bind_not_raise; [apply get_not_out_of_fuel|intros sub Hsub].
      apply depth_get in Hsub.
      apply bind_not_raise; [apply IHa; lia|easy].
  - intros f _. apply bind_not_raise; [apply get_not_out_of_fuel|easy].
Qed.

(** The outcome for one field does not depend on the fuel, once there is
    enough of it. *)
Lemma import_record_field_fuel (fuel fuel' : nat) (field : pyval) :
  (depth field <= fuel)%nat -> (depth field <= fuel')%nat ->
  import_record_field fuel field = import_record_field fuel' field.
Proof.
  intros H H'.
  destruct (Nat.le_ge_cases fuel fuel') as [Hle|Hle].
  - symmetry. eapply import_record_field_stable; eauto.
    now apply import_record_field_enough.
  - eapply import_record_field_stable; eauto.
    now apply import_record_field_enough.
Qed.

(** ** Dictionaries and the output mapping *)

Lemma dict_get_set_eq {V : Type} (d : dict V) (k : pystr) (v : V) :
  dict_get (dict_set d k v) k = Some v.
Proof.
  induction d as [|[k' v'] d IH]; simpl.
  - now rewrite str_eqb_refl.
  - destruct (str_eqb k' k) eqn:E; simpl; now rewrite E.
Qed.

Lemma dict_get_set_ne {V : Type} (d : dict V) (k k' : pystr) (v : V) :
  k <> k' -> dict_get (dict_set d k v) k' = dict_get d k'.
Proof.
  intros Hne. induction d as [|[k0 v0] d IH]; simpl.
  - apply str_eqb_neq in Hne. now rewrite Hne.
  - destruct (str_eqb k0 k) eqn:E; simpl.
    + apply str_eqb_eq in E. subst k0.
      apply str_eqb_neq in Hne. now rewrite Hne.
    + destruct (str_eqb k0 k'); auto.
Qed.

Lemma in_store_key {V : Type} (m : list (pyval * V)) (k k0 : pyval) (v v0 : V) :
  In (k, v) (store_key m k0 v0) -> v = v0 \/ In (k, v) m.
Proof.
  induction m as [|[k' v'] m IH]; simpl.
  - intros [[= -> ->]|[]]. now left.
  - destruct (key_eqb k' k0); simpl.
    + intros [[= -> ->]|H]; auto.
    + intros [[= -> ->]|H]; auto. destruct (IH H); auto.
Qed.

Lemma lookup_store_key_eq {V : Type} (m : list (pyval * V)) (k : pystr) (v : V) :
  lookup_key (store_key m (PStr k) v) (PStr k) = Some v.
Proof.
  induction m as [|[k' v'] m IH]; simpl.
  - now rewrite str_eqb_refl.
  - destruct (key_eqb k' (PStr k)) eqn:E; simpl; now rewrite E.
Qed.

Lemma key_eqb_str (a : pyval) (j k : pystr) :
  key_eqb a (PStr j) = true -> key_eqb a (PStr k) = true -> j = k.
Proof.
  destruct a; simpl; try discriminate.
  rewrite !str_eqb_eq. congruence.
Qed.

Lemma lookup_store_key_ne {V : Type} (m : list (pyval * V)) (j k : pystr) (v : V) :
  j <> k -> lookup_key (store_key m (PStr j) v) (PStr k) = lookup_key m (PStr k).
Proof.
  intros Hne. induction m as [|[k' v'] m IH]; simpl.
  - apply str_eqb_neq in Hne. now rewrite Hne.
  - destruct (key_eqb k' (PStr j)) eqn:E; simpl.
    + destruct (key_eqb k' (PStr k)) eqn:E'; [|easy].
      exfalso. apply Hne. eapply key_eqb_str; eauto.
    + destruct (key_eqb k' (PStr k)); auto.
Qed.

#[local] Arguments import_record_fields : simpl never.
#[local] Arguments import_array_field : simpl never.

(** ** The store *)

Lemma format_column_record (column : ref) (h : heap) (d : dict pyval) :
  h !! column = Some d ->
  format_column column h =
  let* d' := format_record d in Ok (<[column := d']> h).
Proof.
  intros H. pose proof (lookup_lt_Some _ _ _ H) as Hlt.
  unfold format_column, format_record, deref. rewrite H.
  destruct (subscript (PDict d) (py "Type")) as [[| | |type| |]|e]; cbn [bind]; try easy.
  assert (Hassign : forall k1 v1 k2 v2,
            assign (assign h column k1 v1) column k2 v2 =
            <[column := dict_set (dict_set d k1 v1) k2 v2]> h).
  { intros. unfold assign. rewrite H.
    rewrite list_lookup_insert_eq by exact Hlt.
    apply list_insert_insert_eq. }
  destruct (startswith type (py "array<")).
  { destruct (generate_sub_fields type) as [parsed|]; cbn [bind]; [|easy].
    destruct (subscript parsed (py "Items")); cbn [bind]; [|easy].
    now rewrite Hassign. }
  destruct (startswith type (py "struct<")).
  { destruct (generate_sub_fields type) as [parsed|]; cbn [bind]; [|easy].
    destruct (subscript parsed (py "Fields")); cbn [bind]; [|easy].
    now rewrite Hassign. }
  cbn [bind]. now rewrite list_insert_id.
Qed.

Lemma lookup_middle (pre post : heap) (d : dict pyval) :
  (pre ++ d :: post) !! length pre = Some d.
Proof. now apply list_lookup_middle. Qed.

Lemma insert_middle (pre post : heap) (d d' : dict pyval) :
  <[length pre := d']> (pre ++ d :: post) = pre ++ d' :: post.
Proof.
  replace (length pre) with (length pre + 0)%nat by lia.
  now rewrite insert_app_r.
Qed.

Lemma format_columns_fresh (post pre : heap) (h' : heap) :
  format_columns (seq (length pre) (length post)) (pre ++ post) = (h', Ok tt) <->
  exists post', h' = pre ++ post'
    /\ Forall2 (fun d d' => format_record d = Ok d') post post'.
Proof.
  revert pre h'. induction post as [|d post IH]; intros pre h'.
  - simpl. rewrite app_nil_r. split.
    + intros [= <-]. exists []. rewrite app_nil_r. split; [easy|constructor].
    + intros (post' & -> & H). inversion H. now rewrite app_nil_r.
  - cbn [length seq format_columns].
    rewrite (format_column_record _ _ _ (lookup_middle pre post d)).
    destruct (format_record d) as [d'|e] eqn:E; cbn [bind].
    + rewrite insert_middle.
      replace (pre ++ d' :: post) with ((pre ++ [d']) ++ post)
        by now rewrite <- app_assoc.
      replace (S (length pre)) with (length (pre ++ [d']))
        by (rewrite length_app; simpl; lia).
      rewrite IH. split.
      * intros (post' & -> & H). exists (d' :: post').
        rewrite <- app_assoc. split; [easy|]. now constructor.
      * intros (post' & -> & H). inversion H as [|? d'' ? post'' Hd Hrest]; subst.
        assert (d'' = d') by congruence. subst d''.
        exists post''. rewrite <- app_assoc. split; easy.
    + split; [discriminate|].
      intros (post' & _ & H). inversion H; subst. congruence.
Qed.

Lemma snapshot_fresh (post pre : heap) :
  List.map (deref (pre ++ post)) (seq (length pre) (length post)) =
  List.map PDict post.
Proof.
  revert pre. induction post as [|d post IH]; intros pre; [reflexivity|].
  cbn [length seq List.map]. f_equal.
  - unfold deref. now rewrite lookup_middle.
  - replace (pre ++ d :: post) with ((pre ++ [d]) ++ post)
      by now rewrite <- app_assoc.
    replace (S (length pre)) with (length (pre ++ [d]))
      by (rewrite length_app; simpl; lia).
    apply IH.
Qed.

(** ** The run on a list of columns *)

Lemma for_each_store {A V : Type} (g : A -> res (pyval * V)) (l : list A)
    (acc m : list (pyval * V)) :
  for_each l (fun acc a => let* kf := g a in setitem acc (fst kf) (snd kf)) acc = Ok m <->
  exists kfs, Forall2 (fun a kf => g a = Ok kf /\ hashable (fst kf) = true) l kfs
    /\ m = store_all kfs acc.
Proof.
  revert acc. induction l as [|a l IH]; intros acc; simpl.
  - split.
    + intros [= <-]. exists []. split; [constructor|reflexivity].
    + intros (kfs & H & ->). inversion H. reflexivity.
  - split.
    + intros H. bind_inv H. bind_inv E. unfold setitem in E.
      destruct (hashable (fst a1)) eqn:Eh; [|discriminate].
      injection E as <-. apply IH in H as (kfs & H & ->).
      exists (a1 :: kfs). split; [constructor; auto|reflexivity].
    + intros (kfs & H & ->). inversion H as [|? kf ? kfs' [Hg Hh] Hrest]; subst.
      rewrite Hg. cbn [bind]. unfold setitem. rewrite Hh. cbn [bind].
      apply IH. eauto.
Qed.

Lemma format_record_frame (d d' : dict pyval) (k : pystr) :
  format_record d = Ok d' ->
  k <> py "Type" -> k <> py "Items" -> k <> py "Fields" ->
  dict_get d' k = dict_get d k.
Proof.
  unfold format_record. intros H Ht Hi Hf.
  bind_inv H. destruct a as [| | |type| |]; try discriminate.
  destruct (startswith type (py "array<")).
  { bind_inv H. bind_inv H. injection H as <-.
    rewrite !dict_get_set_ne; auto. }
  destruct (startswith type (py "struct<")).
  { bind_inv H. bind_inv H. injection H as <-.
    rewrite !dict_get_set_ne; auto. }
  now injection H as <-.
Qed.

Lemma get_dict (d : dict pyval) (k : pystr) :
  get (PDict d) k = Ok (match dict_get d k with Some v => v | None => PNone end).
Proof. simpl. now destruct (dict_get d k). Qed.

(** The entry built from a formatted column record: its key is the
    column's name, its flag and description are the column's. *)
Lemma import_record_field_column (c : RawColumn) (d' : dict pyval) (fuel : nat) kf :
  format_record (column_record c) = Ok d' ->
  import_record_field fuel (PDict d') = Ok kf ->
  fst kf = PStr (Name c)
  /\ required (snd kf) = Some (isPartitionKey c)
  /\ description (snd kf) = of_option (Comment c).
Proof.
  intros Hd H.
  assert (Hname : get (PDict d') (py "Name") = Ok (PStr (Name c))).
  { rewrite get_dict, (format_record_frame _ _ _ Hd) by easy. reflexivity. }
  assert (Hhive : get (PDict d') (py "Hive") =
                  Ok (if isPartitionKey c then PBool true else PNone)).
  { rewrite get_dict, (format_record_frame _ _ _ Hd) by easy.
    unfold column_record. destruct (isPartitionKey c); [reflexivity|].
    now destruct (Comment c). }
  assert (Hcomment : get (PDict d') (py "Comment") = Ok (of_option (Comment c))).
  { rewrite get_dict, (format_record_frame _ _ _ Hd) by easy.
    unfold column_record. destruct (isPartitionKey c), (Comment c); reflexivity. }
  unfold import_record_field in H.
  rewrite Hname, Hhive, Hcomment in H.
  bind_inv H. bind_inv H. cbn [bind] in H. bind_inv H. injection H as <-.
  cbn [fst snd]. split; [reflexivity|].
  assert (Hreq : (if truthy (if isPartitionKey c then PBool true else PNone)
                  then true else false) = isPartitionKey c)
    by now destruct (isPartitionKey c).
  rewrite Hreq in E1.
  destruct (is_type a0 (py "struct")); [|destruct (is_type a0 (py "array"))].
  - bind_inv E1. bind_inv E1. now injection E1 as <-.
  - bind_inv E1. bind_inv E1. now injection E1 as <-.
  - now injection E1 as <-.
Qed.

Lemma import_columns_single (c : RawColumn) (d' : dict pyval) (fuel : nat) kf :
  format_record (column_record c) = Ok d' ->
  import_record_field fuel (PDict d') = Ok kf ->
  (depth (PDict d') <= fuel)%nat ->
  import_columns [c] = ([d'], Ok [kf]).
Proof.
  intros Hd H Hfuel.
  destruct (import_record_field_column _ _ _ _ Hd H) as (Hk & _).
  unfold import_columns, format_schema. cbn [List.map length].
  assert (Hf : format_columns (seq 0 1) [column_record c] = ([d'], Ok tt)).
  { apply (format_columns_fresh [column_record c] [] [d']).
    exists [d']. split; [reflexivity|]. repeat constructor. exact Hd. }
  rewrite Hf. cbn [bind]. f_equal.
  unfold snapshot.
  pose proof (snapshot_fresh [d'] []) as Hs. cbn [app length] in Hs.
  rewrite Hs. cbn [List.map].
  rewrite import_record_fields_unfold. cbn [iterate bind for_each].
  rewrite (import_record_field_fuel _ fuel); [|simpl; lia|exact Hfuel].
  rewrite H. cbn [bind]. unfold setitem. rewrite Hk.
  destruct kf as [k f]. simpl in Hk. subst k. reflexivity.
Qed.

Lemma import_columns_chain (fuel : nat) (cols : list RawColumn) (post' : heap) kfs :
  Forall2 (fun d d' => format_record d = Ok d') (List.map column_record cols) post' ->
  Forall2 (fun a kf => import_record_field fuel a = Ok kf /\ hashable (fst kf) = true)
    (List.map PDict post') kfs ->
  (forall d', In d' post' -> (depth (PDict d') <= fuel)%nat) ->
  exists fs, Forall2 built cols fs
    /\ Forall2 (fun c f => required f = Some (isPartitionKey c)
                           /\ description f = of_option (Comment c)) cols fs
    /\ kfs = combine (List.map (fun c => PStr (Name c)) cols) fs.
Proof.
  revert post' kfs. induction cols as [|c cols IH]; intros post' kfs H1 H2 Hfuel.
  - inversion H1; subst. inversion H2; subst.
    exists []. repeat split; constructor.
  - inversion H1 as [|? d' ? post'' Hd Hrest]; subst.
    inversion H2 as [|? kf ? kfs' [Hkf Hh] Hrest']; subst.
    destruct (IH _ _ Hrest Hrest') as (fs & Hb & Hm & ->).
    { intros. apply Hfuel. now right. }
    destruct (import_record_field_column _ _ _ _ Hd Hkf) as (Hk & Hr & Hdesc).
    exists (snd kf :: fs). repeat split.
    + constructor; [|exact Hb]. exists [d'].
      rewrite (import_columns_single _ _ _ _ Hd Hkf) by (apply Hfuel; now left).
      destruct kf as [k f]. simpl in Hk. now subst k.
    + constructor; auto.
    + cbn [List.map combine]. destruct kf as [k f]. simpl in Hk. now subst k.
Qed.

(** The steps of a run that succeeds: every record is formatted, every
    formatted record gives an entry, the entries are stored in order. *)
Lemma import_columns_entries (cols : list RawColumn) (h : heap) m :
  import_columns cols = (h, Ok m) ->
  exists kfs fuel,
    Forall2 (fun d d' => format_record d = Ok d') (List.map column_record cols) h
    /\ Forall2 (fun a kf => import_record_field fuel a = Ok kf
                            /\ hashable (fst kf) = true) (List.map PDict h) kfs
    /\ (forall d', In d' h -> (depth (PDict d') <= fuel)%nat)
    /\ m = store_all kfs [].
Proof.
  unfold import_columns, format_schema.
  destruct (format_columns _ _) as [h' r] eqn:Ef.
  intros [= -> H]. destruct r as [[]|e]; [|discriminate]. cbn [bind] in H.
  rewrite <- (length_map column_record) in Ef.
  apply (format_columns_fresh _ [] h) in Ef as (post' & -> & Hpost).
  cbn [app] in *. cbv zeta in H. unfold snapshot in H.
  assert (Hlen : length cols = length post').
  { rewrite <- (Forall2_length _ _ _ Hpost). now rewrite length_map. }
  pose proof (snapshot_fresh post' []) as Hs. cbn [app length] in Hs.
  rewrite Hlen, Hs in H.
  rewrite import_record_fields_unfold in H. cbn [iterate bind] in H.
  apply for_each_store in H as (kfs & Hkfs & ->).
  exists kfs, (depth (PList (List.map PDict post'))).
  repeat split; auto.
  intros d' Hin. apply Nat.lt_le_incl, depth_in_list, in_map, Hin.
Qed.

(** A run that succeeds stores, column after column, the field built from
    that column alone under the column's name. *)
Lemma import_columns_inv (cols : list RawColumn) (h : heap) m :
  import_columns cols = (h, Ok m) ->
  exists fs, Forall2 built cols fs
    /\ Forall2 (fun c f => required f = Some (isPartitionKey c)
                           /\ description f = of_option (Comment c)) cols fs
    /\ m = store_all (combine (List.map (fun c => PStr (Name c)) cols) fs) [].
Proof.
  intros H.
  apply import_columns_entries in H as (kfs & fuel & Hpost & Hkfs & Hfuel & ->).
  destruct (import_columns_chain _ _ _ _ Hpost Hkfs Hfuel) as (fs & Hb & Hm & ->).
  eauto.
Qed.

(** ** The output mapping: unique keys, last write wins *)

Lemma key_eqb_str_eq (k : pyval) (s : pystr) :
  str_key k -> (key_eqb k (PStr s) = true <-> k = PStr s).
Proof.
  intros [t ->]. simpl. rewrite str_eqb_eq. split; congruence.
Qed.

Lemma store_key_keys {V : Type} (m : list (pyval * V)) (s : pystr) (v : V) :
  Forall str_key (List.map fst m) -> NoDup (List.map fst m) ->
  Forall str_key (List.map fst (store_key m (PStr s) v))
  /\ NoDup (List.map fst (store_key m (PStr s) v))
  /\ (forall k, In k (List.map fst (store_key m (PStr s) v)) <->
                k = PStr s \/ In k (List.map fst m)).
Proof.
  induction m as [|[k' v'] m IH]; cbn [List.map fst store_key]; intros Hs Hn.
  - split; [|split; [|intros k; split]].
    + constructor; [now exists s|constructor].
    + apply NoDup_singleton.
    + intros [<-|[]]. now left.
    + intros [->|[]]. now left.
  - inversion Hs as [|? ? Hk' Hs']; subst.
    apply NoDup_cons in Hn as [Hnotin Hn'].
    destruct (key_eqb k' (PStr s)) eqn:E; cbn [List.map fst].
    + apply key_eqb_str_eq in E; [|exact Hk']. subst k'.
      split; [exact Hs|split; [now apply NoDup_cons|intros k; split]]; auto.
      intros [H|H]; [subst; now left|exact H].
    + destruct (IH Hs' Hn') as (IH1 & IH2 & IH3).
      split; [|split; [|intros k; split]].
      * now constructor.
      * apply NoDup_cons. split; [|exact IH2].
        rewrite list_elem_of_In, IH3. intros [->|H].
        -- rewrite (proj2 (key_eqb_str_eq _ s Hk') eq_refl) in E. discriminate.
        -- apply Hnotin. now apply list_elem_of_In.
      * intros [<-|H]; [right; now left|]. apply IH3 in H as [H|H]; auto.
        right. now right.
      * intros [->|[<-|H]]; [right; apply IH3; now left|now left|].
        right. apply IH3. now right.
Qed.

Lemma store_all_keys {V : Type} (names : list pystr) (vs : list V)
    (m : list (pyval * V)) :
  Forall str_key (List.map fst m) -> NoDup (List.map fst m) ->
  Forall str_key (List.map fst (store_all (combine (List.map PStr names) vs) m))
  /\ NoDup (List.map fst (store_all (combine (List.map PStr names) vs) m)).
Proof.
  revert vs m. induction names as [|s names IH]; intros vs m Hs Hn; [easy|].
  destruct vs as [|v vs]; [easy|].
  cbn [List.map combine store_all fold_left fst snd].
  destruct (store_key_keys m s v Hs Hn) as (H1 & H2 & _).
  apply (IH vs _ H1 H2).
Qed.

Lemma store_all_key_set {V : Type} (names : list pystr) (vs : list V)
    (m : list (pyval * V)) (k : pyval) :
  length names = length vs ->
  Forall str_key (List.map fst m) -> NoDup (List.map fst m) ->
  In k (List.map fst (store_all (combine (List.map PStr names) vs) m)) <->
  In k (List.map fst m) \/ In k (List.map PStr names).
Proof.
  revert vs m. induction names as [|s names IH]; intros [|v vs] m Hlen Hs Hn;
    try discriminate.
  - cbn. tauto.
  - cbn [List.map combine store_all fold_left fst snd].
    fold (store_all (combine (List.map PStr names) vs) (store_key m (PStr s) v)).
    destruct (store_key_keys m s v Hs Hn) as (H1 & H2 & H3).
    rewrite IH by (auto; now injection Hlen). rewrite H3. cbn [In]. split.
    + intros [[->|H]|H]; auto.
    + intros [H|[<-|H]]; auto.
Qed.

Lemma lookup_store_all_other {V : Type} (names : list pystr) (vs : list V)
    (m : list (pyval * V)) (s : pystr) :
  ~ In s names ->
  lookup_key (store_all (combine (List.map PStr names) vs) m) (PStr s) =
  lookup_key m (PStr s).
Proof.
  revert vs m. induction names as [|n names IH]; intros vs m Hnot; [easy|].
  destruct vs as [|v vs]; [easy|].
  cbn [List.map combine store_all fold_left fst snd].
  fold (store_all (combine (List.map PStr names) vs) (store_key m (PStr n) v)).
  rewrite IH by (intros H; apply Hnot; now right).
  apply lookup_store_key_ne. intros ->. apply Hnot. now left.
Qed.

Lemma store_all_app {V : Type} (a b : list (pyval * V)) (m : list (pyval * V)) :
  store_all (a ++ b) m = store_all b (store_all a m).
Proof. apply fold_left_app. Qed.

Lemma combine_app_eq {A B : Type} (a a' : list A) (b b' : list B) :
  length a = length b ->
  combine (a ++ a') (b ++ b') = combine a b ++ combine a' b'.
Proof.
  revert b. induction a as [|x a IH]; intros [|y b]; simpl; try easy.
  intros [= H]. now rewrite IH.
Qed.

(** The entry under a column's name is the field built from the last
    column of that name. *)
Lemma import_columns_last (cols : list RawColumn) (h : heap) m
    (earlier later : list RawColumn) (c : RawColumn) :
  import_columns cols = (h, Ok m) ->
  cols = earlier ++ c :: later ->
  (forall c', In c' later -> Name c' <> Name c) ->
  exists f, built c f
    /\ lookup_key m (PStr (Name c)) = Some f
    /\ required f = Some (isPartitionKey c)
    /\ description f = of_option (Comment c).
Proof.
  intros H -> Hlater.
  apply import_columns_inv in H as (fs & Hb & Hm & ->).
  apply Forall2_app_inv_l in Hb as (fs1 & fs' & Hb1 & Hb2 & ->).
  inversion Hb2 as [|? f ? fs2 Hf Hb3]; subst.
  apply Forall2_app_inv_l in Hm as (gs1 & gs' & Hm1 & Hm2 & Heq).
  assert (Hlen : length fs1 = length gs1).
  { rewrite <- (Forall2_length _ _ _ Hb1). apply (Forall2_length _ _ _ Hm1). }
  apply app_inj_1 in Heq as [<- <-]; [|exact Hlen].
  inversion Hm2 as [|? ? ? ? [Hr Hd] _]; subst.
  exists f. repeat split; auto.
  rewrite List.map_app. cbn [List.map].
  rewrite combine_app_eq
    by (rewrite length_map; apply (Forall2_length _ _ _ Hb1)).
  rewrite store_all_app. cbn [combine].
  change (store_all ((PStr (Name c), f) :: ?l) ?m)
    with (store_all l (store_key m (PStr (Name c)) f)).
  rewrite <- (List.map_map Name PStr).
  rewrite lookup_store_all_other.
  - apply lookup_store_key_eq.
  - intros Hin. apply in_map_iff in Hin as (c' & Hn & Hin).
    now apply (Hlater c').
Qed.

(** ** Columns of scalar type *)

Lemma column_type (c : RawColumn) :
  dict_get (column_record c) (py "Type") = Some (PStr (Type_ c)).
Proof. reflexivity. Qed.

Lemma column_name (c : RawColumn) :
  get (PDict (column_record c)) (py "Name") = Ok (PStr (Name c)).
Proof. reflexivity. Qed.

Lemma column_hive (c : RawColumn) :
  get (PDict (column_record c)) (py "Hive") =
  Ok (if isPartitionKey c then PBool true else PNone).
Proof.
  rewrite get_dict. unfold column_record.
  destruct (isPartitionKey c); [reflexivity|]. now destruct (Comment c).
Qed.

Lemma column_comment (c : RawColumn) :
  get (PDict (column_record c)) (py "Comment") = Ok (of_option (Comment c)).
Proof.
  rewrite get_dict. unfold column_record.
  destruct (isPartitionKey c), (Comment c); reflexivity.
Qed.

Lemma array_bracket_maps_to_array (s : pystr) :
  startswith s (py "array<") = true ->
  map_type_from_sql (PStr s) = Ok (Some (py "array")).
Proof. intros H. apply startswith_spec in H as [r ->]. reflexivity. Qed.

Lemma struct_bracket_maps_to_struct (s : pystr) :
  startswith s (py "struct<") = true ->
  map_type_from_sql (PStr s) = Ok (Some (py "struct")).
Proof. intros H. apply startswith_spec in H as [r ->]. reflexivity. Qed.

(** A column whose type maps to a scalar name always yields its field:
    the mapped name, the partition flag, the comment, no children; its
    record is left as it was. *)
Lemma import_columns_scalar (c : RawColumn) (t : pystr) :
  map_type_from_sql (PStr (Type_ c)) = Ok (Some t) ->
  t <> py "struct" -> t <> py "array" ->
  import_columns [c] =
  ([column_record c],
   Ok [(PStr (Name c),
        mkField (Some t) (Some (isPartitionKey c)) (of_option (Comment c)) Unset None)]).
Proof.
  intros Hmap Hs Ha.
  assert (Hd : format_record (column_record c) = Ok (column_record c)).
  { unfold format_record. cbn [subscript]. rewrite column_type. cbn [bind].
    destruct (startswith (Type_ c) (py "array<")) eqn:E1.
    { apply array_bracket_maps_to_array in E1. congruence. }
    destruct (startswith (Type_ c) (py "struct<")) eqn:E2.
    { apply struct_bracket_maps_to_struct in E2. congruence. }
    reflexivity. }
  apply (import_columns_single c _ (depth (PDict (column_record c))) _ Hd);
    [|reflexivity].
  unfold import_record_field.
  rewrite column_hive, column_comment, column_name.
  rewrite get_dict, column_type. cbn [bind]. rewrite Hmap. cbn [bind is_type].
  apply str_eqb_neq in Hs, Ha. rewrite Hs, Ha. cbn [bind].
  now destruct (isPartitionKey c).
Qed.

(** ** The claims on the run *)

(** C6: the field built from a column has the column's partition flag as
    [required] and the column's comment as [description].  In a run that
    succeeds this holds of the entry under each column's name (the last
    column of that name); it holds of the field built from any column
    alone; a column of scalar type always yields its field; the two
    scenarios are instances. *)
Theorem top_level_metadata :
  (forall cols h m earlier c later,
     import_columns cols = (h, Ok m) ->
     cols = earlier ++ c :: later ->
     (forall c', In c' later -> Name c' <> Name c) ->
     exists f, lookup_key m (PStr (Name c)) = Some f
       /\ required f = Some (isPartitionKey c)
       /\ description f = of_option (Comment c))
  /\ (forall c f,
        built c f ->
        required f = Some (isPartitionKey c)
        /\ description f = of_option (Comment c))
  /\ (forall c t,
        map_type_from_sql (PStr (Type_ c)) = Ok (Some t) ->
        t <> py "struct" -> t <> py "array" ->
        snd (import_columns [c]) =
        Ok [(PStr (Name c),
             mkField (Some t) (Some (isPartitionKey c)) (of_option (Comment c))
               Unset None)])
  /\ snd (import_columns [Scenario.id_column]) =
     Ok [(PStr (py "id"), mkField (Some (py "long")) (Some false) PNone Unset None)]
  /\ snd (import_columns [Scenario.p_column]) =
     Ok [(PStr (py "p"), mkField (Some (py "string")) (Some true) PNone Unset None)].
Proof.
  split; [|split; [|split; [|split; reflexivity]]].
  - intros cols h m earlier c later H Hcols Hlater.
    destruct (import_columns_last _ _ _ _ _ _ H Hcols Hlater)
      as (f & _ & Hl & Hr & Hd).
    eauto.
  - intros c f [h H].
    destruct (import_columns_last _ _ _ [] [] c H eq_refl)
      as (f' & _ & Hl & Hr & Hd); [intros c' []|].
    cbn [lookup_key key_eqb] in Hl. rewrite str_eqb_refl in Hl.
    injection Hl as ->. now split.
  - intros c t Hmap Hs Ha. now rewrite (import_columns_scalar c t).
Qed.

(** C8: the output mapping has one entry per name; the entry under a name
    is the field built from the last column of that name, whatever the
    columns of other names are. *)
Theorem last_write_wins (cols : list RawColumn) (h : heap) m :
  import_columns cols = (h, Ok m) ->
  NoDup (List.map fst m)
  /\ (forall k, In k (List.map fst m) <-> exists c, In c cols /\ k = PStr (Name c))
  /\ (forall earlier c later,
        cols = earlier ++ c :: later ->
        (forall c', In c' later -> Name c' <> Name c) ->
        exists f, built c f /\ lookup_key m (PStr (Name c)) = Some f).
Proof.
  intros H. split; [|split].
  - apply import_columns_inv in H as (fs & _ & _ & ->).
    rewrite <- (List.map_map Name PStr). apply store_all_keys; constructor.
  - apply import_columns_inv in H as (fs & Hb & _ & ->).
    apply Forall2_length in Hb. intros k.
    rewrite <- (List.map_map Name PStr).
    rewrite store_all_key_set; [|now rewrite length_map|constructor|constructor].
    split.
    + intros [[]|Hin]. apply in_map_iff in Hin as (s & <- & Hin).
      apply in_map_iff in Hin as (c & <- & Hin). eauto.
    + intros (c & Hin & ->). right. now apply in_map, in_map.
  - intros earlier c later Hcols Hlater.
    destruct (import_columns_last _ _ _ _ _ _ H Hcols Hlater) as (f & Hb & Hl & _).
    eauto.
Qed.

(** ** The scenarios *)

(** The claim C1 as stated fails: the items of [b] do not come out with
    type [integer]. *)
Lemma struct_scenario_items_not_integer :
  ~ (exists h m, import_columns [Scenario.struct_column] = (h, Ok m)
                 /\ Scenario.struct_outcome "integer" m).
Proof.
  intros (h & m & H & f & fa & fb & fi & -> & _ & Hf & _ & _ & Hi & Ht).
  vm_compute in H. injection H as _ <-.
  cbn in Hf. injection Hf as _ <-.
  cbn in Hi. injection Hi as <-.
  discriminate Ht.
Qed.

(** C1, amended: for [struct<a:string,b:array<int>>] the run gives one
    field of type [struct] whose mapping holds [a] of type [string], then
    [b] of type [array]; the items of [b] have type [variant], [int]
    being no prefix of the mapper's table. *)
Theorem struct_scenario :
  exists h m, import_columns [Scenario.struct_column] = (h, Ok m)
              /\ Scenario.struct_outcome "variant" m.
Proof.
  eexists _, _. split; [vm_compute; reflexivity|].
  unfold Scenario.struct_outcome. eexists _, _, _, _.
  repeat split; reflexivity.
Qed.

(** The claim C2 as stated fails: the exception is not an
    [UnbalancedBracketsError]. *)
Lemma unbalanced_not_named_error :
  generate_sub_fields (py "struct<a:string") <> Raise UnbalancedBracketsError.
Proof. vm_compute. discriminate. Qed.

(** C2, amended: for [struct<a:string] the normalizer raises the decoding
    error of [json.loads], [format_schema] lets it through, and the run
    ends with it, the record untouched. *)
Theorem unbalanced_raises_decode_error :
  generate_sub_fields (py "struct<a:string") = Raise JSONDecodeError
  /\ format_schema [0%nat] [column_record Scenario.unbalanced_column] =
     ([column_record Scenario.unbalanced_column], Raise JSONDecodeError)
  /\ import_columns [Scenario.unbalanced_column] =
     ([column_record Scenario.unbalanced_column], Raise JSONDecodeError).
Proof. repeat split; vm_compute; reflexivity. Qed.

(** C3 at [array<array<string>>]: the items of the column are of type
    [array], yet their own items are absent and the inner field sits in
    the attribute [fields]. *)
Theorem nested_array_items_in_fields :
  exists h f g,
    import_columns [Scenario.matrix_column] = (h, Ok [(PStr (py "x"), f)])
    /\ type f = Some (py "array")
    /\ items f = Some g
    /\ type g = Some (py "array")
    /\ items g = None
    /\ fields g = Single (mkField (Some (py "string")) None PNone Unset None).
Proof.
  eexists _, _, _. split; [vm_compute; reflexivity|].
  repeat split; reflexivity.
Qed.

(** ** What [format_schema] does to the store *)

Lemma format_record_scalar (d d' : dict pyval) :
  format_record d = Ok d' -> composite d = false -> d' = d.
Proof.
  unfold format_record, composite. cbn [subscript].
  destruct (dict_get d (py "Type")) as [[| | |type| |]|]; cbn [bind]; try discriminate.
  intros H Hc. apply orb_false_iff in Hc as [E1 E2].
  rewrite E1, E2 in H. now injection H.
Qed.

Lemma same_record_refl (d : dict pyval) : same_record d d.
Proof. split; auto. Qed.

Lemma same_record_trans (d1 d2 d3 : dict pyval) :
  same_record d1 d2 -> same_record d2 d3 -> same_record d1 d3.
Proof.
  intros [H1 H1'] [H2 H2']. split.
  - intros k Ht Hi Hf. rewrite H2, H1; auto.
  - intros Hc. specialize (H1' Hc). subst d2. auto.
Qed.

Lemma format_column_step (column : ref) (h h' : heap) :
  format_column column h = Ok h' ->
  exists d d', h !! column = Some d /\ format_record d = Ok d'
               /\ h' = <[column := d']> h.
Proof.
  intros H. destruct (h !! column) as [d|] eqn:E.
  - rewrite (format_column_record _ _ _ E) in H. bind_inv H.
    injection H as <-. eauto.
  - unfold format_column, deref in H. rewrite E in H. discriminate.
Qed.

Lemma format_columns_frame (schema : list ref) (h h' : heap) r :
  format_columns schema h = (h', r) ->
  length h' = length h
  /\ forall column d, h !! column = Some d ->
       exists d', h' !! column = Some d' /\ same_record d d'
                  /\ (~ In column schema -> d' = d).
Proof.
  revert h. induction schema as [|j schema IH]; intros h; cbn [format_columns].
  - intros [= <- _]. split; [easy|]. intros column d Hd.
    exists d. auto using same_record_refl.
  - destruct (format_column j h) as [h1|e] eqn:E.
    + intros H. apply IH in H as [Hlen H].
      apply format_column_step in E as (dj & dj' & Hj & Hf & ->).
      rewrite length_insert in Hlen. split; [exact Hlen|].
      intros column d Hd.
      destruct (decide (column = j)) as [->|Hne].
      * assert (d = dj) by congruence. subst dj.
        destruct (H j dj') as (d' & Hd' & Hs & _).
        { apply list_lookup_insert_eq. eapply lookup_lt_Some; eauto. }
        exists d'. split; [exact Hd'|]. split.
        -- eapply same_record_trans; [|exact Hs]. split.
           ++ intros. eapply format_record_frame; eauto.
           ++ now apply format_record_scalar.
        -- intros Hnot. exfalso. apply Hnot. now left.
      * destruct (H column d) as (d' & Hd' & Hs & Hnot).
        { rewrite list_lookup_insert_ne; auto. }
        exists d'. repeat split; auto; try apply Hs.
        intros Hn. apply Hnot. intros Hin. apply Hn. now right.
    + intros [= <- _]. split; [easy|]. intros column d Hd.
      exists d. auto using same_record_refl.
Qed.

Lemma format_record_composite (d d' : dict pyval) :
  format_record d = Ok d' -> composite d = true ->
  composite d' = false
  /\ (dict_get d' (py "Type") = Some (PStr (py "array"))
      \/ dict_get d' (py "Type") = Some (PStr (py "struct"))).
Proof.
  unfold format_record, composite at 1. cbn [subscript].
  destruct (dict_get d (py "Type")) as [[| | |type| |]|]; cbn [bind]; try discriminate.
  destruct (startswith type (py "array<")).
  { intros H _. bind_inv H. bind_inv H. injection H as <-.
    unfold composite. rewrite dict_get_set_eq. split; [reflexivity|now left]. }
  destruct (startswith type (py "struct<")); [|discriminate].
  intros H _. bind_inv H. bind_inv H. injection H as <-.
  unfold composite. rewrite dict_get_set_eq. split; [reflexivity|now right].
Qed.

(** A composite record that the schema refers to has, after a pass that
    succeeds, the bare kind as its type. *)
Lemma format_columns_composite (schema : list ref) (h h' : heap) (column : ref)
    (d : dict pyval) :
  format_columns schema h = (h', Ok tt) ->
  In column schema -> h !! column = Some d -> composite d = true ->
  exists d', h' !! column = Some d'
    /\ (dict_get d' (py "Type") = Some (PStr (py "array"))
        \/ dict_get d' (py "Type") = Some (PStr (py "struct"))).
Proof.
  revert h d. induction schema as [|j schema IH]; intros h d H Hin Hd Hc; [easy|].
  cbn [format_columns] in H.
  destruct (format_column j h) as [h1|e] eqn:E; [|discriminate].
  apply format_column_step in E as (dj & dj' & Hj & Hf & ->).
  destruct (decide (column = j)) as [->|Hne].
  - assert (d = dj) by congruence. subst dj.
    destruct (format_record_composite _ _ Hf Hc) as [Hc' Ht].
    destruct (format_columns_frame _ _ _ _ H) as [_ Hframe].
    destruct (Hframe j dj') as (d' & Hd' & [_ Hs] & _).
    { apply list_lookup_insert_eq. eapply lookup_lt_Some; eauto. }
    exists d'. split; [exact Hd'|]. now rewrite (Hs Hc').
  - destruct Hin as [->|Hin]; [congruence|].
    apply (IH _ d H Hin); [|exact Hc].
    rewrite list_lookup_insert_ne; auto.
Qed.

(** The claim C4 as stated fails: the record of a composite column is not
    what it was before the run. *)
Lemma run_rewrites_composite_record :
  fst (import_columns [Scenario.tags_column]) <>
  [column_record Scenario.tags_column].
Proof. vm_compute. discriminate. Qed.

(** ** The nodes of the field tree *)

Lemma import_record_fields_0 (v : pyval) :
  import_record_fields 0 v = Raise OutOfFuel.
Proof. reflexivity. Qed.

Lemma import_array_field_0 (v : pyval) :
  import_array_field 0 v = Raise OutOfFuel.
Proof. reflexivity. Qed.

Lemma array_field_unmarked (fuel : nat) (v : pyval) (g : Field) :
  import_array_field fuel v = Ok g -> unmarked g.
Proof.
  destruct fuel; [now rewrite import_array_field_0|].
  rewrite import_array_field_unfold. intros H.
  bind_inv H. bind_inv H.
  destruct (is_type _ _); [|destruct (is_type _ _)].
  - bind_inv H. bind_inv H. injection H as <-. now split.
  - bind_inv H. bind_inv H. injection H as <-. now split.
  - injection H as <-. now split.
Qed.

Lemma in_descendants_mapping (g : Field) t r d (m : list (pyval * Field)) :
  In g (descendants (mkField t r d (Mapping m) None)) ->
  exists k f, In (k, f) m /\ (g = f \/ In g (descendants f)).
Proof.
  cbn [descendants]. rewrite app_nil_r, in_flat_map.
  intros ([k f] & Hin & H). exists k, f. split; [exact Hin|].
  cbn [snd] in H. destruct H as [<-|H]; auto.
Qed.

Section Nodes.

(** [I]: what is known of the value being imported; [M]: what follows
    for the flag and the description read from a record; [P]: the
    property of the fields built. *)
Variable I : pyval -> Prop.
Variable M : bool -> pyval -> Prop.
Variable P : Field -> Prop.

Hypothesis I_iterate :
  forall v l x, I v -> iterate v = Ok l -> In x l -> I x.
Hypothesis I_get :
  forall v k sub, I v -> get v k = Ok sub -> I sub.
Hypothesis I_meta :
  forall v hive descr, I v ->
    get v (py "Hive") = Ok hive -> get v (py "Comment") = Ok descr ->
    M (if truthy hive then true else false) descr.
Hypothesis P_record :
  forall t r d fs it, M r d ->
    (forall g, it = Some g \/ fs = Single g -> unmarked g) ->
    P (mkField t (Some r) d fs it).
Hypothesis P_item :
  forall t fs, (forall g, fs = Single g -> unmarked g) ->
    P (mkField t None PNone fs None).

(** One field: its nested children are as the values under [Fields] and
    [Items] allow; the field itself is, if its record is. *)
Lemma record_field_nodes (fuel : nat) (field : pyval) kf :
  nodes_at I P fuel ->
  (forall sub, get field (py "Fields") = Ok sub -> I sub) ->
  (forall sub, get field (py "Items") = Ok sub -> I sub) ->
  import_record_field fuel field = Ok kf ->
  (forall g, In g (descendants (snd kf)) -> P g)
  /\ (I field -> P (snd kf)).
Proof.
  intros [IHr IHa] Hfields Hitems H. unfold import_record_field in H.
  bind_inv H. bind_inv H. bind_inv H. bind_inv H. bind_inv H. bind_inv H.
  injection H as <-. cbn [snd].
  destruct (is_type a0 (py "struct")); [|destruct (is_type a0 (py "array"))].
  - bind_inv E3. bind_inv E3. injection E3 as <-. split.
    + intros g Hg. apply in_descendants_mapping in Hg as (k & f & Hin & Hg).
      destruct (IHr _ _ (Hfields _ E5) E6 _ _ Hin) as [Hf Hd].
      destruct Hg as [->|Hg]; auto.
    + intros Hi. apply P_record; [now apply (I_meta field)|].
      intros g [Hg|Hg]; discriminate.
  - bind_inv E3. bind_inv E3. injection E3 as <-. split.
    + intros g Hg. cbn [descendants app] in Hg.
      destruct (IHa _ _ (Hitems _ E5) E6) as [Hf Hd].
      destruct Hg as [<-|Hg]; auto.
    + intros Hi. apply P_record; [now apply (I_meta field)|].
      intros g [[= <-]|Hg]; [|discriminate].
      now apply array_field_unmarked in E6.
  - injection E3 as <-. split.
    + intros g [].
    + intros Hi. apply P_record; [now apply (I_meta field)|].
      intros g [Hg|Hg]; discriminate.
Qed.

Lemma nodes (fuel : nat) : nodes_at I P fuel.
Proof.
  induction fuel as [|fuel IH].
  - split; intros v ? _ H.
    + now rewrite import_record_fields_0 in H.
    + now rewrite import_array_field_0 in H.
  - pose proof IH as [IHr IHa]. split.
    + intros v m Hv H. rewrite import_record_fields_unfold in H. bind_inv H.
      revert H.
      apply (for_each_invariant (fun acc => forall k f, In (k, f) acc -> every P f));
        [|intros ? ? []].
      intros acc field acc' Hin Hacc Hbody k f Hkf.
      bind_inv Hbody. unfold setitem in Hbody.
      destruct (hashable (fst a0)); [|discriminate]. injection Hbody as <-.
      apply in_store_key in Hkf as [->|Hkf]; [|eauto].
      assert (Hfield : I field) by eauto.
      destruct (record_field_nodes fuel field a0 IH) as [Hd Hf]; eauto.
      split; auto.
    + intros v f Hv H. rewrite import_array_field_unfold in H.
      bind_inv H. bind_inv H.
      destruct (is_type a0 (py "struct")); [|destruct (is_type a0 (py "array"))].
      * bind_inv H. bind_inv H. injection H as <-. split.
        -- apply P_item. intros g [=].
        -- intros g Hg. apply in_descendants_mapping in Hg as (k & f & Hin & Hg).
           destruct (IHr _ _ (I_get _ _ _ Hv E1) E2 _ _ Hin) as [Hf Hd].
           destruct Hg as [->|Hg]; auto.
      * bind_inv H. bind_inv H. injection H as <-. split.
        -- apply P_item. intros g [= <-]. now apply array_field_unmarked in E2.
        -- intros g Hg. cbn [descendants] in Hg. rewrite app_nil_r in Hg.
           destruct (IHa _ _ (I_get _ _ _ Hv E1) E2) as [Hf Hd].
           destruct Hg as [<-|Hg]; auto.
      * injection H as <-. split; [apply P_item; intros g [=]|intros g []].
Qed.

End Nodes.

(** ** Nested children *)

Lemma no_meta_iterate (v : pyval) (l : list pyval) (x : pyval) :
  no_meta v = true -> iterate v = Ok l -> In x l -> no_meta x = true.
Proof.
  destruct v; try discriminate; cbn [iterate]; intros Hv [= <-] Hin.
  - apply in_map_iff in Hin as (c & <- & _). reflexivity.
  - cbn [no_meta] in Hv. rewrite forallb_forall in Hv. auto.
  - apply in_map_iff in Hin as (c & <- & _). reflexivity.
Qed.

Lemma no_meta_dict (d : dict pyval) :
  no_meta (PDict d) = true ->
  dict_get d (py "Hive") = None /\ dict_get d (py "Comment") = None
  /\ forall k v, dict_get d k = Some v -> no_meta v = true.
Proof.
  cbn [no_meta].
  destruct (dict_get d (py "Hive")); [discriminate|].
  destruct (dict_get d (py "Comment")); [discriminate|].
  intros H. repeat split. intros k v Hk.
  apply dict_get_in in Hk as [k' Hin].
  rewrite forallb_forall in H. apply (H (k', v) Hin).
Qed.

Lemma no_meta_get (v : pyval) (k : pystr) (sub : pyval) :
  no_meta v = true -> get v k = Ok sub -> no_meta sub = true.
Proof.
  destruct v; try discriminate. intros Hv.
  apply no_meta_dict in Hv as (_ & _ & Hv).
  rewrite get_dict. destruct (dict_get d k) eqn:E; intros [= <-]; eauto.
Qed.

Lemma no_meta_flag (v hive descr : pyval) :
  no_meta v = true ->
  get v (py "Hive") = Ok hive -> get v (py "Comment") = Ok descr ->
  (if truthy hive then true else false) = false /\ descr = PNone.
Proof.
  destruct v; try discriminate. intros Hv.
  apply no_meta_dict in Hv as (Hh & Hc & _).
  rewrite !get_dict, Hh, Hc. now intros [= <-] [= <-].
Qed.

Lemma bare_record t (r : bool) (d : pyval) fs it :
  r = false /\ d = PNone ->
  (forall g : Field, it = Some g \/ fs = Single g -> unmarked g) ->
  bare (mkField t (Some r) d fs it).
Proof. intros [-> ->] _. now split. Qed.

Lemma plain_nodes (fuel : nat) :
  nodes_at (fun v => no_meta v = true) bare fuel.
Proof.
  apply (nodes _ (fun r d => r = false /\ d = PNone)).
  - exact no_meta_iterate.
  - exact no_meta_get.
  - exact no_meta_flag.
  - exact bare_record.
  - intros t fs _. now split.
Qed.

Lemma item_nodes (fuel : nat) :
  nodes_at (fun _ => True) items_unmarked fuel.
Proof.
  apply (nodes _ (fun _ _ => True)); auto; unfold items_unmarked.
  intros t fs H g [Hg|Hg]; [discriminate|]. apply H. exact Hg.
Qed.

Lemma column_no_children (c : RawColumn) :
  dict_get (column_record c) (py "Fields") = None
  /\ dict_get (column_record c) (py "Items") = None.
Proof.
  unfold column_record. destruct (isPartitionKey c), (Comment c); now split.
Qed.

Lemma subscript_no_meta (parsed : pyval) (k : pystr) (v : pyval) :
  no_meta parsed = true -> subscript parsed k = Ok v -> no_meta v = true.
Proof.
  destruct parsed; try discriminate. intros Hp.
  apply no_meta_dict in Hp as (_ & _ & Hp). cbn [subscript].
  destruct (dict_get d k) eqn:E; [|discriminate]. intros [= <-]. eauto.
Qed.

(** What [format_schema] hangs under [Fields] and [Items] comes from the
    parsed descriptor. *)
Lemma formatted_children_plain (c : RawColumn) (d' : dict pyval) (key : pystr)
    (sub : pyval) :
  format_record (column_record c) = Ok d' ->
  plain_descriptor (Type_ c) = true ->
  key = py "Fields" \/ key = py "Items" ->
  get (PDict d') key = Ok sub -> no_meta sub = true.
Proof.
  intros Hd Hplain Hkey. rewrite get_dict.
  destruct (column_no_children c) as [Hnf Hni].
  pose proof (column_type c) as Htype.
  revert Hd Hnf Hni Htype. generalize (column_record c) as d.
  intros d Hd Hnf Hni Htype.
  unfold format_record in Hd. cbn [subscript] in Hd.
  rewrite Htype in Hd. cbn [bind] in Hd.
  unfold plain_descriptor in Hplain.
  destruct (startswith (Type_ c) (py "array<")).
  { bind_inv Hd. bind_inv Hd. injection Hd as <-. rewrite E in Hplain.
    pose proof (subscript_no_meta _ _ _ Hplain E0) as Hitems.
    destruct Hkey as [-> | ->].
    - rewrite !dict_get_set_ne, Hnf by easy. now intros [= <-].
    - rewrite dict_get_set_ne, dict_get_set_eq by easy. now intros [= <-]. }
  destruct (startswith (Type_ c) (py "struct<")).
  { bind_inv Hd. bind_inv Hd. injection Hd as <-. rewrite E in Hplain.
    pose proof (subscript_no_meta _ _ _ Hplain E0) as Hfields.
    destruct Hkey as [-> | ->].
    - rewrite dict_get_set_ne, dict_get_set_eq by easy. now intros [= <-].
    - rewrite !dict_get_set_ne, Hni by easy. now intros [= <-]. }
  injection Hd as <-.
  destruct Hkey as [-> | ->]; [rewrite Hnf|rewrite Hni]; now intros [= <-].
Qed.

Lemma in_store_all {V : Type} (kfs m : list (pyval * V)) (k : pyval) (v : V) :
  In (k, v) (store_all kfs m) -> In (k, v) m \/ In v (List.map snd kfs).
Proof.
  revert m. induction kfs as [|[k0 v0] kfs IH]; intros m; [now left|].
  cbn [store_all fold_left fst snd List.map].
  fold (store_all kfs (store_key m k0 v0)).
  intros H. apply IH in H as [H|H].
  - apply in_store_key in H as [->|H]; [right; now left|now left].
  - right. now right.
Qed.

(** Every entry of a run that succeeds was built from the formatted
    record of one of the columns. *)
Lemma import_columns_entry (cols : list RawColumn) (h : heap) m k f :
  import_columns cols = (h, Ok m) -> In (k, f) m ->
  exists c d' fuel kf,
    In c cols /\ format_record (column_record c) = Ok d'
    /\ import_record_field fuel (PDict d') = Ok kf /\ f = snd kf.
Proof.
  intros H Hin.
  apply import_columns_entries in H as (kfs & fuel & Hpost & Hkfs & _ & ->).
  apply in_store_all in Hin as [[]|Hin].
  clear k. revert h kfs Hpost Hkfs Hin.
  induction cols as [|c cols IH]; intros h kfs Hpost Hkfs Hin.
  - inversion Hpost; subst. inversion Hkfs; subst. destruct Hin.
  - inversion Hpost as [|? d' ? h' Hd Hrest]; subst.
    inversion Hkfs as [|? kf ? kfs' [Hkf _] Hrest']; subst.
    destruct Hin as [<-|Hin].
    + exists c, d', fuel, kf. repeat split; auto. now left.
    + destruct (IH _ _ Hrest Hrest' Hin) as (c' & d'' & fuel' & kf' & Hc & H').
      exists c', d'', fuel', kf'. split; [now right|exact H'].
Qed.

Lemma import_columns_imported (cols : list RawColumn) (h : heap) m :
  import_columns cols = (h, Ok m) ->
  exists fuel v, import_record_fields fuel v = Ok m.
Proof.
  unfold import_columns. destruct (format_schema _ _) as [h' [schema|e]].
  - cbn [bind]. intros [= _ H]. eauto.
  - discriminate.
Qed.

(** Outside the type grammar the members of a struct are not protected:
    a type text with quote characters can write keys of its own into the
    literal of a member, and [import_record_fields], which reads a member
    as it reads a column, then finds them.  The design document leaves
    quoted identifiers out of the grammar. *)
Lemma quoted_member_marked :
  exists h f g,
    import_columns [Scenario.marked_column] = (h, Ok [(PStr (py "c"), f)])
    /\ In g (descendants f)
    /\ required g = Some true
    /\ description g = PStr (py "x").
Proof.
  eexists _, _, _. split; [vm_compute; reflexivity|].
  split; [left; reflexivity|]. split; reflexivity.
Qed.

(** ** Searching and slicing *)

Lemma index_of_none (c : ascii) (s : pystr) :
  index_of c s = None -> ~ In c s.
Proof.
  induction s as [|d s IH]; simpl; [tauto|].
  destruct (Ascii.eqb d c) eqn:E; [discriminate|].
  destruct (index_of c s); [discriminate|]. intros _ [->|H].
  - now rewrite Ascii.eqb_refl in E.
  - now apply IH.
Qed.

Lemma index_of_some (c : ascii) (s : pystr) (i : nat) :
  index_of c s = Some i ->
  exists a b, s = a ++ c :: b /\ ~ In c a /\ length a = i.
Proof.
  revert i. induction s as [|d s IH]; intros i; simpl; [discriminate|].
  destruct (Ascii.eqb d c) eqn:E.
  - apply Ascii.eqb_eq in E. subst d. intros [= <-].
    exists [], s. repeat split. tauto.
  - destruct (index_of c s) as [j|]; [|discriminate]. intros [= <-].
    destruct (IH j eq_refl) as (a & b & -> & Ha & <-).
    exists (d :: a), b. repeat split. intros [->|H]; [|tauto].
    now rewrite Ascii.eqb_refl in E.
Qed.

Lemma index_of_in (c : ascii) (s : pystr) :
  In c s -> exists i, index_of c s = Some i.
Proof.
  intros H. destruct (index_of c s) eqn:E; [eauto|].
  now apply index_of_none in E.
Qed.

(** [rfind] splits a string at the last occurrence. *)
Lemma rfind_split (s : pystr) (c : ascii) :
  In c s ->
  exists prev rest, s = prev ++ c :: rest /\ ~ In c rest /\ rfind s c = len prev.
Proof.
  intros H. unfold rfind.
  destruct (index_of_in c (rev s)) as [i Hi]; [now apply in_rev in H|].
  rewrite Hi. apply index_of_some in Hi as (a & b & Hs & Ha & <-).
  exists (rev b), (rev a).
  assert (Hs' : s = rev b ++ c :: rev a).
  { rewrite <- (rev_involutive s), Hs, rev_app_distr. simpl.
    now rewrite <- app_assoc. }
  split; [exact Hs'|]. split.
  - intros Hin. apply Ha. now apply in_rev.
  - unfold len. rewrite Hs' at 1.
    rewrite length_app. cbn [length]. rewrite !length_rev. lia.
Qed.

Lemma find_first_other (c d : ascii) (s : pystr) :
  c <> d -> find (d :: s) c = -1 \/ 1 <= find (d :: s) c.
Proof.
  intros Hne. unfold find. cbn [index_of].
  destruct (Ascii.eqb d c) eqn:E.
  - apply Ascii.eqb_eq in E. congruence.
  - destruct (index_of c s); cbn [option_map]; lia.
Qed.

Lemma last_occurrence (c : ascii) (x x' y y' : pystr) :
  x ++ c :: y = x' ++ c :: y' -> ~ In c y' ->
  (x' = x /\ y' = y) \/ exists q, x' = x ++ c :: q.
Proof.
  revert x'. induction x as [|a x IH]; intros x' H Hn.
  - destruct x' as [|d x'']; cbn [app] in H.
    + injection H as <-. now left.
    + injection H as -> _. right. now exists x''.
  - destruct x' as [|d x'']; cbn [app] in H.
    + injection H as -> <-. exfalso. apply Hn. apply in_elt.
    + injection H as -> H. destruct (IH _ H Hn) as [[-> ->]|[q ->]].
      * now left.
      * right. now exists q.
Qed.

Lemma bound_nonneg (n i : Z) : 0 <= i <= n -> bound n i = i.
Proof. unfold bound. intros H. destruct (i <? 0) eqn:E; lia. Qed.

Lemma bound_neg (n i : Z) : i < 0 -> 0 <= i + n -> bound n i = i + n.
Proof. unfold bound. intros H H'. destruct (i <? 0) eqn:E; lia. Qed.

Lemma slice_to_prefix (prev rest : pystr) :
  slice_to (prev ++ rest) (len prev) = prev.
Proof.
  unfold slice_to, len. rewrite bound_nonneg.
  - rewrite Nat2Z.id. now rewrite firstn_app, Nat.sub_diag, firstn_all, app_nil_r.
  - rewrite length_app. lia.
Qed.

(** [s[:-n]] of a string that ends with at least [n] characters after
    [p ++ [c]] keeps [p ++ [c]]. *)
Lemma slice_to_back (p q : pystr) (c : ascii) (n : nat) :
  (0 < n <= length q)%nat ->
  slice_to (p ++ c :: q) (- Z.of_nat n) = p ++ c :: firstn (length q - n) q.
Proof.
  intros Hn. unfold slice_to, len. rewrite length_app. cbn [length].
  rewrite bound_neg by lia.
  replace (Z.to_nat (- Z.of_nat n + Z.of_nat (length p + S (length q))))
    with (length p + S (length q - n))%nat by lia.
  rewrite firstn_app_2. reflexivity.
Qed.

(** ** Words *)

Lemma words_from_sep (a b cur : pystr) (c : ascii) :
  is_word c = false ->
  words_from (a ++ c :: b) cur = words_from a cur ++ words_from b [].
Proof.
  intros Hc. revert cur. induction a as [|d a IH]; intros cur; cbn [app words_from].
  - rewrite Hc. now destruct cur.
  - destruct (is_word d); [apply IH|]. destruct cur; rewrite IH; reflexivity.
Qed.

Lemma words_from_length (s cur w : pystr) :
  In w (words_from s cur) -> (length w <= length s + length cur)%nat.
Proof.
  revert cur. induction s as [|d s IH]; intros cur; cbn [words_from].
  - destruct cur; [intros []|]. intros [<-|[]]. rewrite length_rev. lia.
  - destruct (is_word d).
    + intros H. apply IH in H. cbn [length] in *. lia.
    + destruct cur.
      * intros H. apply IH in H. cbn [length] in *. lia.
      * intros [<-|H].
        -- rewrite length_rev. cbn [length]. lia.
        -- apply IH in H. cbn [length] in *. lia.
Qed.

Lemma last_item_app {A : Type} (l1 l2 : list A) :
  last_item (l1 ++ l2) =
  match l2 with
  | [] => last_item l1
  | _ => last_item l2
  end.
Proof.
  unfold last_item. rewrite rev_app_distr.
  destruct l2 as [|a l2]; [reflexivity|].
  destruct (rev (a :: l2)) as [|b l] eqn:E; [|reflexivity].
  apply (f_equal (@length A)) in E. rewrite length_rev in E. discriminate.
Qed.

Lemma last_item_in {A : Type} (l : list A) (a : A) :
  last_item l = Ok a -> In a l.
Proof.
  unfold last_item. destruct (rev l) as [|b l'] eqn:E; [discriminate|].
  intros [= ->]. apply in_rev. rewrite E. now left.
Qed.

(** The identifier before a bracket that comes after an unknown group
    lies between the two brackets. *)
Lemma known_word_after_unknown (p q w : pystr) :
  unknown_group p ->
  last_item (findall_words (p ++ "<"%char :: q)) = Ok w ->
  w = py "struct" \/ w = py "array" ->
  (length w <= length q)%nat.
Proof.
  intros (u & Hu & Hs & Ha). unfold findall_words in *.
  rewrite words_from_sep, last_item_app by reflexivity.
  destruct (words_from q []) as [|x l] eqn:E.
  - rewrite Hu. intros [= <-] [?|?]; congruence.
  - intros H _. apply last_item_in in H. rewrite <- E in H.
    apply words_from_length in H. cbn [length] in H. lia.
Qed.

(** ** The struct literal is always built *)

Lemma split_from_length (s cur : pystr) (sep : ascii) :
  length (split_from s sep cur) = S (count s sep).
Proof.
  revert cur. induction s as [|c s IH]; intros cur; cbn [split_from count];
    [reflexivity|].
  destruct (Ascii.eqb c sep); cbn [length]; now rewrite IH.
Qed.

Lemma fileds_to_add_ok (field : pystr) : exists text, fileds_to_add field = Ok text.
Proof.
  unfold fileds_to_add. destruct (Nat.eqb (count field ":") 1) eqn:E; [|eauto].
  apply Nat.eqb_eq in E.
  pose proof (split_from_length field [] ":") as Hlen. rewrite E in Hlen.
  unfold split.
  destruct (split_from field ":" []) as [|a [|b l]]; try discriminate.
  cbn [item nth_error bind]. eauto.
Qed.

Lemma struct_fields_ok (l : list pystr) (x last : Z) (fields : pystr) :
  exists text, struct_fields x last l fields = Ok text.
Proof.
  revert x fields. induction l as [|field l IH]; intros x fields;
    cbn [struct_fields]; [eauto|].
  destruct (fileds_to_add_ok field) as [text ->]. cbn [bind]. apply IH.
Qed.

(** ** A bracket group of unknown kind stays *)

Lemma last_item_cons {A : Type} (a : A) (l : list A) :
  exists b, last_item (a :: l) = Ok b.
Proof.
  unfold last_item. destruct (rev (a :: l)) as [|b l'] eqn:E; [|eauto].
  apply (f_equal (@length A)) in E. rewrite length_rev in E. discriminate.
Qed.

Lemma rewrite_innermost_keeps (p r : pystr) :
  unknown_group p ->
  exists r', rewrite_innermost (p ++ "<"%char :: r) = Ok (p ++ "<"%char :: r').
Proof.
  intros Hp.
  destruct (rfind_split (p ++ "<"%char :: r) "<")
    as (prev & rest & Hcur & Hrest & Hrfind); [apply in_elt|].
  unfold rewrite_innermost. rewrite Hrfind, Hcur, slice_to_prefix.
  destruct (last_occurrence _ _ _ _ _ Hcur Hrest) as [[-> ->]|[q ->]].
  - destruct Hp as (u & -> & Hs & Ha). cbn [bind].
    apply str_eqb_neq in Hs, Ha. rewrite Hs, Ha. cbn [bind]. eauto.
  - destruct (last_item (findall_words (p ++ "<"%char :: q))) as [w|e] eqn:Ew.
    2:{ exfalso. unfold findall_words in Ew.
        rewrite words_from_sep, last_item_app in Ew by reflexivity.
        destruct (words_from q []) as [|x l].
        - destruct Hp as (u & Hu & _). unfold findall_words in Hu. congruence.
        - destruct (last_item_cons x l) as [b Hb]. congruence. }
    cbn [bind].
    destruct (str_eqb w (py "struct")) eqn:Es.
    + apply str_eqb_eq in Es.
      pose proof (known_word_after_unknown p q w Hp Ew (or_introl Es)) as Hlen.
      subst w. cbn [py list_ascii_of_string length] in Hlen.
      match goal with
      | |- context [struct_fields ?x ?last ?l ?fields] =>
          destruct (struct_fields_ok l x last fields) as [text ->]
      end.
      cbn [bind].
      change (str_eqb (py "struct") (py "array")) with false. cbn iota.
      change (-6) with (- Z.of_nat 6). rewrite slice_to_back by lia.
      rewrite <- app_assoc. cbn [app]. eauto.
    + cbn [bind]. destruct (str_eqb w (py "array")) eqn:Ea.
      * apply str_eqb_eq in Ea.
        pose proof (known_word_after_unknown p q w Hp Ew (or_intror Ea)) as Hlen.
        subst w. cbn [py list_ascii_of_string length] in Hlen.
        change (-5) with (- Z.of_nat 5). rewrite slice_to_back by lia.
        destruct (startswith _ _); rewrite <- app_assoc; cbn [app]; eauto.
      * rewrite <- app_assoc. cbn [app]. eauto.
Qed.

Lemma for_range_keeps (n : nat) (p r : pystr) :
  unknown_group p ->
  exists r', for_range n rewrite_innermost (p ++ "<"%char :: r) =
             Ok (p ++ "<"%char :: r').
Proof.
  intros Hp. revert r. induction n as [|n IH]; intros r; cbn [for_range]; [eauto|].
  destruct (rewrite_innermost_keeps p r Hp) as [r1 ->]. cbn [bind]. apply IH.
Qed.

Lemma unknown_after_struct (p r : pystr) :
  startswith (p ++ "<"%char :: r) (py "struct<") = true ->
  unknown_group p -> exists p', p = py "struct<" ++ p'.
Proof.
  intros H (u & Hu & Hs & Ha).
  apply startswith_spec in H as [t H].
  do 6 (destruct p as [|? p]; [discriminate H|]; injection H as -> H).
  destruct p as [|? p].
  - vm_compute in Hu. injection Hu as <-. now destruct Hs.
  - injection H as -> H. now exists p.
Qed.

Lemma unknown_after_array (p r : pystr) :
  startswith (p ++ "<"%char :: r) (py "array<") = true ->
  unknown_group p -> exists p', p = py "array<" ++ p'.
Proof.
  intros H (u & Hu & Hs & Ha).
  apply startswith_spec in H as [t H].
  do 5 (destruct p as [|? p]; [discriminate H|]; injection H as -> H).
  destruct p as [|? p].
  - vm_compute in Hu. injection Hu as <-. now destruct Ha.
  - injection H as -> H. now exists p.
Qed.

Lemma loads_struct_text (rest : pystr) :
  Json.loads (json_text (py "struct<" ++ rest)) = Raise JSONDecodeError.
Proof. reflexivity. Qed.

Lemma loads_array_text (rest : pystr) :
  Json.loads (json_text (py "array<" ++ rest)) = Raise JSONDecodeError.
Proof. reflexivity. Qed.

Lemma import_columns_raise (c : RawColumn) (e : exn) :
  format_record (column_record c) = Raise e ->
  import_columns [c] = ([column_record c], Raise e).
Proof.
  intros H. unfold import_columns, format_schema.
  cbn [List.map length seq format_columns].
  rewrite (format_column_record 0 [column_record c] (column_record c) eq_refl).
  rewrite H. reflexivity.
Qed.

(** C10: when a type text opens [struct<] or [array<] and holds a bracket
    whose preceding identifier is neither [struct] nor [array], the loop
    of the normalizer ends with that bracket still in place, [json.loads]
    raises its decoding error, and the run on a column of that type ends
    with it. *)
Theorem unknown_group_decode_error (s p r : pystr) :
  startswith s (py "struct<") = true \/ startswith s (py "array<") = true ->
  s = p ++ "<"%char :: r ->
  unknown_group p ->
  (exists r', for_range (count s "<") rewrite_innermost s = Ok (p ++ "<"%char :: r'))
  /\ generate_sub_fields s = Raise JSONDecodeError
  /\ (forall c, Type_ c = s ->
        import_columns [c] = ([column_record c], Raise JSONDecodeError)).
Proof.
  intros Hstart -> Hp.
  destruct (for_range_keeps (count (p ++ "<"%char :: r) "<") p r Hp) as [r' Hloop].
  assert (Hgen : generate_sub_fields (p ++ "<"%char :: r) = Raise JSONDecodeError).
  { unfold generate_sub_fields. rewrite Hloop. cbn [bind].
    destruct Hstart as [H|H].
    - destruct (unknown_after_struct _ _ H Hp) as [p' ->].
      rewrite <- app_assoc. apply loads_struct_text.
    - destruct (unknown_after_array _ _ H Hp) as [p' ->].
      rewrite <- app_assoc. apply loads_array_text. }
  split; [eauto|]. split; [exact Hgen|].
  intros c Hc. apply import_columns_raise.
  unfold format_record. cbn [subscript]. rewrite column_type, Hc. cbn [bind].
  destruct (startswith (p ++ "<"%char :: r) (py "array<")).
  - now rewrite Hgen.
  - destruct Hstart as [->|?]; [|discriminate]. now rewrite Hgen.
Qed.

(** ** A run never ends for want of fuel *)

Lemma rewrite_innermost_not_out_of_fuel (s : pystr) :
  rewrite_innermost s <> Raise OutOfFuel.
Proof.
  unfold rewrite_innermost.
  apply bind_not_raise.
  { unfold last_item. now destruct (rev _). }
  intros w _. apply bind_not_raise.
  - destruct (str_eqb w (py "struct")); [|easy].
    match goal with
    | |- context [struct_fields ?x ?last ?l ?fields] =>
        destruct (struct_fields_ok l x last fields) as [text ->]
    end.
    easy.
  - intros t _. destruct (str_eqb w (py "array")); [|easy].
    now destruct (startswith _ _).
Qed.

Lemma for_range_not_out_of_fuel (n : nat) (s : pystr) :
  for_range n rewrite_innermost s <> Raise OutOfFuel.
Proof.
  revert s. induction n as [|n IH]; intros s; cbn [for_range]; [easy|].
  apply bind_not_raise; [apply rewrite_innermost_not_out_of_fuel|auto].
Qed.

Lemma generate_sub_fields_not_out_of_fuel (s : pystr) :
  generate_sub_fields s <> Raise OutOfFuel.
Proof.
  unfold generate_sub_fields. apply bind_not_raise.
  - apply for_range_not_out_of_fuel.
  - intros t _. apply JsonFacts.loads_not_out_of_fuel.
Qed.

Lemma subscript_not_out_of_fuel (v : pyval) (k : pystr) :
  subscript v k <> Raise OutOfFuel.
Proof. destruct v; try easy. cbn [subscript]. now destruct (dict_get d k). Qed.

Lemma format_column_not_out_of_fuel (column : ref) (h : heap) :
  format_column column h <> Raise OutOfFuel.
Proof.
  unfold format_column.
  apply bind_not_raise; [apply subscript_not_out_of_fuel|].
  intros [| | |type| |] _; try easy.
  destruct (startswith type (py "array<")).
  { apply bind_not_raise; [apply generate_sub_fields_not_out_of_fuel|].
    intros parsed _. apply bind_not_raise; [apply subscript_not_out_of_fuel|easy]. }
  destruct (startswith type (py "struct<")); [|easy].
  apply bind_not_raise; [apply generate_sub_fields_not_out_of_fuel|].
  intros parsed _. apply bind_not_raise; [apply subscript_not_out_of_fuel|easy].
Qed.

Lemma format_columns_not_out_of_fuel (schema : list ref) (h : heap) :
  snd (format_columns schema h) <> Raise OutOfFuel.
Proof.
  revert h. induction schema as [|j schema IH]; intros h; cbn [format_columns];
    [easy|].
  pose proof (format_column_not_out_of_fuel j h) as Hj.
  destruct (format_column j h) as [h1|e]; [apply IH|].
  cbn [snd]. exact (raise_retype e Hj).
Qed.

(** The fuel of the embedding is never what ends a run: whatever the
    columns, the outcome is a mapping or one of Python's exceptions (or
    lies outside the embedding). *)
Lemma import_columns_not_out_of_fuel (cols : list RawColumn) :
  snd (import_columns cols) <> Raise OutOfFuel.
Proof.
  unfold import_columns, format_schema.
  pose proof (format_columns_not_out_of_fuel (seq 0 (length cols))
                (List.map column_record cols)) as H.
  destruct (format_columns _ _) as [h' [[]|e]]; cbn [snd bind] in *.
  - apply enough_fuel. lia.
  - exact (raise_retype e H).
Qed.

(** ** The normalizer on the texts of the grammar *)

Example rewritten_struct_scenario :
  for_range 2 rewrite_innermost (py "struct<a:string,b:array<int>>") =
  Ok (rewritten (Struct [(py "a", Scalar (py "string"));
                         (py "b", Array (Scalar (py "int")))])).
Proof. reflexivity. Qed.

Lemma rfind_last (prev rest : pystr) (c : ascii) :
  ~ In c rest -> rfind (prev ++ c :: rest) c = len prev.
Proof.
  intros Hrest.
  destruct (rfind_split (prev ++ c :: rest) c) as (prev' & rest' & H & Hn & ->);
    [apply in_elt|].
  destruct (last_occurrence _ _ _ _ _ H Hn) as [[-> _]|[q ->]]; [reflexivity|].
  rewrite <- app_assoc in H. apply app_inv_head in H. injection H as ->.
  exfalso. apply Hrest, in_elt.
Qed.

Lemma find_first (a b : pystr) (c : ascii) :
  ~ In c a -> find (a ++ c :: b) c = len a.
Proof.
  intros Ha. unfold find.
  destruct (index_of c (a ++ c :: b)) as [i|] eqn:E.
  - apply index_of_some in E as (a' & b' & H & Ha' & <-).
    unfold len. f_equal. f_equal.
    revert a' H Ha'. induction a as [|d a IH]; intros a' H Ha'.
    + destruct a' as [|d' a']; [reflexivity|]. injection H as <- _.
      exfalso. apply Ha'. now left.
    + destruct a' as [|d' a']; cbn [app] in H.
      * injection H as -> _. exfalso. apply Ha. now left.
      * injection H as <- H. cbn [length]. f_equal. apply IH; auto.
        -- intros Hin. apply Ha. now right.
        -- intros Hin. apply Ha'. now right.
  - apply index_of_none in E. exfalso. apply E, in_elt.
Qed.

Lemma slice_from_app (a b : pystr) : slice_from (a ++ b) (len a) = b.
Proof.
  unfold slice_from, len. rewrite bound_nonneg by (rewrite length_app; lia).
  rewrite Nat2Z.id. now rewrite skipn_app, skipn_all, Nat.sub_diag.
Qed.

Lemma slice_middle (a b c : pystr) :
  slice (a ++ b ++ c) (len a) (len a + len b) = b.
Proof.
  unfold slice, len. rewrite !length_app.
  rewrite !bound_nonneg by lia.
  replace (Z.to_nat (Z.of_nat (length a) + Z.of_nat (length b) - Z.of_nat (length a)))
    with (length b) by lia.
  rewrite Nat2Z.id, skipn_app, skipn_all, Nat.sub_diag, skipn_O. cbn [app].
  now rewrite firstn_app, Nat.sub_diag, firstn_all, app_nil_r.
Qed.

Lemma slice_to_drop (p q : pystr) :
  q <> [] -> slice_to (p ++ q) (- len q) = p.
Proof.
  intros Hq. unfold slice_to, len. rewrite length_app.
  assert (0 < length q)%nat by (destruct q; [congruence|cbn [length]; lia]).
  rewrite bound_neg by lia.
  replace (Z.to_nat (- Z.of_nat (length q) + Z.of_nat (length p + length q)))
    with (length p) by lia.
  now rewrite firstn_app, Nat.sub_diag, firstn_all, app_nil_r.
Qed.

Lemma count_app (a b : pystr) (c : ascii) :
  count (a ++ b) c = (count a c + count b c)%nat.
Proof.
  induction a as [|d a IH]; cbn [app count]; [reflexivity|].
  destruct (Ascii.eqb d c); cbn [Nat.add]; now rewrite IH.
Qed.

Lemma count_none (a : pystr) (c : ascii) : ~ In c a -> count a c = O.
Proof.
  induction a as [|d a IH]; cbn [count]; [reflexivity|]. intros H.
  destruct (Ascii.eqb d c) eqn:E.
  - apply Ascii.eqb_eq in E. subst. exfalso. apply H. now left.
  - apply IH. intros Hin. apply H. now right.
Qed.

Lemma last_word_boundary (pre w : pystr) :
  boundary pre = true -> words_from w [] = [w] ->
  last_item (findall_words (pre ++ w)) = Ok w.
Proof.
  unfold boundary, findall_words. intros Hb Hw.
  destruct (rev pre) as [|c l] eqn:E.
  - apply (f_equal (@rev ascii)) in E. rewrite rev_involutive in E. subst pre.
    cbn [rev app]. now rewrite Hw.
  - apply (f_equal (@rev ascii)) in E. rewrite rev_involutive in E. subst pre.
    cbn [rev]. rewrite <- app_assoc. cbn [app].
    rewrite words_from_sep by now apply negb_true_iff.
    rewrite Hw, last_item_app. reflexivity.
Qed.

(** What one pass reads when the last bracket of the text opens a group
    whose content has no bracket. *)
Lemma innermost_parts (prev content post : pystr) :
  ~ In "<"%char content -> ~ In ">"%char content -> ~ In "<"%char post ->
  let s := prev ++ "<"%char :: content ++ ">"%char :: post in
  rfind s "<" = len prev
  /\ slice s (len prev + 1) (len prev + find (slice_from s (len prev)) ">") = content
  /\ slice_to s (len prev) = prev
  /\ slice_from s (len prev + find (slice_from s (len prev)) ">" + 1) = post.
Proof.
  intros Hc Hc' Hp s.
  assert (E1 : rfind s "<" = len prev).
  { apply rfind_last. intros H. apply in_app_or in H as [H|[H|H]]; auto.
    discriminate H. }
  assert (E2 : slice_from s (len prev) = "<"%char :: content ++ ">"%char :: post)
    by apply slice_from_app.
  assert (E3 : find ("<"%char :: content ++ ">"%char :: post) ">" = 1 + len content).
  { change ("<"%char :: content ++ ">"%char :: post)
      with (("<"%char :: content) ++ ">"%char :: post).
    rewrite find_first.
    - unfold len. cbn [length]. lia.
    - intros [H|H]; [discriminate H|auto]. }
  rewrite E2, E3. repeat split; auto.
  - subst s.
    replace (prev ++ "<"%char :: content ++ ">"%char :: post)
      with ((prev ++ ["<"%char]) ++ content ++ ">"%char :: post)
      by now rewrite <- app_assoc.
    replace (len prev + 1) with (len (prev ++ ["<"%char]))
      by (unfold len; rewrite length_app; cbn [length]; lia).
    replace (len prev + (1 + len content))
      with (len (prev ++ ["<"%char]) + len content)
      by (unfold len; rewrite length_app; cbn [length]; lia).
    apply slice_middle.
  - apply slice_to_prefix.
  - subst s.
    replace (prev ++ "<"%char :: content ++ ">"%char :: post)
      with ((prev ++ "<"%char :: content ++ [">"%char]) ++ post)
      by (rewrite <- !app_assoc; cbn [app]; rewrite <- app_assoc; reflexivity).
    replace (len prev + (1 + len content) + 1)
      with (len (prev ++ "<"%char :: content ++ [">"%char]))
      by (unfold len; rewrite !length_app; cbn [length]; rewrite length_app;
          cbn [length]; lia).
    apply slice_from_app.
Qed.

Lemma rewrite_struct (pre content post : pystr) :
  boundary pre = true ->
  ~ In "<"%char content -> ~ In ">"%char content -> ~ In "<"%char post ->
  rewrite_innermost (pre ++ py "struct<" ++ content ++ py ">" ++ post) =
  let* fields :=
    struct_fields 0 (len_list (split content ",") - 1) (split content ",") (py "[") in
  Ok (pre ++ py "'Type':'struct'|'Fields':" ++ (fields ++ py "]") ++ post).
Proof.
  intros Hb Hc Hc' Hp.
  destruct (innermost_parts (pre ++ py "struct") content post Hc Hc' Hp)
    as (E1 & E2 & E3 & E4).
  replace (pre ++ py "struct<" ++ content ++ py ">" ++ post)
    with ((pre ++ py "struct") ++ "<"%char :: content ++ ">"%char :: post)
    by (rewrite <- app_assoc; reflexivity).
  unfold rewrite_innermost. rewrite E1, E2, E3, E4.
  rewrite (last_word_boundary pre (py "struct") Hb eq_refl). cbn [bind].
  change (str_eqb (py "struct") (py "struct")) with true.
  change (str_eqb (py "struct") (py "array")) with false. cbv iota.
  change (-6) with (- len (py "struct")). rewrite slice_to_drop by discriminate.
  destruct (struct_fields _ _ _ _); reflexivity.
Qed.

Lemma rewrite_array (pre content post : pystr) :
  boundary pre = true ->
  ~ In "<"%char content -> ~ In ">"%char content -> ~ In "<"%char post ->
  rewrite_innermost (pre ++ py "array<" ++ content ++ py ">" ++ post) =
  Ok (pre
      ++ (if startswith content (py "'Type'")
          then py "'Type':'array'|'Items':{" ++ content ++ py "}"
          else py "'Type':'array'|'Items':{'Type':'" ++ content ++ py "'}")
      ++ post).
Proof.
  intros Hb Hc Hc' Hp.
  destruct (innermost_parts (pre ++ py "array") content post Hc Hc' Hp)
    as (E1 & E2 & E3 & E4).
  replace (pre ++ py "array<" ++ content ++ py ">" ++ post)
    with ((pre ++ py "array") ++ "<"%char :: content ++ ">"%char :: post)
    by (rewrite <- app_assoc; reflexivity).
  unfold rewrite_innermost. rewrite E1, E2, E3, E4.
  rewrite (last_word_boundary pre (py "array") Hb eq_refl). cbn [bind].
  change (str_eqb (py "array") (py "struct")) with false.
  change (str_eqb (py "array") (py "array")) with true. cbv iota. cbn [bind].
  change (-5) with (- len (py "array")). rewrite slice_to_drop by discriminate.
  destruct (startswith content (py "'Type'")); rewrite <- ?app_assoc; reflexivity.
Qed.

Lemma ty_induction (P : ty -> Prop) :
  (forall name, P (Scalar name)) ->
  (forall element, P element -> P (Array element)) ->
  (forall members, Forall (fun nt => P (snd nt)) members -> P (Struct members)) ->
  forall t, P t.
Proof.
  intros Hscalar Harray Hstruct. fix IH 1. intros [name|element|members].
  - apply Hscalar.
  - apply Harray, IH.
  - apply Hstruct. induction members as [|[n t] members IHm]; constructor.
    + apply IH.
    + exact IHm.
Qed.

Lemma split_from_plain (a cur : pystr) (sep : ascii) :
  ~ In sep a -> split_from a sep cur = [rev cur ++ a].
Proof.
  revert cur. induction a as [|c a IH]; intros cur Ha; cbn [split_from].
  - now rewrite app_nil_r.
  - destruct (Ascii.eqb c sep) eqn:E.
    + apply Ascii.eqb_eq in E. subst. exfalso. apply Ha. now left.
    + rewrite IH by (intros H; apply Ha; now right).
      cbn [rev]. now rewrite <- app_assoc.
Qed.

Lemma split_from_sep (a b cur : pystr) (sep : ascii) :
  ~ In sep a ->
  split_from (a ++ sep :: b) sep cur = (rev cur ++ a) :: split_from b sep [].
Proof.
  revert cur. induction a as [|c a IH]; intros cur Ha; cbn [app split_from].
  - rewrite Ascii.eqb_refl. now rewrite app_nil_r.
  - destruct (Ascii.eqb c sep) eqn:E.
    + apply Ascii.eqb_eq in E. subst. exfalso. apply Ha. now left.
    + rewrite IH by (intros H; apply Ha; now right).
      cbn [rev]. now rewrite <- app_assoc.
Qed.

Lemma split_join (l : list pystr) (sep : ascii) :
  l <> [] -> (forall x, In x l -> ~ In sep x) -> split (join [sep] l) sep = l.
Proof.
  unfold split. induction l as [|x l IH]; intros Hne Hl; [congruence|].
  destruct l as [|y l].
  - cbn [join]. rewrite split_from_plain by (apply Hl; now left). reflexivity.
  - change (join [sep] (x :: y :: l)) with (x ++ sep :: join [sep] (y :: l)).
    rewrite split_from_sep by (apply Hl; now left). cbn [rev app]. f_equal.
    apply IH; [discriminate|]. intros z Hz. apply Hl. now right.
Qed.

Lemma in_join (c : ascii) (sep : pystr) (l : list pystr) :
  In c (join sep l) -> In c sep \/ exists x, In x l /\ In c x.
Proof.
  induction l as [|x l IH]; [intros []|].
  destruct l as [|y l].
  - cbn [join]. intros H. right. exists x. split; [now left|exact H].
  - change (join sep (x :: y :: l)) with (x ++ sep ++ join sep (y :: l)).
    intros H. apply in_app_or in H as [H|H].
    + right. exists x. split; [now left|exact H].
    + apply in_app_or in H as [H|H]; [now left|].
      destruct (IH H) as [H'|(z & Hz & Hc)]; [now left|].
      right. exists z. split; [now right|exact Hc].
Qed.

Lemma struct_fields_join (l outs : list pystr) (x : Z) (acc : pystr) :
  Forall2 (fun a b => fileds_to_add a = Ok b) l outs ->
  struct_fields x (x + len_list l - 1) l acc = Ok (acc ++ join (py "|") outs).
Proof.
  intros H. revert x acc. induction H as [|a b l outs Hab Hrest IH]; intros x acc.
  - cbn [struct_fields join]. now rewrite app_nil_r.
  - cbn [struct_fields]. rewrite Hab. cbn [bind].
    destruct Hrest as [|a' b' l' outs' Hab' Hrest'].
    + cbn [struct_fields join].
      replace (x <? x + len_list [a] - 1) with false
        by (symmetry; apply Z.ltb_ge; unfold len_list; cbn [length]; lia).
      reflexivity.
    + replace (x + len_list (a :: a' :: l') - 1)
        with (x + 1 + len_list (a' :: l') - 1)
        by (unfold len_list; cbn [length]; lia).
      rewrite IH.
      replace (x <? x + 1 + len_list (a' :: l') - 1) with true
        by (symmetry; apply Z.ltb_lt; unfold len_list; cbn [length]; lia).
      change (join (py "|") (b :: b' :: outs'))
        with (b ++ py "|" ++ join (py "|") (b' :: outs')).
      now rewrite <- !app_assoc.
Qed.

Lemma render_struct (members : list (pystr * ty)) :
  render (Struct members) =
  py "struct<" ++ join (py ",") (List.map member_text members) ++ py ">".
Proof. reflexivity. Qed.

Lemma literal_struct (members : list (pystr * ty)) :
  literal (Struct members) =
  py "Type':'struct'|'Fields':[" ++ join (py "|") (List.map member_literal members)
  ++ py "]".
Proof. reflexivity. Qed.

Lemma well_formed_struct (members : list (pystr * ty)) :
  well_formed (Struct members) = true ->
  members <> []
  /\ forall nt, In nt members ->
       identifier (fst nt) = true /\ well_formed (snd nt) = true.
Proof.
  cbn [well_formed]. destruct members as [|m members]; [discriminate|].
  intros H. split; [discriminate|]. intros nt Hin.
  rewrite forallb_forall in H. apply andb_true_iff. now apply H.
Qed.

Lemma identifier_free (n : pystr) (c : ascii) :
  identifier n = true -> plain_char c = false -> ~ In c n.
Proof.
  unfold identifier. rewrite forallb_forall. intros H Hc Hin.
  rewrite (H c Hin) in Hc. discriminate.
Qed.

Ltac not_in_text H :=
  cbn in H; repeat (destruct H as [H|H]; [discriminate H|]); exact H.

(** The characters of the notation do not occur in a literal. *)
Lemma literal_free (c : ascii) (t : ty) :
  c = "<"%char \/ c = ">"%char \/ c = ","%char ->
  well_formed t = true -> ~ In c (literal t).
Proof.
  intros Hc. assert (Hp : plain_char c = false)
    by (destruct Hc as [->|[->| ->]]; reflexivity).
  induction t as [name|element IH|members IH] using ty_induction; intros Hwf Hin.
  - cbn [literal] in Hin. cbn [well_formed] in Hwf.
    apply in_app_or in Hin as [Hin|Hin];
      [destruct Hc as [->|[->| ->]]; not_in_text Hin|].
    apply in_app_or in Hin as [Hin|Hin];
      [exact (identifier_free _ _ Hwf Hp Hin)|].
    destruct Hc as [->|[->| ->]]; not_in_text Hin.
  - cbn [literal] in Hin. cbn [well_formed] in Hwf.
    apply in_app_or in Hin as [Hin|Hin];
      [destruct Hc as [->|[->| ->]]; not_in_text Hin|].
    apply in_app_or in Hin as [Hin|Hin]; [now apply IH|].
    destruct Hc as [->|[->| ->]]; not_in_text Hin.
  - rewrite literal_struct in Hin.
    apply well_formed_struct in Hwf as [_ Hwf].
    apply in_app_or in Hin as [Hin|Hin];
      [destruct Hc as [->|[->| ->]]; not_in_text Hin|].
    apply in_app_or in Hin as [Hin|Hin];
      [|destruct Hc as [->|[->| ->]]; not_in_text Hin].
    apply in_join in Hin as [Hin|(x & Hx & Hin)];
      [destruct Hc as [->|[->| ->]]; not_in_text Hin|].
    apply in_map_iff in Hx as (nt & <- & Hnt).
    destruct (Hwf nt Hnt) as [Hid Hwt].
    rewrite List.Forall_forall in IH. specialize (IH nt Hnt).
    unfold member_literal in Hin. destruct (snd nt) as [name|element|ms] eqn:E.
    + cbn [well_formed] in Hwt.
      apply in_app_or in Hin as [Hin|Hin];
        [destruct Hc as [->|[->| ->]]; not_in_text Hin|].
      apply in_app_or in Hin as [Hin|Hin];
        [exact (identifier_free _ _ Hid Hp Hin)|].
      apply in_app_or in Hin as [Hin|Hin];
        [destruct Hc as [->|[->| ->]]; not_in_text Hin|].
      apply in_app_or in Hin as [Hin|Hin];
        [exact (identifier_free _ _ Hwt Hp Hin)|].
      destruct Hc as [->|[->| ->]]; not_in_text Hin.
    + apply in_app_or in Hin as [Hin|Hin];
        [destruct Hc as [->|[->| ->]]; not_in_text Hin|].
      apply in_app_or in Hin as [Hin|Hin];
        [exact (identifier_free _ _ Hid Hp Hin)|].
      apply in_app_or in Hin as [Hin|Hin];
        [destruct Hc as [->|[->| ->]]; not_in_text Hin|].
      apply in_app_or in Hin as [Hin|Hin]; [now apply IH|].
      destruct Hc as [->|[->| ->]]; not_in_text Hin.
    + apply in_app_or in Hin as [Hin|Hin];
        [destruct Hc as [->|[->| ->]]; not_in_text Hin|].
      apply in_app_or in Hin as [Hin|Hin];
        [exact (identifier_free _ _ Hid Hp Hin)|].
      apply in_app_or in Hin as [Hin|Hin];
        [destruct Hc as [->|[->| ->]]; not_in_text Hin|].
      apply in_app_or in Hin as [Hin|Hin]; [now apply IH|].
      destruct Hc as [->|[->| ->]]; not_in_text Hin.
Qed.

Lemma rewritten_free (c : ascii) (t : ty) :
  c = "<"%char \/ c = ">"%char \/ c = ","%char ->
  well_formed t = true -> ~ In c (rewritten t).
Proof.
  intros Hc Hwf. assert (Hp : plain_char c = false)
    by (destruct Hc as [->|[->| ->]]; reflexivity).
  pose proof (literal_free c t Hc Hwf) as Hl.
  destruct t; cbn [rewritten].
  - now apply identifier_free.
  - intros [<-|H]; [destruct Hc as [?|[?|?]]; discriminate|auto].
  - intros [<-|H]; [destruct Hc as [?|[?|?]]; discriminate|auto].
Qed.

Lemma member_rewritten_free (c : ascii) (nt : pystr * ty) :
  c = "<"%char \/ c = ">"%char \/ c = ","%char ->
  identifier (fst nt) = true -> well_formed (snd nt) = true ->
  ~ In c (member_rewritten nt).
Proof.
  intros Hc Hid Hwf Hin. assert (Hp : plain_char c = false)
    by (destruct Hc as [->|[->| ->]]; reflexivity).
  unfold member_rewritten in Hin.
  apply in_app_or in Hin as [Hin|Hin]; [exact (identifier_free _ _ Hid Hp Hin)|].
  apply in_app_or in Hin as [Hin|Hin];
    [destruct Hc as [->|[->| ->]]; not_in_text Hin|].
  exact (rewritten_free c _ Hc Hwf Hin).
Qed.

Lemma members_rewritten_free (c : ascii) (members : list (pystr * ty)) :
  c = "<"%char \/ c = ">"%char ->
  (forall nt, In nt members ->
     identifier (fst nt) = true /\ well_formed (snd nt) = true) ->
  ~ In c (join (py ",") (List.map member_rewritten members)).
Proof.
  intros Hc Hwf Hin.
  apply in_join in Hin as [Hin|(x & Hx & Hin)];
    [destruct Hc as [->| ->]; not_in_text Hin|].
  apply in_map_iff in Hx as (nt & <- & Hnt).
  destruct (Hwf nt Hnt) as [Hid Hwt].
  apply (member_rewritten_free c nt); auto. tauto.
Qed.

Lemma literal_colon (t : ty) :
  match t with Scalar _ => True | _ => (1 <= count (literal t) ":")%nat end.
Proof.
  destruct t as [name|element|members]; [exact I| |].
  - cbn [literal]. rewrite count_app. cbn. lia.
  - rewrite literal_struct, count_app. cbn. lia.
Qed.

(** The literal the loop writes for a struct member whose own brackets
    are rewritten. *)
Lemma fileds_to_add_member (nt : pystr * ty) :
  identifier (fst nt) = true -> well_formed (snd nt) = true ->
  fileds_to_add (member_rewritten nt) = Ok (member_literal nt).
Proof.
  destruct nt as [n t]. cbn [fst snd]. intros Hid Hwf.
  assert (Hn : ~ In ":"%char n) by now apply identifier_free.
  unfold fileds_to_add, member_rewritten, member_literal. cbn [fst snd].
  change (n ++ py ":" ++ rewritten t) with (n ++ ":"%char :: rewritten t).
  rewrite count_app, (count_none n) by exact Hn. cbn [count Nat.add].
  rewrite Ascii.eqb_refl.
  destruct t as [name|element|members].
  - cbn [rewritten well_formed] in *.
    assert (Hname : ~ In ":"%char name) by now apply identifier_free.
    rewrite (count_none name) by exact Hname. cbn [Nat.eqb].
    unfold split. rewrite split_from_sep by exact Hn.
    rewrite split_from_plain by exact Hname. reflexivity.
  - pose proof (literal_colon (Array element)) as Hc.
    cbn [rewritten count]. change (Ascii.eqb "'" ":") with false. cbv iota.
    destruct (count (literal (Array element)) ":") as [|k] eqn:E; [lia|].
    cbn [Nat.eqb]. rewrite find_first by exact Hn.
    rewrite slice_to_prefix.
    replace (len n + 1) with (len (n ++ [":"%char]))
      by (unfold len; rewrite length_app; cbn [length]; lia).
    replace (n ++ ":"%char :: "'"%char :: literal (Array element))
      with ((n ++ [":"%char]) ++ "'"%char :: literal (Array element))
      by now rewrite <- app_assoc.
    rewrite slice_from_app. reflexivity.
  - pose proof (literal_colon (Struct members)) as Hc.
    cbn [rewritten count]. change (Ascii.eqb "'" ":") with false. cbv iota.
    destruct (count (literal (Struct members)) ":") as [|k] eqn:E; [lia|].
    cbn [Nat.eqb]. rewrite find_first by exact Hn.
    rewrite slice_to_prefix.
    replace (len n + 1) with (len (n ++ [":"%char]))
      by (unfold len; rewrite length_app; cbn [length]; lia).
    replace (n ++ ":"%char :: "'"%char :: literal (Struct members))
      with ((n ++ [":"%char]) ++ "'"%char :: literal (Struct members))
      by now rewrite <- app_assoc.
    rewrite slice_from_app. reflexivity.
Qed.

Lemma for_range_add (a b : nat) (f : pystr -> res pystr) (s : pystr) :
  for_range (a + b) f s = let* s' := for_range a f s in for_range b f s'.
Proof.
  revert s. induction a as [|a IH]; intros s; cbn [Nat.add for_range bind];
    [reflexivity|].
  destruct (f s) as [s'|e]; cbn [bind]; [apply IH|reflexivity].
Qed.

Lemma boundary_app (a b : pystr) :
  b <> [] -> boundary (a ++ b) = boundary b.
Proof.
  intros Hb. unfold boundary. rewrite rev_app_distr.
  destruct (rev b) as [|c l] eqn:E; [|reflexivity].
  apply (f_equal (@length ascii)) in E. rewrite length_rev in E.
  destruct b; [congruence|discriminate].
Qed.

Lemma identifier_not_type (n : pystr) :
  identifier n = true -> startswith n (py "'Type'") = false.
Proof.
  destruct n as [|c n]; [reflexivity|]. cbn [identifier forallb].
  intros H. apply andb_true_iff in H as [H _].
  cbn [py list_ascii_of_string startswith].
  destruct (Ascii.eqb "'" c) eqn:E; [|reflexivity].
  apply Ascii.eqb_eq in E. subst c. discriminate H.
Qed.

Lemma rewrite_members (members : list (pystr * ty)) :
  Forall (fun nt => well_formed (snd nt) = true -> normalizes (snd nt)) members ->
  (forall nt, In nt members ->
     identifier (fst nt) = true /\ well_formed (snd nt) = true) ->
  forall pre post, ~ In "<"%char post ->
    for_range (list_sum (List.map (fun nt => brackets (snd nt)) members))
      rewrite_innermost
      (pre ++ join (py ",") (List.map member_text members) ++ post) =
    Ok (pre ++ join (py ",") (List.map member_rewritten members) ++ post).
Proof.
  induction members as [|[n t] members IH]; intros HP Hwf pre post Hpost;
    [reflexivity|].
  inversion HP as [|? ? Ht Hrest]; subst. cbn [snd] in Ht.
  destruct (Hwf (n, t) ltac:(now left)) as [Hid Hwt]. cbn [fst snd] in Hid, Hwt.
  assert (Hwf' : forall nt, In nt members ->
            identifier (fst nt) = true /\ well_formed (snd nt) = true)
    by (intros nt Hnt; apply Hwf; now right).
  cbn [List.map snd].
  change (list_sum (brackets t :: ?l)) with (brackets t + list_sum l)%nat.
  destruct members as [|m members].
  - cbn [List.map join]. change (list_sum []) with O. rewrite Nat.add_0_r.
    unfold member_text, member_rewritten. cbn [fst snd].
    rewrite <- !app_assoc, !(app_assoc pre n), !(app_assoc (pre ++ n) (py ":")).
    apply (Ht Hwt); [|exact Hpost].
    rewrite boundary_app by discriminate. reflexivity.
  - change (join (py ",") (member_text (n, t) :: List.map member_text (m :: members)))
      with (member_text (n, t) ++ py ","
            ++ join (py ",") (List.map member_text (m :: members))).
    change (join (py ",")
              (member_rewritten (n, t) :: List.map member_rewritten (m :: members)))
      with (member_rewritten (n, t) ++ py ","
            ++ join (py ",") (List.map member_rewritten (m :: members))).
    rewrite Nat.add_comm, for_range_add.
    replace (pre ++ (member_text (n, t) ++ py ","
                     ++ join (py ",") (List.map member_text (m :: members))) ++ post)
      with ((pre ++ member_text (n, t) ++ py ",")
            ++ join (py ",") (List.map member_text (m :: members)) ++ post)
      by (rewrite <- !app_assoc; reflexivity).
    rewrite (IH Hrest Hwf' _ post Hpost). cbn [bind].
    unfold member_text, member_rewritten at 2. cbn [fst snd].
    replace ((pre ++ (n ++ py ":" ++ render t) ++ py ",")
             ++ join (py ",") (List.map member_rewritten (m :: members)) ++ post)
      with (((pre ++ n) ++ py ":") ++ render t
            ++ (py "," ++ join (py ",") (List.map member_rewritten (m :: members))
                ++ post))
      by (rewrite <- !app_assoc; reflexivity).
    rewrite (Ht Hwt).
    + rewrite <- !app_assoc. reflexivity.
    + rewrite boundary_app by discriminate. reflexivity.
    + intros Hin. apply in_app_or in Hin as [Hin|Hin]; [not_in_text Hin|].
      apply in_app_or in Hin as [Hin|Hin]; [|auto].
      apply (members_rewritten_free "<" (m :: members)); auto.
Qed.

(** The loop turns the text of a well-formed type into its literal. *)
Lemma well_formed_normalizes (t : ty) : well_formed t = true -> normalizes t.
Proof.
  induction t as [name|element IH|members IH] using ty_induction;
    intros Hwf pre post Hpre Hpost.
  - reflexivity.
  - cbn [well_formed] in Hwf. cbn [brackets render].
    replace (S (brackets element)) with (brackets element + 1)%nat by lia.
    rewrite for_range_add.
    replace (pre ++ (py "array<" ++ render element ++ py ">") ++ post)
      with ((pre ++ py "array<") ++ render element ++ (py ">" ++ post))
      by (rewrite <- !app_assoc; reflexivity).
    rewrite (IH Hwf).
    + cbn [bind for_range]. rewrite <- !app_assoc.
      rewrite rewrite_array; auto using rewritten_free.
      cbn [bind]. f_equal. f_equal.
      destruct element as [name| |].
      * cbn [rewritten well_formed literal] in *.
        rewrite identifier_not_type by exact Hwf.
        rewrite <- ?app_assoc. cbn [py list_ascii_of_string app].
        rewrite <- ?app_assoc. reflexivity.
      * reflexivity.
      * reflexivity.
    + rewrite boundary_app by discriminate. reflexivity.
    + intros [H|H]; [discriminate H|auto].
  - pose proof (well_formed_struct _ Hwf) as [Hne Hms].
    cbn [brackets]. rewrite render_struct.
    replace (S (list_sum (List.map (fun nt => brackets (snd nt)) members)))
      with (list_sum (List.map (fun nt => brackets (snd nt)) members) + 1)%nat by lia.
    rewrite for_range_add.
    replace (pre ++ (py "struct<" ++ join (py ",") (List.map member_text members)
                     ++ py ">") ++ post)
      with ((pre ++ py "struct<") ++ join (py ",") (List.map member_text members)
            ++ (py ">" ++ post))
      by (rewrite <- !app_assoc; reflexivity).
    rewrite (rewrite_members members IH Hms).
    + cbn [bind for_range]. rewrite <- !app_assoc.
      rewrite rewrite_struct; auto using members_rewritten_free.
      change (py ",") with [","%char]. rewrite split_join.
      * rewrite <- (Z.add_0_l (len_list (List.map member_rewritten members))).
        rewrite (struct_fields_join _ (List.map member_literal members)).
        -- reflexivity.
        -- clear - Hms. induction members as [|nt members IHm]; constructor.
           ++ apply fileds_to_add_member; apply Hms; now left.
           ++ apply IHm. intros; apply Hms; now right.
      * destruct members; [congruence|discriminate].
      * intros x Hx. apply in_map_iff in Hx as (nt & <- & Hnt).
        destruct (Hms nt Hnt). apply member_rewritten_free; auto.
    + intros [H|H]; [discriminate H|auto].
Qed.

Lemma count_join_free (sep : pystr) (l : list pystr) (c : ascii) :
  count sep c = O ->
  count (join sep l) c = list_sum (List.map (fun x => count x c) l).
Proof.
  intros Hsep. induction l as [|x l IH]; [reflexivity|].
  cbn [List.map].
  change (list_sum (count x c :: ?r)) with (count x c + list_sum r)%nat.
  destruct l as [|y l].
  - cbn [join List.map]. change (list_sum []) with O. lia.
  - change (join sep (x :: y :: l)) with (x ++ sep ++ join sep (y :: l)).
    rewrite !count_app, Hsep, IH. reflexivity.
Qed.

Lemma count_render (t : ty) :
  well_formed t = true -> count (render t) "<" = brackets t.
Proof.
  induction t as [name|element IH|members IH] using ty_induction; intros Hwf.
  - cbn [render brackets]. apply count_none. now apply identifier_free.
  - cbn [render brackets well_formed] in *.
    rewrite !count_app, (IH Hwf). cbn. lia.
  - apply well_formed_struct in Hwf as [_ Hms].
    rewrite render_struct. cbn [brackets].
    rewrite !count_app, count_join_free by reflexivity.
    rewrite List.map_map. cbn [count py list_ascii_of_string].
    change (Ascii.eqb ">" "<") with false. cbv iota.
    replace (count (py "struct<") "<") with 1%nat by reflexivity.
    rewrite Nat.add_0_r. cbn [Nat.add]. f_equal. f_equal.
    apply map_ext_in. intros nt Hnt. destruct (Hms nt Hnt) as [Hid Hwt].
    rewrite List.Forall_forall in IH. unfold member_text.
    rewrite !count_app, (IH nt Hnt Hwt).
    rewrite (count_none (fst nt)) by now apply identifier_free. reflexivity.
Qed.

(** The loop of [generate_sub_fields] ends with the literal of the type. *)
Lemma loop_on_grammar (t : ty) :
  well_formed t = true ->
  for_range (count (render t) "<") rewrite_innermost (render t) = Ok (rewritten t).
Proof.
  intros Hwf. rewrite count_render by exact Hwf.
  pose proof (well_formed_normalizes t Hwf [] [] eq_refl ltac:(intros [])) as H.
  cbn [app] in H. now rewrite !app_nil_r in H.
Qed.

(** ** The decoder on the literals *)

Lemma jsonify_app (a b : pystr) : jsonify (a ++ b) = jsonify a ++ jsonify b.
Proof. unfold jsonify, replace. now rewrite !List.map_app. Qed.

Lemma plain_char_spec (c : ascii) :
  plain_char c = true ->
  Ascii.eqb c dquote = false /\ Ascii.eqb c "\" = false
  /\ Ascii.eqb c "|" = false /\ Ascii.eqb c "'" = false
  /\ Nat.ltb (nat_of_ascii c) 32 = false.
Proof.
  unfold plain_char. rewrite !andb_true_iff, !negb_true_iff.
  intros [[H1 H2] H3]. cbn [py list_ascii_of_string existsb] in H1.
  rewrite !orb_false_iff in H1.
  destruct H1 as (_ & _ & _ & _ & Hbar & Hquote & Hback & _).
  repeat split; auto.
  apply Nat.ltb_ge. now apply Nat.leb_le.
Qed.

Lemma jsonify_identifier (n : pystr) : identifier n = true -> jsonify n = n.
Proof.
  unfold identifier, jsonify, replace. rewrite List.map_map.
  induction n as [|c n IH]; cbn [forallb List.map]; [reflexivity|].
  rewrite andb_true_iff. intros [Hc Hn].
  destruct (plain_char_spec c Hc) as (_ & _ & Hbar & Hquote & _).
  rewrite Hbar, Hquote, IH by exact Hn. reflexivity.
Qed.

Lemma scanstring_identifier (n rest acc : pystr) :
  identifier n = true ->
  Json.scanstring (n ++ dquote :: rest) acc = Ok (rev acc ++ n, rest).
Proof.
  revert acc. induction n as [|c n IH]; intros acc; cbn [identifier forallb]; intros H.
  - cbn [app Json.scanstring]. rewrite Ascii.eqb_refl. now rewrite app_nil_r.
  - apply andb_true_iff in H as [Hc Hn].
    destruct (plain_char_spec c Hc) as (Hd & Hb & _ & _ & Hl).
    cbn [app Json.scanstring]. rewrite Hd, Hb, Hl.
    rewrite IH by exact Hn. cbn [rev]. now rewrite <- app_assoc.
Qed.

Lemma dict_set_fresh {V : Type} (d : dict V) (k : pystr) (v : V) :
  dict_get d k = None -> dict_set d k v = d ++ [(k, v)].
Proof.
  induction d as [|[k' v'] d IH]; cbn [dict_get dict_set app]; [reflexivity|].
  destruct (str_eqb k' k); [discriminate|]. intros H. now rewrite IH.
Qed.

Lemma dict_get_app {V : Type} (d e : dict V) (k : pystr) :
  dict_get (d ++ e) k =
  match dict_get d k with
  | Some v => Some v
  | None => dict_get e k
  end.
Proof.
  induction d as [|[k' v'] d IH]; cbn [dict_get app]; [reflexivity|].
  now destruct (str_eqb k' k).
Qed.

Lemma length_jsonify (s : pystr) : length (jsonify s) = length s.
Proof. unfold jsonify, replace. now rewrite !length_map. Qed.

(** a value that is a string *)
Lemma parse_string (fuel : nat) (n rest : pystr) :
  identifier n = true ->
  Json.parse_value (S fuel) (dquote :: n ++ dquote :: rest) = Ok (PStr n, rest).
Proof.
  intros Hn. cbn [Json.parse_value].
  change (Ascii.eqb dquote dquote) with true. cbv iota.
  now rewrite scanstring_identifier.
Qed.

(** a value that is an object with a first key *)
Lemma parse_object (fuel : nat) (s : pystr) :
  Json.parse_value (S fuel) ("{"%char :: dquote :: s) = Json.parse_members fuel s [].
Proof. reflexivity. Qed.

(** a value that is an array with a first element *)
Lemma parse_array (fuel : nat) (s : pystr) :
  Json.parse_value (S fuel) ("["%char :: "{"%char :: s) =
  Json.parse_elements fuel ("{"%char :: s) [].
Proof. reflexivity. Qed.

(** a member that is not the last *)
Lemma parse_member_more (fuel : nat) (key vtext more : pystr) (pairs : dict pyval)
    (value : pyval) :
  identifier key = true ->
  Json.parse_value fuel (Json.skip_ws vtext) = Ok (value, ","%char :: dquote :: more) ->
  Json.parse_members (S fuel) (key ++ dquote :: ":"%char :: vtext) pairs =
  Json.parse_members fuel more (dict_set pairs key value).
Proof.
  intros Hkey Hvalue. cbn [Json.parse_members].
  rewrite scanstring_identifier by exact Hkey. cbn [bind rev app].
  change (Json.skip_ws (":"%char :: vtext)) with (":"%char :: vtext). cbv iota.
  change (Ascii.eqb ":" ":") with true. cbv iota.
  rewrite Hvalue. cbn [bind]. reflexivity.
Qed.

(** the last member *)
Lemma parse_member_last (fuel : nat) (key vtext rest : pystr) (pairs : dict pyval)
    (value : pyval) :
  identifier key = true ->
  Json.parse_value fuel (Json.skip_ws vtext) = Ok (value, "}"%char :: rest) ->
  Json.parse_members (S fuel) (key ++ dquote :: ":"%char :: vtext) pairs =
  Ok (PDict (dict_set pairs key value), rest).
Proof.
  intros Hkey Hvalue. cbn [Json.parse_members].
  rewrite scanstring_identifier by exact Hkey. cbn [bind rev app].
  change (Json.skip_ws (":"%char :: vtext)) with (":"%char :: vtext). cbv iota.
  change (Ascii.eqb ":" ":") with true. cbv iota.
  rewrite Hvalue. cbn [bind]. reflexivity.
Qed.

(** an element that is not the last *)
Lemma parse_element_more (fuel : nat) (s more : pystr) (values : list pyval)
    (value : pyval) :
  Json.parse_value fuel s = Ok (value, ","%char :: "{"%char :: more) ->
  Json.parse_elements (S fuel) s values =
  Json.parse_elements fuel ("{"%char :: more) (value :: values).
Proof. intros H. cbn [Json.parse_elements]. rewrite H. reflexivity. Qed.

(** the last element *)
Lemma parse_element_last (fuel : nat) (s rest : pystr) (values : list pyval)
    (value : pyval) :
  Json.parse_value fuel s = Ok (value, "]"%char :: rest) ->
  Json.parse_elements (S fuel) s values = Ok (PList (rev (value :: values)), rest).
Proof. intros H. cbn [Json.parse_elements]. rewrite H. reflexivity. Qed.

Lemma fresh_nil : fresh [].
Proof. repeat split. Qed.

Lemma parses_scalar (name : pystr) : identifier name = true -> parses (Scalar name).
Proof.
  intros Hid fuel rest pairs (Ht & Hi & Hf) Hfuel.
  assert (Htext : jsonify (literal (Scalar name)) ++ "}"%char :: rest =
                  py "Type" ++ dquote :: ":"%char
                  :: (dquote :: name ++ dquote :: "}"%char :: rest)).
  { cbn [literal]. rewrite !jsonify_app, (jsonify_identifier name Hid).
    rewrite <- !app_assoc. reflexivity. }
  rewrite Htext in *. clear Htext.
  rewrite length_app in Hfuel. cbn [py list_ascii_of_string length] in Hfuel.
  destruct fuel as [|[|fuel]]; try lia.
  rewrite (parse_member_last _ _ _ rest _ (PStr name)).
  - cbn [entries]. now rewrite dict_set_fresh.
  - reflexivity.
  - change (Json.skip_ws (dquote :: ?x)) with (dquote :: x).
    now apply parse_string.
Qed.

Lemma parses_array (element : ty) : parses element -> parses (Array element).
Proof.
  intros IH fuel rest pairs (Ht & Hi & Hf) Hfuel.
  assert (Htext : jsonify (literal (Array element)) ++ "}"%char :: rest =
                  py "Type" ++ dquote :: ":"%char
                  :: (dquote :: py "array" ++ dquote :: ","%char :: dquote
                      :: (py "Items" ++ dquote :: ":"%char
                          :: ("{"%char :: dquote
                              :: (jsonify (literal element)
                                  ++ "}"%char :: "}"%char :: rest))))).
  { cbn [literal]. rewrite !jsonify_app. rewrite <- !app_assoc. reflexivity. }
  rewrite Htext in *. clear Htext.
  cbn [py list_ascii_of_string app length] in Hfuel.
  rewrite length_app in Hfuel. cbn [length] in Hfuel.
  destruct fuel as [|[|[|fuel]]]; try lia.
  rewrite (parse_member_more _ _ _
             (py "Items" ++ dquote :: ":"%char
              :: ("{"%char :: dquote
                  :: (jsonify (literal element) ++ "}"%char :: "}"%char :: rest)))
             _ (PStr (py "array")));
    [|reflexivity|apply (parse_string _ (py "array")); reflexivity].
  rewrite (parse_member_last _ _ _ rest _ (PDict (entries element))).
  - cbn [entries]. rewrite (dict_set_fresh pairs) by exact Ht.
    rewrite dict_set_fresh by (rewrite dict_get_app, Hi; reflexivity).
    now rewrite <- app_assoc.
  - reflexivity.
  - change (Json.skip_ws ("{"%char :: ?x)) with ("{"%char :: x).
    rewrite parse_object.
    apply (IH fuel ("}"%char :: rest) [] fresh_nil).
    rewrite length_app. cbn [length]. lia.
Qed.

Lemma jsonify_join (l : list pystr) :
  jsonify (join (py "|") l) = join (py ",") (List.map jsonify l).
Proof.
  induction l as [|x l IH]; [reflexivity|].
  destruct l as [|y l]; [reflexivity|].
  change (join (py "|") (x :: y :: l)) with (x ++ py "|" ++ join (py "|") (y :: l)).
  rewrite !jsonify_app, IH. reflexivity.
Qed.

Lemma member_text_head (nt : pystr * ty) :
  exists body, jsonify (member_literal nt) = "{"%char :: dquote :: body.
Proof.
  unfold member_literal. destruct (snd nt); rewrite jsonify_app; eexists; reflexivity.
Qed.

Lemma parse_member_literal (nt : pystr * ty) (fuel : nat) (after : pystr) :
  identifier (fst nt) = true -> well_formed (snd nt) = true -> parses (snd nt) ->
  (2 * length (jsonify (member_literal nt) ++ after) < fuel)%nat ->
  Json.parse_value fuel (jsonify (member_literal nt) ++ after) =
  Ok (member_entry nt, after).
Proof.
  destruct nt as [n t]. cbn [fst snd]. intros Hn Ht IH Hfuel.
  unfold member_entry. cbn [fst snd].
  assert (Hcomposite :
    jsonify (py "{'Name':'" ++ n ++ py "'|'" ++ literal t ++ py "}") ++ after =
    "{"%char :: dquote
    :: (py "Name" ++ dquote :: ":"%char
        :: (dquote :: n ++ dquote :: ","%char :: dquote
            :: (jsonify (literal t) ++ "}"%char :: after))) ->
    (2 * length (jsonify (py "{'Name':'" ++ n ++ py "'|'" ++ literal t ++ py "}")
                 ++ after) < fuel)%nat ->
    Json.parse_value fuel
      (jsonify (py "{'Name':'" ++ n ++ py "'|'" ++ literal t ++ py "}") ++ after) =
    Ok (PDict ((py "Name", PStr n) :: entries t), after)).
  { intros Htext Hlen. rewrite Htext in *. clear Htext.
    cbn [py list_ascii_of_string app length] in Hlen.
    rewrite length_app in Hlen. cbn [length] in Hlen.
    destruct fuel as [|[|[|fuel]]]; try lia.
    rewrite parse_object.
    rewrite (parse_member_more _ _ _ (jsonify (literal t) ++ "}"%char :: after)
               _ (PStr n));
      [|reflexivity
       |change (Json.skip_ws (dquote :: ?x)) with (dquote :: x);
        now apply parse_string].
    apply (IH _ after).
    - repeat split.
    - lia. }
  unfold member_literal in *. cbn [fst snd] in *.
  destruct t as [name|element|members].
  - assert (Htext :
      jsonify (py "{'Name': '" ++ n ++ py "'|'Type': '" ++ name ++ py "'}") ++ after =
      "{"%char :: dquote
      :: (py "Name" ++ dquote :: ":"%char
          :: (" "%char :: dquote :: n ++ dquote :: ","%char :: dquote
              :: (py "Type" ++ dquote :: ":"%char
                  :: (" "%char :: dquote :: name ++ dquote :: "}"%char :: after))))).
    { rewrite !jsonify_app, (jsonify_identifier n Hn), (jsonify_identifier name Ht).
      rewrite <- !app_assoc. reflexivity. }
    rewrite Htext in *. clear Htext.
    cbn [py list_ascii_of_string app length] in Hfuel.
    rewrite length_app in Hfuel. cbn [length] in Hfuel.
    destruct fuel as [|[|[|[|fuel]]]]; try lia.
    rewrite parse_object.
    rewrite (parse_member_more _ _ _
               (py "Type" ++ dquote :: ":"%char
                :: (" "%char :: dquote :: name ++ dquote :: "}"%char :: after))
               _ (PStr n));
      [|reflexivity
       |change (Json.skip_ws (" "%char :: dquote :: ?x)) with (dquote :: x);
        now apply parse_string].
    rewrite (parse_member_last _ _ _ after _ (PStr name));
      [reflexivity|reflexivity|].
    change (Json.skip_ws (" "%char :: dquote :: ?x)) with (dquote :: x).
    now apply parse_string.
  - apply Hcomposite; [|exact Hfuel].
    rewrite !jsonify_app, (jsonify_identifier n Hn).
    rewrite <- !app_assoc. reflexivity.
  - apply Hcomposite; [|exact Hfuel].
    rewrite !jsonify_app, (jsonify_identifier n Hn).
    rewrite <- !app_assoc. reflexivity.
Qed.

Lemma parse_member_literals (members : list (pystr * ty)) :
  members <> [] ->
  (forall nt, In nt members ->
     identifier (fst nt) = true /\ well_formed (snd nt) = true /\ parses (snd nt)) ->
  forall fuel rest values,
    (2 * length (join (py ",") (List.map (fun nt => jsonify (member_literal nt)) members)
                 ++ "]"%char :: rest) + 1 < fuel)%nat ->
    Json.parse_elements fuel
      (join (py ",") (List.map (fun nt => jsonify (member_literal nt)) members)
       ++ "]"%char :: rest) values =
    Ok (PList (rev values ++ List.map member_entry members), rest).
Proof.
  induction members as [|m members IH]; [congruence|]. intros _ Hall.
  destruct (Hall m (or_introl eq_refl)) as (Hn & Ht & Hp).
  destruct members as [|m' members]; intros fuel rest values Hfuel.
  - cbn [List.map join] in *.
    destruct fuel as [|fuel]; [lia|].
    rewrite (parse_element_last _ _ rest _ (member_entry m)).
    + reflexivity.
    + apply parse_member_literal; [exact Hn|exact Ht|exact Hp|lia].
  - change (join (py ",") (List.map (fun nt => jsonify (member_literal nt))
                             (m :: m' :: members)))
      with (jsonify (member_literal m) ++ py "," ++
            join (py ",") (List.map (fun nt => jsonify (member_literal nt))
                             (m' :: members))) in *.
    destruct (member_text_head m') as [body Hbody].
    assert (Hnext : exists more,
      join (py ",") (List.map (fun nt => jsonify (member_literal nt)) (m' :: members))
      ++ "]"%char :: rest = "{"%char :: more).
    { destruct members as [|m'' members].
      - cbn [List.map join]. rewrite Hbody. eexists. reflexivity.
      - change (join (py ",") (List.map (fun nt => jsonify (member_literal nt))
                                 (m' :: m'' :: members)))
          with (jsonify (member_literal m') ++ py "," ++
                join (py ",") (List.map (fun nt => jsonify (member_literal nt))
                                 (m'' :: members))).
        rewrite Hbody. eexists. reflexivity. }
    destruct Hnext as [more Hmore].
    assert (Htext :
      (jsonify (member_literal m) ++ py "," ++
       join (py ",") (List.map (fun nt => jsonify (member_literal nt)) (m' :: members)))
      ++ "]"%char :: rest =
      jsonify (member_literal m) ++ ","%char :: "{"%char :: more).
    { rewrite <- Hmore, <- !app_assoc. reflexivity. }
    rewrite Htext in *. clear Htext.
    destruct fuel as [|fuel]; [lia|].
    rewrite (parse_element_more _ _ more _ (member_entry m)).
    + rewrite <- Hmore. rewrite IH.
      * cbn [rev List.map]. now rewrite <- app_assoc.
      * discriminate.
      * intros nt Hin. apply Hall. now right.
      * rewrite Hmore. rewrite length_app in Hfuel. cbn [length] in *. lia.
    + apply parse_member_literal; [exact Hn|exact Ht|exact Hp|lia].
Qed.

Lemma parses_struct (members : list (pystr * ty)) :
  members <> [] ->
  (forall nt, In nt members ->
     identifier (fst nt) = true /\ well_formed (snd nt) = true /\ parses (snd nt)) ->
  parses (Struct members).
Proof.
  intros Hne Hall fuel rest pairs (Ht & Hi & Hf) Hfuel.
  assert (Hhead : exists more,
    join (py ",") (List.map (fun nt => jsonify (member_literal nt)) members)
    ++ "]"%char :: "}"%char :: rest = "{"%char :: more).
  { destruct members as [|m members]; [congruence|].
    destruct (member_text_head m) as [body Hbody].
    destruct members as [|m' members].
    - cbn [List.map join]. rewrite Hbody. eexists. reflexivity.
    - change (join (py ",") (List.map (fun nt => jsonify (member_literal nt))
                               (m :: m' :: members)))
        with (jsonify (member_literal m) ++ py "," ++
              join (py ",") (List.map (fun nt => jsonify (member_literal nt))
                               (m' :: members))).
      rewrite Hbody. eexists. reflexivity. }
  destruct Hhead as [more Hmore].
  assert (Htext : jsonify (literal (Struct members)) ++ "}"%char :: rest =
                  py "Type" ++ dquote :: ":"%char
                  :: (dquote :: py "struct" ++ dquote :: ","%char :: dquote
                      :: (py "Fields" ++ dquote :: ":"%char
                          :: ("["%char :: "{"%char :: more)))).
  { rewrite literal_struct, !jsonify_app, jsonify_join, List.map_map.
    rewrite <- Hmore, <- !app_assoc. reflexivity. }
  rewrite Htext in *. clear Htext.
  cbn [py list_ascii_of_string app length] in Hfuel.
  destruct fuel as [|[|[|[|fuel]]]]; try lia.
  rewrite (parse_member_more _ _ _
             (py "Fields" ++ dquote :: ":"%char
              :: ("["%char :: "{"%char :: more))
             _ (PStr (py "struct")));
    [|reflexivity|apply (parse_string _ (py "struct")); reflexivity].
  rewrite (parse_member_last _ _ _ rest _ (PList (List.map member_entry members))).
  - cbn [entries]. rewrite (dict_set_fresh pairs) by exact Ht.
    rewrite dict_set_fresh by (rewrite dict_get_app, Hf; reflexivity).
    now rewrite <- app_assoc.
  - reflexivity.
  - change (Json.skip_ws ("["%char :: ?x)) with ("["%char :: x).
    rewrite parse_array, <- Hmore.
    rewrite parse_member_literals; [reflexivity|exact Hne|exact Hall|].
    rewrite Hmore. cbn [length]. lia.
Qed.

Lemma well_formed_parses (t : ty) : well_formed t = true -> parses t.
Proof.
  induction t as [name|element IH|members IH] using ty_induction; intros Hwf.
  - now apply parses_scalar.
  - apply parses_array, IH, Hwf.
  - destruct (well_formed_struct members Hwf) as [Hne Hall].
    apply parses_struct; [exact Hne|].
    intros nt Hin. destruct (Hall nt Hin) as [Hn Ht].
    repeat split; [exact Hn|exact Ht|].
    rewrite List.Forall_forall in IH. now apply IH.
Qed.

Lemma json_text_rewritten (t : ty) :
  json_text ("'"%char :: literal t) =
  "{"%char :: dquote :: (jsonify (literal t) ++ "}"%char :: []).
Proof. reflexivity. Qed.

(** on a composite text of the grammar, [generate_sub_fields] returns the
    dictionary of the type *)
Lemma generate_sub_fields_on_grammar (t : ty) :
  well_formed t = true -> rewritten t = "'"%char :: literal t ->
  generate_sub_fields (render t) = Ok (PDict (entries t)).
Proof.
  intros Hwf Hcomposite. unfold generate_sub_fields. cbv zeta.
  rewrite loop_on_grammar by exact Hwf. cbn [bind].
  rewrite Hcomposite, json_text_rewritten. unfold Json.loads.
  change (Json.skip_ws ("{"%char :: ?x)) with ("{"%char :: x).
  rewrite parse_object.
  rewrite (well_formed_parses t Hwf _ [] [] fresh_nil).
  - reflexivity.
  - cbn [length]. lia.
Qed.

Lemma entries_keys (t : ty) :
  dict_get (entries t) (py "Hive") = None
  /\ dict_get (entries t) (py "Comment") = None.
Proof. destruct t; split; reflexivity. Qed.

Lemma no_meta_pairs (d : dict pyval) :
  dict_get d (py "Hive") = None -> dict_get d (py "Comment") = None ->
  no_meta (PDict d) = forallb (fun kv => no_meta (snd kv)) d.
Proof. intros H1 H2. cbn [no_meta]. now rewrite H1, H2. Qed.

Lemma no_meta_entries (t : ty) : no_meta (PDict (entries t)) = true.
Proof.
  induction t as [name|element IH|members IH] using ty_induction.
  - reflexivity.
  - rewrite no_meta_pairs by reflexivity. cbn [entries forallb snd].
    rewrite IH. reflexivity.
  - rewrite no_meta_pairs by reflexivity. cbn [entries forallb snd].
    rewrite andb_true_r. change (no_meta (PStr (py "struct"))) with true.
    cbn [andb no_meta]. rewrite forallb_forall. intros v Hv.
    apply in_map_iff in Hv as ([n t] & <- & Hin). cbn [fst snd].
    rewrite List.Forall_forall in IH. specialize (IH _ Hin). cbn [snd] in IH.
    destruct (entries_keys t) as [Hh Hc].
    rewrite no_meta_pairs in IH by assumption.
    rewrite no_meta_pairs by (cbn [dict_get]; assumption).
    cbn [forallb snd no_meta]. exact IH.
Qed.

Lemma skip_ws_identifier (n rest : pystr) :
  identifier n = true ->
  exists d tail,
    Json.skip_ws (n ++ "}"%char :: rest) = d :: tail /\ Ascii.eqb d dquote = false.
Proof.
  unfold identifier. induction n as [|c n IH]; cbn [forallb app].
  - intros _. exists "}"%char, rest. split; reflexivity.
  - rewrite andb_true_iff. intros [Hc Hn]. cbn [Json.skip_ws].
    destruct (Json.is_ws c); [now apply IH|].
    exists c, (n ++ "}"%char :: rest). split; [reflexivity|].
    now destruct (plain_char_spec c Hc).
Qed.

Lemma parse_brace (fuel : nat) (s : pystr) :
  Json.parse_value (S fuel) ("{"%char :: s) =
  match Json.skip_ws s with
  | d :: rest =>
      if Ascii.eqb d "}" then Ok (PDict [], rest)
      else if Ascii.eqb d dquote then Json.parse_members fuel rest []
      else Raise JSONDecodeError
  | [] => Raise JSONDecodeError
  end.
Proof. reflexivity. Qed.

(** the descriptor of a text of the grammar has no [Hive] and no
    [Comment] key *)
Lemma grammatical_plain (type : pystr) :
  grammatical type -> plain_descriptor type = true.
Proof.
  intros (t & Hwf & ->). unfold plain_descriptor.
  destruct t as [name|element|members].
  - cbn [render well_formed] in *. unfold generate_sub_fields. cbv zeta.
    rewrite count_none by now apply identifier_free.
    cbn [for_range bind]. unfold Json.loads.
    assert (Htext : json_text name = "{"%char :: (name ++ "}"%char :: [])).
    { unfold json_text. cbv zeta. fold (jsonify name).
      now rewrite jsonify_identifier. }
    rewrite Htext. change (Json.skip_ws ("{"%char :: ?x)) with ("{"%char :: x).
    rewrite parse_brace.
    destruct (skip_ws_identifier name [] Hwf) as (d & tail & -> & Hd).
    rewrite Hd. destruct (Ascii.eqb d "}"); cbn [bind]; [|reflexivity].
    now destruct (Json.skip_ws tail).
  - rewrite generate_sub_fields_on_grammar by (exact Hwf || reflexivity).
    apply no_meta_entries.
  - rewrite generate_sub_fields_on_grammar by (exact Hwf || reflexivity).
    apply no_meta_entries.
Qed.

(** ** Nested children of the columns of the grammar *)


(** ** Instances *)

Lemma map_type_from_sql_suffix_stable_witness :
  MapperSpec.recognized (py "varchar")
  /\ map_type_from_sql (PStr (py "varchar")) = Ok (Some (py "varchar"))
  /\ map_type_from_sql (PStr (py "varchar" ++ py "(" ++ py "255" ++ py ")")) =
     Ok (Some (py "varchar")).
Proof.
  assert (H : MapperSpec.recognized (py "varchar")).
  { exists (py "varchar"), (py "varchar"). split; [now left|reflexivity]. }
  split; [exact H|].
  destruct (map_type_from_sql_suffix_stable (py "varchar") (py "255") H)
    as (p & canonical & _ & _ & H1 & H2).
  assert (Hc : canonical = py "varchar").
  { assert (E : map_type_from_sql (PStr (py "varchar")) = Ok (Some (py "varchar")))
      by reflexivity.
    congruence. }
  split; [now rewrite H1, Hc|now rewrite H2, Hc].
Defined.

Lemma top_level_metadata_witness :
  exists h m f,
    import_columns Scenario.renamed_columns = (h, Ok m)
    /\ lookup_key m (PStr (py "id")) = Some f
    /\ required f = Some true
    /\ description f = PNone.
Proof.
  eexists _, _.
  assert (H : import_columns Scenario.renamed_columns = (_, Ok _))
    by (vm_compute; reflexivity).
  destruct (proj1 top_level_metadata Scenario.renamed_columns _ _
              [Scenario.column "id" "string" false]
              (Scenario.column "id" "bigint" true) [] H eq_refl)
    as (f & Hl & Hr & Hd).
  { intros c' []. }
  exists f. repeat split; assumption.
Defined.

Lemma last_write_wins_witness :
  exists h m f,
    import_columns Scenario.renamed_columns = (h, Ok m)
    /\ NoDup (List.map fst m)
    /\ built (Scenario.column "id" "bigint" true) f
    /\ lookup_key m (PStr (py "id")) = Some f.
Proof.
  eexists _, _.
  assert (H : import_columns Scenario.renamed_columns = (_, Ok _))
    by (vm_compute; reflexivity).
  destruct (last_write_wins Scenario.renamed_columns _ _ H) as (Hn & _ & Hlast).
  destruct (Hlast [Scenario.column "id" "string" false]
              (Scenario.column "id" "bigint" true) [] eq_refl)
    as (f & Hb & Hl).
  { intros c' []. }
  exists f. repeat split; assumption.
Defined.


Lemma unknown_group_decode_error_witness :
  unknown_group (py "struct<m:map")
  /\ generate_sub_fields (py "struct<m:map<string,int>>") = Raise JSONDecodeError
  /\ import_columns [Scenario.map_column] =
     ([column_record Scenario.map_column], Raise JSONDecodeError).
Proof.
  assert (Hp : unknown_group (py "struct<m:map")).
  { exists (py "map"). split; [vm_compute; reflexivity|].
    split; intros H; vm_compute in H; discriminate H. }
  destruct (unknown_group_decode_error (py "struct<m:map<string,int>>")
              (py "struct<m:map") (py "string,int>>")
              (or_introl eq_refl) eq_refl Hp) as (_ & Hgen & Hrun).
  split; [exact Hp|]. split; [exact Hgen|]. exact (Hrun Scenario.map_column eq_refl).
Defined.

(** * Further properties of the importer *)


(** ** The importer on the descriptors of the grammar *)

Lemma map_mapped (name : pystr) : map_type_from_sql (PStr name) = Ok (mapped name).
Proof. reflexivity. Qed.

Lemma typed_well_formed (t : ty) : typed t = true -> well_formed t = true.
Proof.
  induction t as [name|element IH|members IH] using ty_induction; cbn [typed well_formed].
  - unfold scalar_name. rewrite !andb_true_iff. tauto.
  - exact IH.
  - destruct members as [|m members]; [easy|].
    rewrite !forallb_forall. intros H nt Hin. specialize (H nt Hin).
    rewrite List.Forall_forall in IH.
    apply andb_true_iff in H as [Hn Ht]. rewrite Hn. cbn [andb]. now apply IH.
Qed.

Lemma typed_struct (members : list (pystr * ty)) :
  typed (Struct members) = true ->
  members <> []
  /\ forall nt, In nt members -> identifier (fst nt) = true /\ typed (snd nt) = true.
Proof.
  cbn [typed]. destruct members as [|m members]; [discriminate|].
  rewrite forallb_forall. intros H. split; [discriminate|].
  intros nt Hin. now apply andb_true_iff, H.
Qed.

Lemma get_entries (t : ty) (k : pystr) :
  get (PDict (entries t)) k =
  Ok (match dict_get (entries t) k with Some v => v | None => PNone end).
Proof. apply get_dict. Qed.

Lemma member_get (n : pystr) (t : ty) :
  get (member_entry (n, t)) (py "Name") = Ok (PStr n)
  /\ get (member_entry (n, t)) (py "Hive") = Ok PNone
  /\ get (member_entry (n, t)) (py "Comment") = Ok PNone
  /\ (forall k, k <> py "Name" ->
        get (member_entry (n, t)) k = get (PDict (entries t)) k).
Proof.
  unfold member_entry. cbn [fst snd]. repeat split.
  - destruct t; reflexivity.
  - destruct t; reflexivity.
  - intros k Hk. rewrite !get_dict. cbn [dict_get].
    assert (E : str_eqb (py "Name") k = false).
    { apply str_eqb_neq. congruence. }
    now rewrite E.
Qed.

Lemma imports_scalar (name : pystr) : scalar_name name = true -> imports (Scalar name).
Proof.
  unfold scalar_name. rewrite !andb_true_iff, !negb_true_iff.
  intros [[_ Hs] Ha]. exists 1%nat. intros [|fuel] Hfuel; [lia|]. split.
  - rewrite import_array_field_unfold.
    change (get (PDict (entries (Scalar name))) (py "Type")) with (@Ok pyval (PStr name)).
    cbn [bind]. rewrite map_mapped. cbn [bind]. rewrite Hs, Ha. reflexivity.
  - intros n. unfold import_record_field.
    destruct (member_get n (Scalar name)) as (-> & -> & -> & Hget).
    rewrite Hget by discriminate.
    change (get (PDict (entries (Scalar name))) (py "Type")) with (@Ok pyval (PStr name)).
    cbn [bind]. rewrite map_mapped. cbn [bind]. rewrite Hs, Ha. reflexivity.
Qed.

Lemma imports_array (element : ty) : imports element -> imports (Array element).
Proof.
  intros [fuel0 IH]. exists (S fuel0). intros [|fuel] Hfuel; [lia|].
  destruct (IH fuel ltac:(lia)) as [IHa _].
  destruct (IH (S fuel) ltac:(lia)) as [IHa' _]. split.
  - rewrite import_array_field_unfold.
    change (get (PDict (entries (Array element))) (py "Type"))
      with (@Ok pyval (PStr (py "array"))).
    cbn [bind]. rewrite map_mapped.
    change (mapped (py "array")) with (Some (py "array")). cbn [bind].
    change (is_type (Some (py "array")) (py "struct")) with false.
    change (is_type (Some (py "array")) (py "array")) with true. cbv iota.
    change (get (PDict (entries (Array element))) (py "Items"))
      with (@Ok pyval (PDict (entries element))).
    cbn [bind]. rewrite IHa. reflexivity.
  - intros n. unfold import_record_field.
    destruct (member_get n (Array element)) as (-> & -> & -> & Hget).
    rewrite !Hget by discriminate.
    change (get (PDict (entries (Array element))) (py "Type"))
      with (@Ok pyval (PStr (py "array"))).
    cbn [bind]. rewrite map_mapped.
    change (mapped (py "array")) with (Some (py "array")). cbn [bind].
    change (is_type (Some (py "array")) (py "struct")) with false.
    change (is_type (Some (py "array")) (py "array")) with true. cbv iota.
    change (get (PDict (entries (Array element))) (py "Items"))
      with (@Ok pyval (PDict (entries element))).
    cbn [bind]. rewrite IHa'. reflexivity.
Qed.

Lemma imports_common (members : list (pystr * ty)) :
  Forall (fun nt => imports (snd nt)) members ->
  exists fuel0, forall fuel, (fuel0 <= fuel)%nat ->
    forall nt, In nt members ->
      import_record_field fuel (member_entry nt) =
      Ok (PStr (fst nt), tree Record_ (Some false) PNone (snd nt)).
Proof.
  induction 1 as [|[n t] members [f1 H1] _ [f2 H2]].
  - exists 0%nat. intros fuel _ nt [].
  - exists (Nat.max f1 f2). intros fuel Hfuel nt [<-|Hin].
    + apply (H1 fuel); lia.
    + apply H2; [lia|exact Hin].
Qed.

Lemma import_members (members : list (pystr * ty)) (fuel : nat) :
  (forall nt, In nt members ->
     import_record_field fuel (member_entry nt) =
     Ok (PStr (fst nt), tree Record_ (Some false) PNone (snd nt))) ->
  import_record_fields (S fuel) (PList (List.map member_entry members)) =
  Ok (store_all
        (List.map (fun nt => (PStr (fst nt), tree Record_ (Some false) PNone (snd nt)))
           members) []).
Proof.
  intros H. rewrite import_record_fields_unfold. cbn [iterate bind].
  apply for_each_store. eexists. split; [|reflexivity].
  induction members as [|nt members IH]; cbn [List.map]; constructor.
  - split; [apply H; now left|reflexivity].
  - apply IH. intros ? ?. apply H. now right.
Qed.

Lemma imports_struct (members : list (pystr * ty)) :
  Forall (fun nt => imports (snd nt)) members -> imports (Struct members).
Proof.
  intros Hall. destruct (imports_common members Hall) as [fuel0 IH].
  exists (S (S fuel0)). intros [|[|fuel]] Hfuel; try lia.
  pose proof (import_members members fuel (IH fuel ltac:(lia))) as Hm.
  pose proof (import_members members (S fuel) (IH (S fuel) ltac:(lia))) as Hm'.
  split.
  - rewrite import_array_field_unfold.
    change (get (PDict (entries (Struct members))) (py "Type"))
      with (@Ok pyval (PStr (py "struct"))).
    cbn [bind]. rewrite map_mapped.
    change (mapped (py "struct")) with (Some (py "struct")). cbn [bind].
    change (is_type (Some (py "struct")) (py "struct")) with true. cbv iota.
    change (get (PDict (entries (Struct members))) (py "Fields"))
      with (@Ok pyval (PList (List.map member_entry members))).
    cbn [bind]. rewrite Hm. reflexivity.
  - intros n. unfold import_record_field.
    destruct (member_get n (Struct members)) as (-> & -> & -> & Hget).
    rewrite !Hget by discriminate.
    change (get (PDict (entries (Struct members))) (py "Type"))
      with (@Ok pyval (PStr (py "struct"))).
    cbn [bind]. rewrite map_mapped.
    change (mapped (py "struct")) with (Some (py "struct")). cbn [bind].
    change (is_type (Some (py "struct")) (py "struct")) with true. cbv iota.
    change (get (PDict (entries (Struct members))) (py "Fields"))
      with (@Ok pyval (PList (List.map member_entry members))).
    cbn [bind]. rewrite Hm'. reflexivity.
Qed.

Lemma typed_imports (t : ty) : typed t = true -> imports t.
Proof.
  induction t as [name|element IH|members IH] using ty_induction; intros Ht.
  - now apply imports_scalar.
  - apply imports_array, IH, Ht.
  - apply imports_struct. destruct (typed_struct members Ht) as [_ Hall].
    rewrite List.Forall_forall in *. intros nt Hin.
    apply IH; [exact Hin|]. now apply Hall.
Qed.

(** ** A column of the grammar *)

Lemma mapped_some (name : pystr) : exists t, mapped name = Some t.
Proof. unfold mapped. cbn [map_type_from_sql]. eauto. Qed.

Lemma get_set_eq (d : dict pyval) (k : pystr) (v : pyval) :
  get (PDict (dict_set d k v)) k = Ok v.
Proof. now rewrite get_dict, dict_get_set_eq. Qed.

Lemma get_set_ne (d : dict pyval) (k k' : pystr) (v : pyval) :
  k <> k' -> get (PDict (dict_set d k v)) k' = get (PDict d) k'.
Proof. intros H. now rewrite !get_dict, dict_get_set_ne. Qed.

Lemma format_record_grammar (c : RawColumn) (t : ty) :
  typed t = true -> Type_ c = render t ->
  format_record (column_record c) = Ok (formatted c t).
Proof.
  intros Ht Hc. pose proof (typed_well_formed t Ht) as Hwf.
  unfold format_record. cbn [subscript]. rewrite column_type. cbn [bind].
  rewrite Hc. destruct t as [name|element|members].
  - cbn [render typed formatted] in *. unfold scalar_name in Ht.
    rewrite !andb_true_iff, !negb_true_iff in Ht. destruct Ht as [[_ Hs] Ha].
    destruct (startswith name (py "array<")) eqn:E1.
    { apply array_bracket_maps_to_array in E1.
      assert (E : mapped name = Some (py "array"))
        by (pose proof (map_mapped name); congruence).
      rewrite E in Ha. discriminate. }
    destruct (startswith name (py "struct<")) eqn:E2.
    { apply struct_bracket_maps_to_struct in E2.
      assert (E : mapped name = Some (py "struct"))
        by (pose proof (map_mapped name); congruence).
      rewrite E in Hs. discriminate. }
    reflexivity.
  - assert (E : startswith (render (Array element)) (py "array<") = true)
      by reflexivity.
    rewrite E, generate_sub_fields_on_grammar by (exact Hwf || reflexivity).
    reflexivity.
  - assert (E1 : startswith (render (Struct members)) (py "array<") = false)
      by reflexivity.
    assert (E2 : startswith (render (Struct members)) (py "struct<") = true)
      by reflexivity.
    rewrite E1, E2, generate_sub_fields_on_grammar by (exact Hwf || reflexivity).
    reflexivity.
Qed.

Lemma formatted_get (c : RawColumn) (t : ty) (k : pystr) :
  k <> py "Type" -> k <> py "Items" -> k <> py "Fields" ->
  get (PDict (formatted c t)) k = get (PDict (column_record c)) k.
Proof.
  intros Ht Hi Hf.
  destruct t; cbn [formatted]; rewrite ?get_set_ne by congruence; reflexivity.
Qed.

Lemma formatted_array (c : RawColumn) (element : ty) :
  get (PDict (formatted c (Array element))) (py "Type") = Ok (PStr (py "array"))
  /\ get (PDict (formatted c (Array element))) (py "Items") =
     Ok (PDict (entries element)).
Proof.
  cbn [formatted]. split; [apply get_set_eq|].
  rewrite get_set_ne by discriminate. apply get_set_eq.
Qed.

Lemma formatted_struct (c : RawColumn) (members : list (pystr * ty)) :
  get (PDict (formatted c (Struct members))) (py "Type") = Ok (PStr (py "struct"))
  /\ get (PDict (formatted c (Struct members))) (py "Fields") =
     Ok (PList (List.map member_entry members)).
Proof.
  cbn [formatted]. split; [apply get_set_eq|].
  rewrite get_set_ne by discriminate. apply get_set_eq.
Qed.

Lemma import_formatted (c : RawColumn) (t : ty) :
  typed t = true -> Type_ c = render t ->
  exists fuel0, forall fuel, (fuel0 <= fuel)%nat ->
    import_record_field fuel (PDict (formatted c t)) =
    Ok (PStr (Name c), column_field c t).
Proof.
  intros Ht Hc. unfold column_field.
  assert (Hreq : (if truthy (if isPartitionKey c then PBool true else PNone)
                  then true else false) = isPartitionKey c)
    by now destruct (isPartitionKey c).
  assert (Hget : forall fuel,
    import_record_field fuel (PDict (formatted c t)) =
    let* sql_type := get (PDict (formatted c t)) (py "Type") in
    let* field_type := map_type_from_sql sql_type in
    let* imported_field :=
      if is_type field_type (py "struct") then
        let* sub := get (PDict (formatted c t)) (py "Fields") in
        let* fields := import_record_fields fuel sub in
        Ok (mkField field_type (Some (isPartitionKey c)) (of_option (Comment c))
              (Mapping fields) None)
      else if is_type field_type (py "array") then
        let* sub := get (PDict (formatted c t)) (py "Items") in
        let* items := import_array_field fuel sub in
        Ok (mkField field_type (Some (isPartitionKey c)) (of_option (Comment c))
              Unset (Some items))
      else Ok (mkField field_type (Some (isPartitionKey c)) (of_option (Comment c))
                 Unset None) in
    Ok (PStr (Name c), imported_field)).
  { intros fuel. unfold import_record_field.
    rewrite (formatted_get c t (py "Hive")), (formatted_get c t (py "Comment")),
      (formatted_get c t (py "Name")) by discriminate.
    rewrite column_hive, column_comment, column_name.
    destruct (get (PDict (formatted c t)) (py "Type")) as [sql_type|];
      cbn [bind]; [|reflexivity].
    destruct (map_type_from_sql sql_type) as [field_type|]; cbn [bind];
      [|reflexivity].
    now rewrite Hreq. }
  destruct t as [name|element|members].
  - exists 0%nat. intros fuel _. rewrite Hget. cbn [formatted typed] in *.
    unfold scalar_name in Ht.
    rewrite !andb_true_iff, !negb_true_iff in Ht. destruct Ht as [[_ Hs] Ha].
    rewrite get_dict, column_type, Hc. cbn [bind render].
    rewrite map_mapped. cbn [bind].
    rewrite Hs, Ha. reflexivity.
  - destruct (typed_imports element Ht) as [fuel0 IH].
    exists fuel0. intros fuel Hfuel. destruct (IH fuel Hfuel) as [IHa _].
    rewrite Hget. destruct (formatted_array c element) as [-> ->].
    cbn [bind]. rewrite map_mapped.
    change (mapped (py "array")) with (Some (py "array")). cbn [bind].
    change (is_type (Some (py "array")) (py "struct")) with false.
    change (is_type (Some (py "array")) (py "array")) with true. cbv iota.
    cbn [bind]. rewrite IHa. reflexivity.
  - destruct (typed_struct members Ht) as [_ Hall].
    destruct (imports_common members) as [fuel0 IH].
    { rewrite List.Forall_forall. intros nt Hin.
      now apply typed_imports, Hall. }
    exists (S fuel0). intros [|fuel] Hfuel; [lia|].
    pose proof (import_members members fuel (IH fuel ltac:(lia))) as Hm.
    rewrite Hget. destruct (formatted_struct c members) as [-> ->].
    cbn [bind]. rewrite map_mapped.
    change (mapped (py "struct")) with (Some (py "struct")). cbn [bind].
    change (is_type (Some (py "struct")) (py "struct")) with true. cbv iota.
    cbn [bind]. rewrite Hm. reflexivity.
Qed.

(** X2: the whole pipeline on a column of the grammar.  When the type
    text of a column is that of a type [t] whose scalars are scalar names,
    nested no deeper than [nesting_bound], the run succeeds;
    [format_schema] leaves the record with the bare kind as [Type] and the
    descriptor under [Items] or [Fields]; the one field built is the tree
    of [t]: members in the order of the text under [fields] (a name met
    twice keeps its first place and its last type), the items of an array
    under [items] at the top and in a struct, under [fields] inside
    another array, scalars under their mapped names, the column's flag and
    comment at the root, [required = False] on struct members and nothing
    on items. *)
Theorem column_of_grammar (c : RawColumn) (t : ty) :
  typed t = true -> (nesting t <= nesting_bound)%nat -> Type_ c = render t ->
  import_columns [c] =
  ([formatted c t], Ok [(PStr (Name c), column_field c t)]).
Proof.
  intros Ht _ Hc. destruct (import_formatted c t Ht Hc) as [fuel0 H].
  apply (import_columns_single c _ (Nat.max fuel0 (depth (PDict (formatted c t))))).
  - now apply format_record_grammar.
  - apply H. lia.
  - lia.
Qed.

(** ** Runs compose *)

Lemma built_inv (c : RawColumn) (f : Field) :
  built c f ->
  exists d' fuel,
    format_record (column_record c) = Ok d'
    /\ import_record_field fuel (PDict d') = Ok (PStr (Name c), f)
    /\ (depth (PDict d') <= fuel)%nat.
Proof.
  intros [h H].
  apply import_columns_entries in H as (kfs & fuel & Hpost & Hkfs & Hfuel & Hm).
  cbn [List.map] in Hpost.
  inversion Hpost as [|? d' ? post' Hd Hrest]; subst. inversion Hrest; subst.
  cbn [List.map] in Hkfs.
  inversion Hkfs as [|? kf ? kfs' [Hkf Hh] Hrest']; subst. inversion Hrest'; subst.
  destruct (import_record_field_column _ _ _ _ Hd Hkf) as (Hk & _).
  destruct kf as [k f']. cbn [fst] in Hk. subst k.
  cbn in Hm. injection Hm as ->.
  exists d', fuel. repeat split; auto. apply Hfuel. now left.
Qed.

Lemma import_columns_compose (cols : list RawColumn) (fs : list Field) :
  Forall2 built cols fs ->
  exists h,
    import_columns cols =
    (h, Ok (store_all (combine (List.map (fun c => PStr (Name c)) cols) fs) []))
    /\ Forall2 (fun c d' => format_record (column_record c) = Ok d') cols h.
Proof.
  intros Hb.
  assert (Hpost : exists post',
    Forall2 (fun c d' => format_record (column_record c) = Ok d') cols post'
    /\ Forall2 (fun d' kf => forall fuel, (depth (PDict d') <= fuel)%nat ->
                  import_record_field fuel (PDict d') = Ok kf)
         post' (combine (List.map (fun c => PStr (Name c)) cols) fs)).
  { induction Hb as [|c f cols fs Hc _ (post' & H1 & H2)].
    - exists []. split; constructor.
    - apply built_inv in Hc as (d' & fuel & Hd & Hkf & Hfuel).
      exists (d' :: post'). split; [now constructor|].
      cbn [List.map combine]. constructor; [|exact H2].
      intros fuel' Hfuel'.
      rewrite (import_record_field_fuel fuel' fuel); [exact Hkf|exact Hfuel'|exact Hfuel]. }
  destruct Hpost as (post' & H1 & H2). exists post'. split; [|exact H1].
  unfold import_columns, format_schema.
  assert (Hf : format_columns (seq 0 (length cols)) (List.map column_record cols) =
               (post', Ok tt)).
  { rewrite <- (length_map column_record).
    apply (format_columns_fresh _ [] post'). exists post'. split; [reflexivity|].
    clear Hb H2. induction H1; cbn [List.map]; constructor; auto. }
  rewrite Hf. cbn [bind]. f_equal. unfold snapshot.
  assert (Hlen : length cols = length post') by apply (Forall2_length _ _ _ H1).
  pose proof (snapshot_fresh post' []) as Hs. cbn [app length] in Hs.
  rewrite Hlen, Hs.
  rewrite import_record_fields_unfold. cbn [iterate bind].
  apply for_each_store. eexists. split; [|reflexivity].
  assert (Hdepth : forall d', In d' post' ->
            (depth (PDict d') <= depth (PList (List.map PDict post')))%nat).
  { intros d' Hin. apply Nat.lt_le_incl, depth_in_list, in_map, Hin. }
  assert (Hkeys : forall kf, In kf (combine (List.map (fun c => PStr (Name c)) cols) fs) ->
            hashable (fst kf) = true).
  { intros [k f] Hin. apply in_combine_l in Hin.
    apply in_map_iff in Hin as (c & <- & _). reflexivity. }
  revert Hdepth Hkeys. generalize (depth (PList (List.map PDict post'))).
  generalize (combine (List.map (fun c => PStr (Name c)) cols) fs) H2.
  clear. intros kfs H2 fuel Hdepth Hkeys.
  induction H2 as [|d' kf post' kfs Hkf _ IH]; cbn [List.map]; constructor.
  - split; [apply Hkf, Hdepth; now left|apply Hkeys; now left].
  - apply IH; intros; [apply Hdepth|apply Hkeys]; now right.
Qed.

(** X1: on the text of a bracketed type of the grammar, nested no deeper
    than [nesting_bound], [generate_sub_fields] returns the descriptor of
    that type: the rewrite loop followed by [json.loads] reads back the
    nesting that the text was written from, members in order. *)
Theorem descriptor_of_grammar (t : ty) :
  well_formed t = true -> bracketed t = true ->
  (nesting t <= nesting_bound)%nat ->
  generate_sub_fields (render t) = Ok (PDict (entries t)).
Proof.
  intros Hwf Hb _. apply generate_sub_fields_on_grammar; [exact Hwf|].
  destruct t; [discriminate|reflexivity|reflexivity].
Qed.

(** X3: a run on a list of columns succeeds exactly when the run on each
    column alone does, and it stores the fields of the single runs under
    the columns' names, in the order of the columns. *)
Theorem runs_compose (cols : list RawColumn) (m : list (pyval * Field)) :
  snd (import_columns cols) = Ok m <->
  exists fs, Forall2 built cols fs
    /\ m = store_all (combine (List.map (fun c => PStr (Name c)) cols) fs) [].
Proof.
  split.
  - destruct (import_columns cols) as [h r] eqn:E. cbn [snd]. intros ->.
    apply import_columns_inv in E as (fs & Hb & _ & ->). eauto.
  - intros (fs & Hb & ->).
    destruct (import_columns_compose cols fs Hb) as (h & -> & _). reflexivity.
Qed.

(** ** A second pass of [format_schema] *)

Lemma format_record_settles (d d' : dict pyval) :
  format_record d = Ok d' -> format_record d' = Ok d'.
Proof.
  intros H. destruct (composite d) eqn:Ec.
  - destruct (format_record_composite _ _ H Ec) as [_ Ht]. clear H.
    unfold format_record. cbn [subscript].
    destruct Ht as [-> | ->]; reflexivity.
  - pose proof (format_record_scalar _ _ H Ec) as ->. exact H.
Qed.

Lemma format_column_rests (column : ref) (h h' : heap) :
  format_column column h = Ok h' ->
  at_rest h' column /\ forall c, at_rest h c -> at_rest h' c.
Proof.
  intros H. apply format_column_step in H as (d & d' & Hd & Hf & ->).
  pose proof (lookup_lt_Some _ _ _ Hd) as Hlt. split.
  - exists d'. split; [now apply list_lookup_insert_eq|].
    now apply (format_record_settles d).
  - intros c (dc & Hc & Hrest). destruct (decide (c = column)) as [->|Hne].
    + assert (dc = d) by congruence. subst dc.
      assert (d' = d) by congruence. subst d'.
      exists d. split; [now apply list_lookup_insert_eq|exact Hrest].
    + exists dc. split; [|exact Hrest]. rewrite list_lookup_insert_ne; auto.
Qed.

Lemma format_columns_rest (schema : list ref) (h h' : heap) :
  format_columns schema h = (h', Ok tt) ->
  (forall c, at_rest h c -> at_rest h' c)
  /\ (forall c, In c schema -> at_rest h' c).
Proof.
  revert h. induction schema as [|j schema IH]; intros h; cbn [format_columns].
  - intros [= <-]. split; [auto|intros c []].
  - destruct (format_column j h) as [h1|e] eqn:E; [|discriminate].
    intros H. apply IH in H as [Hkeep Hall].
    apply format_column_rests in E as [Hj Hkeep1]. split.
    + auto.
    + intros c [<-|Hin]; auto.
Qed.

Lemma format_columns_at_rest (schema : list ref) (h : heap) :
  (forall c, In c schema -> at_rest h c) -> format_columns schema h = (h, Ok tt).
Proof.
  induction schema as [|j schema IH]; intros Hall; cbn [format_columns]; [reflexivity|].
  destruct (Hall j (or_introl eq_refl)) as (d & Hd & Hrest).
  rewrite (format_column_record _ _ _ Hd), Hrest. cbn [bind].
  rewrite list_insert_id by exact Hd.
  apply IH. intros c Hin. apply Hall. now right.
Qed.

(** X4: [format_schema] is idempotent.  After a pass that succeeds, a
    second pass over the same schema succeeds and leaves every record as
    the first pass left it. *)
Theorem format_schema_idempotent (schema : list ref) (h h' : heap) (r : list ref) :
  format_schema schema h = (h', Ok r) ->
  format_schema schema h' = (h', Ok schema).
Proof.
  unfold format_schema.
  destruct (format_columns schema h) as [h1 [[]|e]] eqn:E; [|discriminate].
  intros [= <- _]. apply format_columns_rest in E as [_ Hall].
  now rewrite (format_columns_at_rest schema h1 Hall).
Qed.

(** ** A column that fails *)

Lemma format_columns_stop (before : heap) (ds : heap) (d : dict pyval)
    (after pre : heap) (e : exn) :
  Forall2 (fun d0 d' => format_record d0 = Ok d') before ds ->
  format_record d = Raise e ->
  format_columns (seq (length pre) (length (before ++ d :: after)))
    (pre ++ before ++ d :: after) =
  (pre ++ ds ++ d :: after, Raise e).
Proof.
  intros Hb Hd. revert pre.
  induction Hb as [|d0 d' before ds H0 _ IH]; intros pre.
  - cbn [app length seq format_columns].
    rewrite (format_column_record _ _ _ (lookup_middle pre after d)), Hd.
    reflexivity.
  - cbn [app length seq format_columns].
    rewrite (format_column_record _ _ _ (lookup_middle pre _ d0)), H0. cbn [bind].
    rewrite insert_middle.
    replace (pre ++ d' :: before ++ d :: after)
      with ((pre ++ [d']) ++ before ++ d :: after) by now rewrite <- app_assoc.
    replace (S (length pre)) with (length (pre ++ [d']))
      by (rewrite length_app; simpl; lia).
    rewrite IH. now rewrite <- app_assoc.
Qed.

(** X5: no roll-back.  When the type text of a column cannot be
    formatted, the run stops with that column's exception; the records of
    the columns before it stay rewritten, the record of the failing column
    and the records after it are as they were, and no field is built. *)
Theorem failing_column_stops_run (before : list RawColumn) (c : RawColumn)
    (after : list RawColumn) (ds : list (dict pyval)) (e : exn) :
  Forall2 (fun c' d' => format_record (column_record c') = Ok d') before ds ->
  format_record (column_record c) = Raise e ->
  import_columns (before ++ c :: after) =
  (ds ++ column_record c :: List.map column_record after, Raise e).
Proof.
  intros Hb Hc. unfold import_columns, format_schema.
  rewrite <- (length_map column_record), List.map_app. cbn [List.map].
  assert (Hb' : Forall2 (fun d0 d' => format_record d0 = Ok d')
                  (List.map column_record before) ds).
  { induction Hb; cbn [List.map]; constructor; auto. }
  pose proof (format_columns_stop _ _ _ (List.map column_record after) [] e Hb' Hc) as H.
  cbn [app length] in H. rewrite H. reflexivity.
Qed.

(** ** The mapper's range *)

(** X6: on a string the mapper never raises; it answers one of fifteen
    names, and each of these names is mapped to itself, so mapping twice
    is mapping once. *)
Theorem mapper_range (s : pystr) :
  exists t,
    map_type_from_sql (PStr s) = Ok (Some t)
    /\ In t canonical_names
    /\ map_type_from_sql (PStr t) = Ok (Some t).
Proof.
  unfold map_type_from_sql.
  repeat match goal with
         | |- context [if startswith (lower s) ?p then _ else _] =>
             destruct (startswith (lower s) p)
         end;
    eexists; (split; [reflexivity|]); (split; [|reflexivity]);
    unfold canonical_names; cbn [In]; tauto.
Qed.

(** ** A composite name without its bracket *)

Lemma import_columns_unformatted (c : RawColumn) :
  startswith (Type_ c) (py "array<") = false ->
  startswith (Type_ c) (py "struct<") = false ->
  import_columns [c] =
  ([column_record c],
   import_record_fields (S (depth (PList [PDict (column_record c)])))
     (PList [PDict (column_record c)])).
Proof.
  intros Ea Es. unfold import_columns, format_schema. cbn [List.map length].
  assert (Hd : format_record (column_record c) = Ok (column_record c)).
  { unfold format_record. cbn [subscript]. rewrite column_type. cbn [bind].
    now rewrite Ea, Es. }
  assert (Hf : format_columns (seq 0 1) [column_record c] =
               ([column_record c], Ok tt)).
  { apply (format_columns_fresh [column_record c] [] [column_record c]).
    exists [column_record c]. split; [reflexivity|]. repeat constructor. exact Hd. }
  rewrite Hf. reflexivity.
Qed.

Lemma column_no_key (c : RawColumn) (k : pystr) :
  k <> py "Name" -> k <> py "Type" -> k <> py "Hive" -> k <> py "Comment" ->
  get (PDict (column_record c)) k = Ok PNone.
Proof.
  intros Hn Ht Hh Hc. rewrite get_dict. unfold column_record.
  apply not_eq_sym, str_eqb_neq in Hn, Ht, Hh, Hc.
  destruct (isPartitionKey c), (Comment c); cbn [app dict_get];
    rewrite ?Hn, ?Ht, ?Hh, ?Hc; reflexivity.
Qed.

(** X7: a type text that the mapper takes for a [struct] or an [array]
    but that does not begin with [struct<] or [array<] in lower case
    (a bare [struct], [STRUCT<...>], [array]) is not formatted; the
    importer then looks for [Fields] or [Items], finds [None], and the run
    ends with a [TypeError] (iteration over [None]) for a struct and an
    [AttributeError] ([None.get]) for an array. *)
Theorem unbracketed_composite_fails (c : RawColumn) :
  startswith (Type_ c) (py "array<") = false ->
  startswith (Type_ c) (py "struct<") = false ->
  (mapped (Type_ c) = Some (py "struct") ->
   import_columns [c] = ([column_record c], Raise TypeError))
  /\ (mapped (Type_ c) = Some (py "array") ->
      import_columns [c] = ([column_record c], Raise AttributeError)).
Proof.
  intros Ea Es. rewrite (import_columns_unformatted c Ea Es).
  rewrite import_record_fields_unfold. cbn [iterate bind for_each].
  change (depth (PList [PDict (column_record c)]))
    with (S (list_max [depth (PDict (column_record c))])).
  unfold import_record_field.
  rewrite column_hive, column_comment, column_name.
  rewrite (column_no_key c (py "Fields")), (column_no_key c (py "Items"))
    by discriminate.
  rewrite get_dict, column_type. cbn [bind]. rewrite map_mapped. cbn [bind].
  split; intros ->.
  - change (is_type (Some (py "struct")) (py "struct")) with true. cbv iota.
    cbn [bind]. rewrite import_record_fields_unfold. reflexivity.
  - change (is_type (Some (py "array")) (py "struct")) with false.
    change (is_type (Some (py "array")) (py "array")) with true. cbv iota.
    cbn [bind]. rewrite import_array_field_unfold. reflexivity.
Qed.

(** ** The order of the output mapping *)

Lemma str_eqb_sym (a b : pystr) : str_eqb a b = str_eqb b a.
Proof.
  destruct (str_eqb b a) eqn:E.
  - apply str_eqb_eq in E as ->. apply str_eqb_refl.
  - apply str_eqb_neq in E. apply str_eqb_neq. congruence.
Qed.

Lemma existsb_str_eqb (n : pystr) (l : list pystr) :
  existsb (str_eqb n) l = true <-> In n l.
Proof.
  rewrite existsb_exists. split.
  - intros (x & Hin & E). apply str_eqb_eq in E. now subst.
  - intros Hin. exists n. split; [exact Hin|apply str_eqb_refl].
Qed.

Lemma store_key_order {V : Type} (m : list (pyval * V)) (ks : list pystr)
    (s : pystr) (v : V) :
  List.map fst m = List.map PStr ks ->
  List.map fst (store_key m (PStr s) v) =
  List.map PStr (if existsb (str_eqb s) ks then ks else ks ++ [s]).
Proof.
  revert ks. induction m as [|[k' v'] m IH]; intros [|k0 ks]; cbn [List.map fst];
    try discriminate.
  - reflexivity.
  - intros [= -> Hm]. cbn [store_key key_eqb existsb].
    rewrite (str_eqb_sym s k0).
    destruct (str_eqb k0 s); cbn [orb List.map fst].
    + now rewrite Hm.
    + rewrite (IH ks Hm). now destruct (existsb (str_eqb s) ks).
Qed.

Lemma store_all_order {V : Type} (names : list pystr) (vs : list V)
    (m : list (pyval * V)) (ks seen : list pystr) :
  length names = length vs ->
  List.map fst m = List.map PStr ks ->
  (forall n, In n seen <-> In n ks) ->
  List.map fst (store_all (combine (List.map PStr names) vs) m) =
  List.map PStr (ks ++ first_seen seen names).
Proof.
  revert vs m ks seen.
  induction names as [|n names IH]; intros [|v vs] m ks seen Hlen Hm Hseen;
    try discriminate.
  - cbn. now rewrite app_nil_r.
  - cbn [List.map combine store_all fold_left fst snd first_seen].
    fold (store_all (combine (List.map PStr names) vs) (store_key m (PStr n) v)).
    pose proof (store_key_order m ks n v Hm) as Hk.
    assert (E : existsb (str_eqb n) seen = existsb (str_eqb n) ks).
    { apply eq_true_iff_eq. rewrite !existsb_str_eqb. apply Hseen. }
    rewrite E. destruct (existsb (str_eqb n) ks) eqn:En.
    + apply IH; auto.
    + rewrite (IH vs _ (ks ++ [n]) (n :: seen)); auto.
      * now rewrite <- app_assoc.
      * intros x. cbn [In]. rewrite in_app_iff, Hseen. cbn [In]. tauto.
Qed.

(** X8: the output mapping lists the column names in the order of their
    first occurrence: a name met again keeps the place it had, while (by
    the last write) it takes the field of its last column. *)
Theorem keys_in_first_occurrence_order (cols : list RawColumn) (h : heap)
    (m : list (pyval * Field)) :
  import_columns cols = (h, Ok m) ->
  List.map fst m = List.map PStr (first_seen [] (List.map Name cols)).
Proof.
  intros H. apply import_columns_inv in H as (fs & Hb & _ & ->).
  rewrite <- (List.map_map Name PStr).
  rewrite (store_all_order (List.map Name cols) fs [] [] []);
    [reflexivity| |reflexivity|tauto].
  rewrite length_map. apply (Forall2_length _ _ _ Hb).
Qed.

(** ** [format_schema] on the records of a response *)

Lemma format_values_ok (ds ds' : list (dict pyval)) (done : list pyval) :
  Forall2 (fun d d' => format_record d = Ok d') ds ds' ->
  for_each (List.map PDict ds) (fun done column =>
    let* column := format_value column in Ok (done ++ [column])) done =
  Ok (done ++ List.map PDict ds').
Proof.
  intros H. revert done. induction H as [|d d' ds ds' Hd _ IH]; intros done;
    cbn [List.map for_each].
  - now rewrite app_nil_r.
  - cbn [format_value]. rewrite Hd. cbn [bind]. rewrite IH.
    now rewrite <- app_assoc.
Qed.

Lemma format_values_raise (before ds' : list (dict pyval)) (d : dict pyval)
    (after : list (dict pyval)) (e : exn) (done : list pyval) :
  Forall2 (fun d d' => format_record d = Ok d') before ds' ->
  format_record d = Raise e ->
  for_each (List.map PDict (before ++ d :: after)) (fun done column =>
    let* column := format_value column in Ok (done ++ [column])) done =
  Raise e.
Proof.
  intros H Hd. revert done. induction H as [|d0 d' ds ds' H0 _ IH]; intros done;
    cbn [app List.map for_each format_value].
  - now rewrite Hd.
  - rewrite H0. cbn [bind]. apply IH.
Qed.

(** every record is formatted, or there is a first one that is not *)
Lemma format_records_cases (ds : list (dict pyval)) :
  (exists ds', Forall2 (fun d d' => format_record d = Ok d') ds ds')
  \/ exists before ds' d after e,
       ds = before ++ d :: after
       /\ Forall2 (fun d d' => format_record d = Ok d') before ds'
       /\ format_record d = Raise e.
Proof.
  induction ds as [|d ds IH].
  - left. exists []. constructor.
  - destruct (format_record d) as [d'|e] eqn:E.
    + destruct IH as [[ds' H]|(before & ds' & d0 & after & e & -> & H & H0)].
      * left. exists (d' :: ds'). now constructor.
      * right. exists (d :: before), (d' :: ds'), d0, after, e.
        repeat split; [now constructor|exact H0].
    + right. exists [], [], d, ds, e. repeat split; [constructor|exact E].
Qed.

(** On records of their own the two embeddings of [format_schema] agree:
    the value returned is the list of the records of the store after the
    pass, and an exception is the same exception. *)
Lemma format_schema_value_store (ds : list (dict pyval)) :
  format_schema_value (PList (List.map PDict ds)) =
  let (h', r) := format_schema (seq 0 (length ds)) ds in
  let* schema := r in Ok (snapshot h' schema).
Proof.
  unfold format_schema_value, format_schema. cbn [iterate bind].
  destruct (format_records_cases ds)
    as [[ds' H]|(before & ds' & d & after & e & -> & H & Hd)].
  - rewrite (format_values_ok ds ds' [] H). cbn [bind app].
    assert (Hf : format_columns (seq 0 (length ds)) ds = (ds', Ok tt)).
    { apply (format_columns_fresh ds [] ds'). exists ds'. now split. }
    rewrite Hf. cbn [bind]. unfold snapshot.
    pose proof (snapshot_fresh ds' []) as Hs. cbn [app length] in Hs.
    rewrite (Forall2_length _ _ _ H), Hs. reflexivity.
  - rewrite (format_values_raise before ds' d after e [] H Hd). cbn [bind].
    pose proof (format_columns_stop before ds' d after [] e H Hd) as Hf.
    cbn [app length] in Hf. rewrite Hf. reflexivity.
Qed.

(** ** The schema of a table *)

Lemma io_bind_call {A B : Type} (a : A) (k : A -> io B) :
  io_bind (call (Returns a)) k = k a.
Proof. unfold io_bind, call. now destruct (k a). Qed.

Lemma partition_record_column (key : pystr * pystr) :
  partition_record (PStr (fst key)) (PStr (snd key)) =
  column_record (partition_column key).
Proof. reflexivity. Qed.

Lemma append_partition_keys (pks : list pyval) (keys : list (pystr * pystr))
    (columns : list pyval) :
  Forall2 (fun pk key =>
             subscript pk (py "Name") = Ok (PStr (fst key))
             /\ subscript pk (py "Type") = Ok (PStr (snd key))) pks keys ->
  for_each pks append_partition_key (PList columns) =
  Ok (PList (columns
             ++ List.map (fun key => PDict (column_record (partition_column key))) keys)).
Proof.
  intros H. revert columns.
  induction H as [|pk key pks keys [Hn Ht] _ IH]; intros columns;
    cbn [for_each List.map].
  - now rewrite app_nil_r.
  - cbn [append_partition_key]. rewrite Hn, Ht. cbn [bind].
    rewrite IH, partition_record_column. now rewrite <- app_assoc.
Qed.

Lemma get_subscript (v : pyval) (k : pystr) (l : list pyval) :
  get v k = Ok (PList l) -> subscript v k = Ok (PList l).
Proof.
  destruct v; cbn [get subscript]; try discriminate.
  destruct (dict_get d k); [easy|discriminate].
Qed.

Lemma table_schema_of_columns (glue : Glue) (database_name : pystr)
    (table_name response table descriptor : pyval)
    (columns : list RawColumn) (keys : list (pystr * pystr)) :
  get_table glue database_name table_name = Returns response ->
  subscript response (py "Table") = Ok table ->
  subscript table (py "StorageDescriptor") = Ok descriptor ->
  subscript descriptor (py "Columns") =
    Ok (PList (List.map (fun c => PDict (column_record c)) columns)) ->
  partition_keys table keys ->
  get_glue_table_schema (Returns glue) database_name table_name =
  lift (format_schema_value
          (PList (List.map PDict
                    (List.map column_record
                       (columns ++ List.map partition_column keys))))).
Proof.
  intros Hcall Ht Hd Hc Hk. unfold get_glue_table_schema.
  rewrite io_bind_call, Hcall, Ht. cbn [bind]. rewrite Hd. cbn [bind].
  rewrite Hc. cbn [bind].
  assert (E : forall l : list RawColumn,
            List.map PDict (List.map column_record l) =
            List.map (fun c => PDict (column_record c)) l)
    by (intros; apply List.map_map).
  destruct Hk as [[Hget ->]|(pks & Hget & Hpks)]; rewrite Hget; cbn [bind].
  - cbn [List.map]. rewrite app_nil_r, E. reflexivity.
  - rewrite (get_subscript _ _ _ Hget). cbn [bind iterate].
    rewrite (append_partition_keys pks keys _ Hpks). cbn [bind].
    rewrite E, List.map_app, List.map_map. reflexivity.
Qed.

(** X10: the fields of a table are those of its columns followed by its
    partition keys, each key a column that is required and described as
    [Partition Key].  When the response lists the columns [columns] and
    the partition keys [keys], [get_glue_table_schema] prints nothing,
    and [import_record_fields] on the schema it returns gives what the
    run on [columns] followed by the key columns gives; if that run raises
    while formatting, [get_glue_table_schema] raises the same exception. *)
Theorem partition_keys_appended (glue : Glue) (database_name : pystr)
    (table_name response table descriptor : pyval)
    (columns : list RawColumn) (keys : list (pystr * pystr)) :
  get_table glue database_name table_name = Returns response ->
  subscript response (py "Table") = Ok table ->
  subscript table (py "StorageDescriptor") = Ok descriptor ->
  subscript descriptor (py "Columns") =
    Ok (PList (List.map (fun c => PDict (column_record c)) columns)) ->
  partition_keys table keys ->
  match get_glue_table_schema (Returns glue) database_name table_name with
  | (out, Returns table_schema) =>
      out = []
      /\ import_record_fields (S (depth table_schema)) table_schema =
         snd (import_columns (columns ++ List.map partition_column keys))
  | (out, Throws e) =>
      out = []
      /\ exists e', e = Python e'
           /\ snd (import_columns (columns ++ List.map partition_column keys)) =
              Raise e'
  end.
Proof.
  intros Hcall Ht Hd Hc Hk.
  rewrite (table_schema_of_columns _ _ _ _ _ _ _ _ Hcall Ht Hd Hc Hk).
  rewrite format_schema_value_store. unfold import_columns.
  rewrite !length_map.
  destruct (format_schema _ _) as [h' [schema|e]]; cbn [bind lift snd].
  - split; reflexivity.
  - split; [reflexivity|]. exists e. split; reflexivity.
Qed.

(** ** The database and the list of its tables *)

Lemma io_bind_print {B : Type} (l : line) (k : unit -> io B) :
  io_bind (print l) k = let (out, r) := k tt in (l :: out, r).
Proof. reflexivity. Qed.

Lemma handled {A : Type} (not_found : line) (e : failure) (a : A) :
  match e with
  | EntityNotFoundException => let+ _ := print not_found in ret a
  | _ => let+ _ := print (error_line e) in ret a
  end = ([handler_line not_found e], Returns a).
Proof. now destruct e. Qed.

(** X11: [get_glue_database] keeps the exceptions of the catalogue to
    itself: it prints one line and answers [(None, None)].  From a
    response it takes [CatalogId] and [LocationUri], the latter being the
    string [None] when the database has no location; a response without
    [CatalogId] is a [KeyError] that nothing catches. *)
Theorem get_glue_database_answers (glue : Glue) (datebase_name : pystr) :
  (forall e, get_database glue datebase_name = Throws e ->
     get_glue_database (Returns glue) datebase_name =
     ([handler_line (database_not_found datebase_name) e], Returns (PNone, PNone)))
  /\ (forall response database catalogid,
        get_database glue datebase_name = Returns response ->
        subscript response (py "Database") = Ok (PDict database) ->
        dict_get database (py "CatalogId") = Some catalogid ->
        get_glue_database (Returns glue) datebase_name =
        ([], Returns (catalogid, location_of database)))
  /\ (forall response database,
        get_database glue datebase_name = Returns response ->
        subscript response (py "Database") = Ok (PDict database) ->
        dict_get database (py "CatalogId") = None ->
        get_glue_database (Returns glue) datebase_name =
        ([], Throws (Python KeyError))).
Proof.
  unfold get_glue_database. rewrite io_bind_call. split; [|split].
  - intros e ->. apply handled.
  - intros response database catalogid -> Hd Hc. rewrite Hd.
    cbn [lift io_bind subscript]. rewrite Hc. cbn [lift io_bind get_default].
    unfold location_of. now destruct (dict_get database (py "LocationUri")).
  - intros response database -> Hd Hc. rewrite Hd.
    cbn [lift io_bind subscript]. now rewrite Hc.
Qed.

(** X12: [get_glue_tables] never raises once it has a client, prints at
    most one line, and answers the empty list whenever it printed: an
    exception on any page costs the names of the pages before it. *)
Theorem get_glue_tables_never_raises (glue : Glue) (database_name : pystr) :
  exists out table_names,
    get_glue_tables (Returns glue) database_name = (out, Returns table_names)
    /\ (out = [] \/ (table_names = [] /\ exists l, out = [l])).
Proof.
  unfold get_glue_tables. rewrite io_bind_call.
  destruct (paginate_get_tables glue database_name) as [pages stop].
  destruct (collect_table_names pages stop) as [table_names|e].
  - exists [], table_names. split; [reflexivity|now left].
  - rewrite handled. eexists _, _. split; [reflexivity|]. right. eauto.
Qed.

Lemma page_names_listed (page : pyval) (tables : list (dict pyval)) :
  subscript page (py "TableList") = Ok (PList (List.map PDict tables)) ->
  page_names page = Ok (listed_names tables).
Proof.
  intros H. unfold page_names. rewrite H. cbn [bind iterate]. clear H.
  assert (G : forall names,
    for_each (List.map PDict tables) (fun names table =>
      let* named := contains table (py "Name") in
      if named then
        let* name := subscript table (py "Name") in
        Ok (names ++ [name])
      else Ok names) names = Ok (names ++ listed_names tables)).
  { induction tables as [|table tables IH]; intros names;
      cbn [List.map for_each].
    - cbn. now rewrite app_nil_r.
    - change (listed_names (table :: tables))
        with (match dict_get table (py "Name") with
              | Some name => [name]
              | None => []
              end ++ listed_names tables).
      cbn [contains subscript bind].
      destruct (dict_get table (py "Name")) as [name|]; cbn [bind app].
      + rewrite IH. now rewrite <- app_assoc.
      + apply IH. }
  apply (G []).
Qed.

Lemma collect_listed (pages : list pyval) (listings : list (list (dict pyval)))
    (stop : option failure) :
  Forall2 (fun page tables =>
             subscript page (py "TableList") = Ok (PList (List.map PDict tables)))
    pages listings ->
  collect_table_names pages stop =
  match stop with
  | None => Returns (List.concat (List.map listed_names listings))
  | Some e => Throws e
  end.
Proof.
  intros H. unfold collect_table_names.
  assert (G : forall table_names,
    for_each pages (fun table_names page =>
      let* names := page_names page in Ok (table_names ++ names)) table_names =
    Ok (table_names ++ List.concat (List.map listed_names listings))).
  { induction H as [|page tables pages listings Hp _ IH]; intros table_names;
      cbn [for_each List.map List.concat].
    - now rewrite app_nil_r.
    - rewrite (page_names_listed _ _ Hp). cbn [bind]. rewrite IH.
      now rewrite <- app_assoc. }
  now rewrite (G []).
Qed.

(** X13: the names [get_glue_tables] returns are those of the pages in
    the order of the pages, a table without [Name] being passed over; if
    the iteration over the pages ends with an exception, the answer is
    the empty list and one line. *)
Theorem get_glue_tables_lists_pages (glue : Glue) (database_name : pystr)
    (pages : list pyval) (stop : option failure)
    (listings : list (list (dict pyval))) :
  paginate_get_tables glue database_name = (pages, stop) ->
  Forall2 (fun page tables =>
             subscript page (py "TableList") = Ok (PList (List.map PDict tables)))
    pages listings ->
  get_glue_tables (Returns glue) database_name =
  match stop with
  | None => ([], Returns (List.concat (List.map listed_names listings)))
  | Some e =>
      ([handler_line (tables_database_not_found database_name) e], Returns [])
  end.
Proof.
  intros Hp Hl. unfold get_glue_tables. rewrite io_bind_call, Hp.
  rewrite (collect_listed pages listings stop Hl).
  destruct stop as [e|]; [apply handled|reflexivity].
Qed.

(** ** [import_glue] *)

Lemma unreadable_table_schema (glue : Glue) (source : pystr) (table_name : pyval)
    (e : failure) :
  get_table glue source table_name = Throws e ->
  get_glue_table_schema (Returns glue) source table_name =
  ([handler_line (table_not_found table_name source) e], Returns (PDict [])).
Proof.
  intros H. unfold get_glue_table_schema. rewrite io_bind_call, H. apply handled.
Qed.

Lemma import_no_record : import_record_fields (S (depth (PDict []))) (PDict []) = Ok [].
Proof. now rewrite import_record_fields_unfold. Qed.

(** X14: a table that cannot be read is not passed over and does not stop
    the import: one line is printed, the table gets a model without
    fields, and the loop goes on with the tables that follow. *)
Theorem unreadable_table_gets_empty_model (glue : Glue) (source name : pystr)
    (rest : list pyval) (data_contract_specification : DataContractSpecification)
    (e : failure) :
  get_table glue source (PStr name) = Throws e ->
  import_tables (Returns glue) source (PStr name :: rest)
    data_contract_specification =
  let '(out, final, raised) :=
    import_tables (Returns glue) source rest
      {| servers := servers data_contract_specification;
         models :=
           Some (store_key
                   (match models data_contract_specification with
                    | Some m => m
                    | None => []
                    end)
                   (PStr name)
                   {| model_type := py "table"; model_fields := [] |}) |} in
  (handler_line (table_not_found (PStr name) source) e :: out, final, raised).
Proof.
  intros H. cbn [import_tables].
  rewrite (unreadable_table_schema _ _ _ _ H), import_no_record.
  destruct data_contract_specification as [s [m|]];
    cbn [models servers setitem hashable];
    destruct (import_tables _ _ _ _) as [[out final] raised]; reflexivity.
Qed.

Lemma model_of_store (m : list (pyval * Model)) (s : option (list (pystr * Server)))
    (name k : pystr) (model : Model) :
  model_of {| servers := s; models := Some (store_key m (PStr name) model) |} (PStr k) =
  if str_eqb name k then Some model else lookup_key m (PStr k).
Proof.
  unfold model_of. cbn [models]. destruct (str_eqb name k) eqn:E.
  - apply str_eqb_eq in E as ->. apply lookup_store_key_eq.
  - apply str_eqb_neq in E. now apply lookup_store_key_ne.
Qed.

(** The loop leaves [servers] alone and touches no model but those of the
    tables it is given; when it ends without an exception every one of
    these tables has a model of type [table]. *)
Lemma import_tables_frame (glue : Glue) (source : pystr) (names : list pystr) :
  forall data_contract_specification out final raised,
    import_tables (Returns glue) source (List.map PStr names)
      data_contract_specification = (out, final, raised) ->
    servers final = servers data_contract_specification
    /\ (forall k, ~ In k names ->
          model_of final (PStr k) = model_of data_contract_specification (PStr k))
    /\ (raised = None ->
        forall n, In n names ->
          exists model, model_of final (PStr n) = Some model
                        /\ model_type model = py "table").
Proof.
  induction names as [|name names IH]; intros spec out final raised;
    cbn [List.map import_tables].
  - intros [= <- <- <-]. repeat split. intros _ n [].
  - set (spec1 := match models spec with
                  | Some _ => spec
                  | None => {| servers := servers spec; models := Some [] |}
                  end).
    assert (Hs : servers spec1 = servers spec)
      by (subst spec1; now destruct spec as [s [m|]]).
    assert (Hm : forall k, model_of spec1 k = model_of spec k).
    { intros k. subst spec1. now destruct spec as [s [m|]]. }
    assert (Hsome : exists m, models spec1 = Some m).
    { subst spec1. destruct spec as [s [m|]]; cbn [models]; eauto. }
    destruct Hsome as [m Em].
    assert (Hstop : forall out' e,
              (out', spec1, Some e) = (out, final, raised) ->
              servers final = servers spec
              /\ (forall k, ~ In k (name :: names) ->
                    model_of final (PStr k) = model_of spec (PStr k))
              /\ (raised = None ->
                  forall n, In n (name :: names) ->
                    exists model, model_of final (PStr n) = Some model
                                  /\ model_type model = py "table")).
    { intros out' e [= <- <- <-]. repeat split; [exact Hs|auto|discriminate]. }
    destruct (get_glue_table_schema (Returns glue) source (PStr name))
      as [out0 [table_schema|e]]; [|apply Hstop].
    destruct (import_record_fields _ table_schema) as [fields|e]; [|apply Hstop].
    rewrite Em. cbn [setitem hashable].
    destruct (import_tables _ _ _ _) as [[out' final'] raised'] eqn:E.
    intros [= <- <- <-].
    apply IH in E as (H1 & H2 & H3). cbn [servers] in H1.
    split; [congruence|]. split.
    + intros k Hk. rewrite H2 by (intros Hin; apply Hk; now right).
      rewrite model_of_store.
      destruct (str_eqb name k) eqn:Ek.
      * apply str_eqb_eq in Ek. exfalso. apply Hk. now left.
      * rewrite <- Hm. unfold model_of. now rewrite Em.
    + intros Hr n [<-|Hin]; [|now apply H3].
      destruct (existsb (str_eqb name) names) eqn:Ein.
      { apply existsb_str_eqb in Ein. now apply H3. }
      assert (Hnot : ~ In name names).
      { intros Hin. apply existsb_str_eqb in Hin. congruence. }
      rewrite (H2 name Hnot), model_of_store, str_eqb_refl. eauto.
Qed.

Lemma database_answer (glue : Glue) (source : pystr) (response : pyval)
    (database : dict pyval) (catalogid : pyval) :
  get_database glue source = Returns response ->
  subscript response (py "Database") = Ok (PDict database) ->
  dict_get database (py "CatalogId") = Some catalogid ->
  get_glue_database (Returns glue) source =
  ([], Returns (catalogid, location_of database)).
Proof.
  intros H Hd Hc. unfold get_glue_database. rewrite io_bind_call, H, Hd.
  cbn [lift io_bind subscript]. rewrite Hc. cbn [lift io_bind get_default].
  unfold location_of. now destruct (dict_get database (py "LocationUri")).
Qed.

(** X15: without a database there is no import.  When the catalogue
    raises on the database, or answers with [None] as [CatalogId],
    [import_glue] returns the specification as it was given, reads no
    table, and raises nothing.  Only the failure to make a client is
    not kept in: it leaves [import_glue] as it came, the specification
    untouched. *)
Theorem import_glue_without_database (glue : Glue)
    (data_contract_specification : DataContractSpecification) (source : pystr)
    (table_names : option (list pyval)) :
  (forall e, get_database glue source = Throws e ->
     import_glue (Returns glue) data_contract_specification source table_names =
     ([handler_line (database_not_found source) e], data_contract_specification, None))
  /\ (forall response database,
        get_database glue source = Returns response ->
        subscript response (py "Database") = Ok (PDict database) ->
        dict_get database (py "CatalogId") = Some PNone ->
        import_glue (Returns glue) data_contract_specification source table_names =
        ([], data_contract_specification, None))
  /\ (forall e,
        import_glue (Throws e) data_contract_specification source table_names =
        ([], data_contract_specification, Some e)).
Proof.
  split; [|split].
  - intros e H. unfold import_glue, get_glue_database.
    rewrite io_bind_call, H, handled. reflexivity.
  - intros response database H Hd Hc. unfold import_glue.
    now rewrite (database_answer _ _ _ _ _ H Hd Hc).
  - reflexivity.
Qed.

(** X16: what [import_glue] leaves in the specification.  Once the
    database has a [CatalogId], [servers] is the one server [production]
    of that account, with the database's location, whatever was there
    before and even if a table raises later; no model is touched but
    those of the tables named; and when the call returns, each of these
    tables has a model of type [table]. *)
Theorem import_glue_frame (glue : Glue)
    (data_contract_specification : DataContractSpecification) (source : pystr)
    (names : list pystr) (response : pyval) (database : dict pyval)
    (catalogid : pyval) out final raised :
  get_database glue source = Returns response ->
  subscript response (py "Database") = Ok (PDict database) ->
  dict_get database (py "CatalogId") = Some catalogid ->
  catalogid <> PNone ->
  import_glue (Returns glue) data_contract_specification source
    (Some (List.map PStr names)) = (out, final, raised) ->
  servers final = Some (production catalogid source (location_of database))
  /\ (forall k, ~ In k names ->
        model_of final (PStr k) = model_of data_contract_specification (PStr k))
  /\ (raised = None ->
      forall n, In n names ->
        exists model, model_of final (PStr n) = Some model
                      /\ model_type model = py "table").
Proof.
  intros H Hd Hc Hne. unfold import_glue.
  rewrite (database_answer _ _ _ _ _ H Hd Hc).
  assert (E : forall A (a b : A), match catalogid with PNone => a | _ => b end = b)
    by (intros; destruct catalogid; congruence).
  rewrite E. cbn [ret].
  destruct (import_tables _ _ _ _) as [[out2 final2] raised2] eqn:Et.
  intros [= <- <- <-].
  apply import_tables_frame in Et as (H1 & H2 & H3). cbn [servers] in H1.
  split; [exact H1|]. split; [|exact H3].
  intros k Hk. now rewrite (H2 k Hk).
Qed.

(** X17: when the tables are not named and the listing of the database
    fails, [import_glue] records the server, prints the line of
    [get_glue_tables], adds no model (a specification without models
    stays without) and raises nothing. *)
Theorem import_glue_without_listing (glue : Glue)
    (data_contract_specification : DataContractSpecification) (source : pystr)
    (response : pyval) (database : dict pyval) (catalogid : pyval)
    (pages : list pyval) (stop : option failure) (e : failure) :
  get_database glue source = Returns response ->
  subscript response (py "Database") = Ok (PDict database) ->
  dict_get database (py "CatalogId") = Some catalogid ->
  catalogid <> PNone ->
  paginate_get_tables glue source = (pages, stop) ->
  collect_table_names pages stop = Throws e ->
  import_glue (Returns glue) data_contract_specification source None =
  ([handler_line (tables_database_not_found source) e],
   {| servers := Some (production catalogid source (location_of database));
      models := models data_contract_specification |},
   None).
Proof.
  intros H Hd Hc Hne Hp He. unfold import_glue.
  rewrite (database_answer _ _ _ _ _ H Hd Hc).
  assert (E : forall A (a b : A), match catalogid with PNone => a | _ => b end = b)
    by (intros; destruct catalogid; congruence).
  rewrite E. unfold get_glue_tables. rewrite io_bind_call, Hp, He, handled.
  reflexivity.
Qed.

(** X18: the model of a table.  For a table whose response lists the
    columns [columns] and the partition keys [keys], one pass of the loop
    of [import_glue] stores under the table's name a model of type
    [table] whose fields are those of the run on [columns] followed by
    the key columns; if that run raises, the exception leaves
    [import_glue], no model is stored for the table, and [models] has
    become a dictionary all the same. *)
Theorem table_model (glue : Glue) (source name : pystr)
    (data_contract_specification : DataContractSpecification)
    (response table descriptor : pyval)
    (columns : list RawColumn) (keys : list (pystr * pystr)) :
  get_table glue source (PStr name) = Returns response ->
  subscript response (py "Table") = Ok table ->
  subscript table (py "StorageDescriptor") = Ok descriptor ->
  subscript descriptor (py "Columns") =
    Ok (PList (List.map (fun c => PDict (column_record c)) columns)) ->
  partition_keys table keys ->
  import_tables (Returns glue) source [PStr name] data_contract_specification =
  match snd (import_columns (columns ++ List.map partition_column keys)) with
  | Ok fields =>
      ([],
       {| servers := servers data_contract_specification;
          models :=
            Some (store_key (with_models data_contract_specification) (PStr name)
                    {| model_type := py "table"; model_fields := fields |}) |},
       None)
  | Raise e =>
      ([],
       {| servers := servers data_contract_specification;
          models := Some (with_models data_contract_specification) |},
       Some (Python e))
  end.
Proof.
  intros Hcall Ht Hd Hc Hk. cbn [import_tables].
  rewrite (table_schema_of_columns _ _ _ _ _ _ _ _ Hcall Ht Hd Hc Hk).
  rewrite format_schema_value_store. unfold import_columns, with_models.
  rewrite !length_map.
  destruct (format_schema _ _) as [h' [schema|e]]; cbn [bind lift snd].
  - destruct (import_record_fields _ _) as [fields|e];
      destruct data_contract_specification as [s [m|]]; reflexivity.
  - destruct data_contract_specification as [s [m|]]; reflexivity.
Qed.

(** ** A comma inside the type of a struct member *)

Lemma find_none (s : pystr) (c : ascii) : ~ In c s -> find s c = -1.
Proof.
  intros H. unfold find.
  assert (E : index_of c s = None).
  { induction s as [|d s IH]; cbn [index_of]; [reflexivity|].
    destruct (Ascii.eqb d c) eqn:Ed.
    - apply Ascii.eqb_eq in Ed. subst. exfalso. apply H. now left.
    - rewrite IH; [reflexivity|]. intros Hin. apply H. now right. }
  now rewrite E.
Qed.

Lemma fileds_to_add_stray (piece : pystr) :
  identifier piece = true -> fileds_to_add piece = Ok (stray_literal piece).
Proof.
  intros Hid. assert (Hc : ~ In ":"%char piece) by now apply identifier_free.
  unfold fileds_to_add, stray_literal. cbv zeta.
  rewrite (count_none piece) by exact Hc. cbn [Nat.eqb].
  rewrite (find_none piece) by exact Hc.
  change (-1 + 1) with 0.
  assert (E : slice_from piece 0 = piece).
  { unfold slice_from. rewrite bound_nonneg by (unfold len; lia). reflexivity. }
  now rewrite E.
Qed.

Lemma loop_with_stray (n a b : pystr) :
  identifier n = true -> identifier a = true -> identifier b = true ->
  let text := py "struct<" ++ (n ++ py ":" ++ a ++ py "," ++ b) ++ py ">" in
  for_range (count text "<") rewrite_innermost text =
  Ok (py "'Type':'struct'|'Fields':["
      ++ (member_literal (n, Scalar a) ++ py "|" ++ stray_literal b) ++ py "]").
Proof.
  intros Hn Ha Hb text.
  assert (Hfree : forall c, plain_char c = false ->
            ~ In c (n ++ py ":" ++ a ++ py "," ++ b) \/ c = ":"%char \/ c = ","%char).
  { intros c Hc.
    destruct (Ascii.eqb c ":") eqn:E1; [apply Ascii.eqb_eq in E1; auto|].
    destruct (Ascii.eqb c ",") eqn:E2; [apply Ascii.eqb_eq in E2; auto|].
    left. intros Hin.
    apply in_app_or in Hin as [Hin|Hin]; [now apply (identifier_free n c)|].
    change (py ":" ++ a ++ py "," ++ b) with (":"%char :: a ++ ","%char :: b) in Hin.
    destruct Hin as [<-|Hin]; [now rewrite Ascii.eqb_refl in E1|].
    apply in_app_or in Hin as [Hin|Hin]; [now apply (identifier_free a c)|].
    destruct Hin as [<-|Hin]; [now rewrite Ascii.eqb_refl in E2|].
    now apply (identifier_free b c). }
  assert (Hlt : ~ In "<"%char (n ++ py ":" ++ a ++ py "," ++ b)).
  { destruct (Hfree "<"%char eq_refl) as [H|[H|H]]; [exact H|discriminate H..]. }
  assert (Hgt : ~ In ">"%char (n ++ py ":" ++ a ++ py "," ++ b)).
  { destruct (Hfree ">"%char eq_refl) as [H|[H|H]]; [exact H|discriminate H..]. }
  assert (Hcount : count text "<" = 1%nat).
  { subst text. rewrite count_app, count_app, (count_none _ _ Hlt). reflexivity. }
  rewrite Hcount. cbn [for_range].
  pose proof (rewrite_struct [] (n ++ py ":" ++ a ++ py "," ++ b) [] eq_refl
                Hlt Hgt ltac:(intros [])) as Hr.
  cbn [app] in Hr. rewrite !app_nil_r in Hr.
  subst text. cbn [app]. rewrite Hr. clear Hr.
  assert (Hsplit : split (n ++ py ":" ++ a ++ py "," ++ b) "," =
                   [member_rewritten (n, Scalar a); b]).
  { replace (n ++ py ":" ++ a ++ py "," ++ b)
      with (join [","%char] [member_rewritten (n, Scalar a); b])
      by (unfold member_rewritten; cbn [join fst snd rewritten];
          rewrite <- !app_assoc; reflexivity).
    apply split_join; [discriminate|].
    intros x [<-|[<-|[]]].
    - unfold member_rewritten. cbn [fst snd rewritten]. intros Hin.
      change (n ++ py ":" ++ a) with (n ++ ":"%char :: a) in Hin.
      apply in_app_or in Hin as [Hin|[Hin|Hin]].
      + now apply (identifier_free n ","%char).
      + discriminate Hin.
      + now apply (identifier_free a ","%char).
    - now apply identifier_free. }
  rewrite Hsplit.
  pose proof (struct_fields_join [member_rewritten (n, Scalar a); b]
                [member_literal (n, Scalar a); stray_literal b] 0 (py "[")) as Hs.
  change (0 + len_list ?l - 1) with (len_list l - 1) in Hs.
  rewrite Hs.
  - cbn [bind join]. rewrite app_nil_r, <- !app_assoc. reflexivity.
  - constructor; [now apply fileds_to_add_member|].
    constructor; [now apply fileds_to_add_stray|constructor].
Qed.

Lemma parse_member_raise (fuel : nat) (key vtext : pystr) (pairs : dict pyval)
    (e : exn) :
  identifier key = true ->
  Json.parse_value fuel (Json.skip_ws vtext) = Raise e ->
  Json.parse_members (S fuel) (key ++ dquote :: ":"%char :: vtext) pairs = Raise e.
Proof.
  intros Hkey Hvalue. cbn [Json.parse_members].
  rewrite scanstring_identifier by exact Hkey. cbn [bind rev app].
  change (Json.skip_ws (":"%char :: vtext)) with (":"%char :: vtext). cbv iota.
  change (Ascii.eqb ":" ":") with true. cbv iota.
  rewrite Hvalue. reflexivity.
Qed.

(** after a comma the decoder wants the quote of a key *)
Lemma parse_member_stuck (fuel : nat) (key vtext tail rest : pystr)
    (pairs : dict pyval) (value : pyval) (q : ascii) :
  identifier key = true ->
  Json.parse_value fuel (Json.skip_ws vtext) = Ok (value, ","%char :: tail) ->
  Json.skip_ws tail = q :: rest -> Ascii.eqb q dquote = false ->
  Json.parse_members (S fuel) (key ++ dquote :: ":"%char :: vtext) pairs =
  Raise JSONDecodeError.
Proof.
  intros Hkey Hvalue Htail Hq. cbn [Json.parse_members].
  rewrite scanstring_identifier by exact Hkey. cbn [bind rev app].
  change (Json.skip_ws (":"%char :: vtext)) with (":"%char :: vtext). cbv iota.
  change (Ascii.eqb ":" ":") with true. cbv iota.
  rewrite Hvalue. cbn [bind].
  change (Json.skip_ws (","%char :: tail)) with (","%char :: tail). cbv iota.
  change (Ascii.eqb "," "}") with false. change (Ascii.eqb "," ",") with true.
  cbv iota. rewrite Htail, Hq. reflexivity.
Qed.

Lemma parse_element_raise (fuel : nat) (s : pystr) (values : list pyval) (e : exn) :
  Json.parse_value fuel s = Raise e ->
  Json.parse_elements (S fuel) s values = Raise e.
Proof. intros H. cbn [Json.parse_elements]. now rewrite H. Qed.

Lemma identifier_slice_to (s : pystr) (j : Z) :
  identifier s = true -> identifier (slice_to s j) = true.
Proof.
  unfold identifier, slice_to. rewrite !forallb_forall.
  intros H c Hin. apply H.
  rewrite <- (firstn_skipn (Z.to_nat (bound (len s) j)) s).
  apply in_or_app. now left.
Qed.

Lemma loads_with_stray (n a b : pystr) :
  identifier n = true -> identifier a = true -> identifier b = true ->
  Json.loads
    (json_text
       (py "'Type':'struct'|'Fields':["
        ++ (member_literal (n, Scalar a) ++ py "|" ++ stray_literal b) ++ py "]")) =
  Raise JSONDecodeError.
Proof.
  intros Hn Ha Hb.
  pose proof (identifier_slice_to b (-1) Hb) as Hb'.
  set (after := ","%char :: "{"%char :: dquote
                :: (py "Name" ++ dquote :: ":"%char
                    :: (dquote :: slice_to b (-1) ++ dquote :: ","%char
                        :: (b ++ "}"%char :: "]"%char :: "}"%char :: [])))).
  assert (Htext :
    json_text
      (py "'Type':'struct'|'Fields':["
       ++ (member_literal (n, Scalar a) ++ py "|" ++ stray_literal b) ++ py "]") =
    "{"%char :: dquote
    :: (py "Type" ++ dquote :: ":"%char
        :: (dquote :: py "struct" ++ dquote :: ","%char :: dquote
            :: (py "Fields" ++ dquote :: ":"%char
                :: ("["%char :: (jsonify (member_literal (n, Scalar a)) ++ after)))))).
  { unfold json_text. cbv zeta. fold (jsonify (py "'Type':'struct'|'Fields':["
       ++ (member_literal (n, Scalar a) ++ py "|" ++ stray_literal b) ++ py "]")).
    unfold stray_literal. rewrite !jsonify_app.
    rewrite (jsonify_identifier b Hb), (jsonify_identifier _ Hb').
    subst after. rewrite <- !app_assoc. reflexivity. }
  rewrite Htext. clear Htext. unfold Json.loads.
  change (Json.skip_ws ("{"%char :: ?x)) with ("{"%char :: x).
  remember (2 * length ("{"%char :: dquote
    :: (py "Type" ++ dquote :: ":"%char
        :: (dquote :: py "struct" ++ dquote :: ","%char :: dquote
            :: (py "Fields" ++ dquote :: ":"%char
                :: ("["%char :: (jsonify (member_literal (n, Scalar a)) ++ after)))))))%nat
    as fuel eqn:Hfuel.
  cbn [py list_ascii_of_string app length] in Hfuel.
  assert (Hafter : (8 <= length (jsonify (member_literal (n, Scalar a)) ++ after))%nat).
  { rewrite length_app. subst after. cbn [py list_ascii_of_string app length]. lia. }
  rewrite parse_object.
  destruct fuel as [|[|[|[|[|[|[|[|[|fuel]]]]]]]]]; try lia.
  rewrite (parse_member_more _ _ _
             (py "Fields" ++ dquote :: ":"%char
              :: ("["%char :: (jsonify (member_literal (n, Scalar a)) ++ after)))
             _ (PStr (py "struct")));
    [|reflexivity|apply (parse_string _ (py "struct")); reflexivity].
  rewrite (parse_member_raise _ _ _ _ JSONDecodeError); [reflexivity|reflexivity|].
  change (Json.skip_ws ("["%char :: ?x)) with ("["%char :: x).
  destruct (member_text_head (n, Scalar a)) as [body Hbody].
  assert (Hmore : jsonify (member_literal (n, Scalar a)) ++ after =
                  "{"%char :: (dquote :: body) ++ after)
    by now rewrite Hbody.
  rewrite Hmore, parse_array, <- Hmore.
  rewrite (parse_element_more _ _
             (dquote
              :: (py "Name" ++ dquote :: ":"%char
                  :: (dquote :: slice_to b (-1) ++ dquote :: ","%char
                      :: (b ++ "}"%char :: "]"%char :: "}"%char :: []))))
             _ (member_entry (n, Scalar a))).
  - apply parse_element_raise. rewrite parse_object.
    destruct (skip_ws_identifier b ("]"%char :: "}"%char :: []) Hb)
      as (q & rest & Hskip & Hq).
    apply (parse_member_stuck _ _ _ (b ++ "}"%char :: "]"%char :: "}"%char :: [])
             rest _ (PStr (slice_to b (-1))) q);
      [reflexivity| |exact Hskip|exact Hq].
    change (Json.skip_ws (dquote :: ?x)) with (dquote :: x).
    now apply parse_string.
  - apply parse_member_literal; [exact Hn|exact Ha|now apply parses_scalar|].
    fold after. lia.
Qed.

(** X9: a comma inside the type of a struct member.  The content of a
    struct is split at every comma, so the type [decimal(10,2)] of a
    member is cut in two; the second piece has no colon and yields a
    literal that is not JSON.  On [struct<name:before,after>],
    [generate_sub_fields] raises the decoding error, and so does the run
    on a column of that type, whose record stays as it was. *)
Theorem comma_in_member_type (name before after : pystr) :
  identifier name = true -> identifier before = true -> identifier after = true ->
  generate_sub_fields (struct_with_comma name before after) = Raise JSONDecodeError
  /\ forall c, Type_ c = struct_with_comma name before after ->
       import_columns [c] = ([column_record c], Raise JSONDecodeError).
Proof.
  intros Hn Ha Hb.
  assert (Hgen : generate_sub_fields (struct_with_comma name before after) =
                 Raise JSONDecodeError).
  { unfold generate_sub_fields, struct_with_comma. cbv zeta.
    rewrite (loop_with_stray name before after Hn Ha Hb). cbn [bind].
    now apply loads_with_stray. }
  split; [exact Hgen|].
  intros c Hc. apply import_columns_raise.
  unfold format_record. cbn [subscript]. rewrite column_type, Hc. cbn [bind].
  assert (E1 : startswith (struct_with_comma name before after) (py "array<") = false)
    by reflexivity.
  assert (E2 : startswith (struct_with_comma name before after) (py "struct<") = true)
    by reflexivity.
  now rewrite E1, E2, Hgen.
Qed.

(** ** Records with missing keys *)

(** X19: a record need not have its keys.  A record without [Type]
    gives a field without a type, with [required] the truth value of its
    [Hive] and the description its [Comment], stored under its [Name], or
    under [None] when it has none; nothing is raised.  What is not a
    record at all (a string, a list, [None]) ends the import with an
    [AttributeError]. *)
Theorem records_with_missing_keys :
  (forall (d : dict pyval) (fuel : nat),
     dict_get d (py "Type") = None ->
     hashable (entry d (py "Name")) = true ->
     import_record_fields (S fuel) (PList [PDict d]) =
     Ok [(entry d (py "Name"),
          mkField None (Some (truthy (entry d (py "Hive")))) (entry d (py "Comment"))
            Unset None)])
  /\ (forall (field : pyval) (rest : list pyval) (fuel : nat),
        (forall d, field <> PDict d) ->
        import_record_fields (S fuel) (PList (field :: rest)) = Raise AttributeError).
Proof.
  split.
  - intros d fuel Ht Hh. rewrite import_record_fields_unfold.
    cbn [iterate bind for_each]. unfold import_record_field.
    rewrite !get_dict, Ht. cbn [bind map_type_from_sql is_type].
    fold (entry d (py "Hive")) (entry d (py "Comment")) (entry d (py "Name")).
    cbn [bind fst snd]. unfold setitem. rewrite Hh. cbn [store_key bind].
    now destruct (truthy (entry d (py "Hive"))).
  - intros field rest fuel Hf. rewrite import_record_fields_unfold.
    cbn [iterate bind for_each]. unfold import_record_field.
    destruct field; try reflexivity. now destruct (Hf d).
Qed.

(** ** The catalogue functions never end for want of fuel *)

Lemma format_record_not_out_of_fuel (d : dict pyval) :
  format_record d <> Raise OutOfFuel.
Proof.
  unfold format_record.
  apply bind_not_raise; [apply subscript_not_out_of_fuel|].
  intros [| | |type| |] _; try easy.
  destruct (startswith type (py "array<")).
  { apply bind_not_raise; [apply generate_sub_fields_not_out_of_fuel|].
    intros parsed _. apply bind_not_raise; [apply subscript_not_out_of_fuel|easy]. }
  destruct (startswith type (py "struct<")); [|easy].
  apply bind_not_raise; [apply generate_sub_fields_not_out_of_fuel|].
  intros parsed _. apply bind_not_raise; [apply subscript_not_out_of_fuel|easy].
Qed.

Lemma iterate_not_out_of_fuel (v : pyval) : iterate v <> Raise OutOfFuel.
Proof. now destruct v. Qed.

Lemma format_schema_value_not_out_of_fuel (schema : pyval) :
  format_schema_value schema <> Raise OutOfFuel.
Proof.
  unfold format_schema_value.
  apply bind_not_raise; [apply iterate_not_out_of_fuel|]. intros columns _.
  apply bind_not_raise; [|intros; now destruct schema].
  apply for_each_not_raise. intros done column _.
  apply bind_not_raise; [|easy].
  destruct column; cbn [format_value subscript bind]; try easy.
  apply bind_not_raise; [apply format_record_not_out_of_fuel|easy].
Qed.

Lemma get_glue_table_schema_not_out_of_fuel (glue : Glue) (database_name : pystr)
    (table_name : pyval) :
  snd (get_glue_table_schema (Returns glue) database_name table_name) <>
  Throws (Python OutOfFuel).
Proof.
  unfold get_glue_table_schema. rewrite io_bind_call.
  destruct (get_table glue database_name table_name) as [response|e].
  - match goal with
    | |- snd (lift ?r) <> _ =>
        assert (H : r <> Raise OutOfFuel); [|now destruct r as [?|[]]]
    end.
    apply bind_not_raise; [apply subscript_not_out_of_fuel|intros table _].
    apply bind_not_raise; [apply subscript_not_out_of_fuel|intros descriptor _].
    apply bind_not_raise; [apply subscript_not_out_of_fuel|intros table_schema _].
    apply bind_not_raise; [apply subscript_not_out_of_fuel|intros table' _].
    apply bind_not_raise; [apply get_not_out_of_fuel|intros keys _].
    apply bind_not_raise; [|intros; apply format_schema_value_not_out_of_fuel].
    assert (Hloop :
      (let* table0 := subscript response (py "Table") in
       let* keys0 := subscript table0 (py "PartitionKeys") in
       let* keys1 := iterate keys0 in
       for_each keys1 append_partition_key table_schema) <> Raise OutOfFuel).
    { apply bind_not_raise; [apply subscript_not_out_of_fuel|intros ? _].
      apply bind_not_raise; [apply subscript_not_out_of_fuel|intros ? _].
      apply bind_not_raise; [apply iterate_not_out_of_fuel|intros ? _].
      apply for_each_not_raise. intros acc pk _.
      destruct acc; cbn [append_partition_key]; try easy.
      apply bind_not_raise; [apply subscript_not_out_of_fuel|intros ? _].
      apply bind_not_raise; [apply subscript_not_out_of_fuel|easy]. }
    destruct keys; easy.
  - rewrite handled. discriminate.
Qed.

(** The fuel of the embedding is not what ends an import. *)
Lemma import_tables_not_out_of_fuel (glue : Glue) (source : pystr)
    (table_names : list pyval) (data_contract_specification : DataContractSpecification) :
  snd (import_tables (Returns glue) source table_names data_contract_specification)
  <> Some (Python OutOfFuel).
Proof.
  revert data_contract_specification.
  induction table_names as [|table_name rest IH]; intros spec; cbn [import_tables];
    [discriminate|].
  pose proof (get_glue_table_schema_not_out_of_fuel glue source table_name) as Hs.
  destruct (get_glue_table_schema (Returns glue) source table_name)
    as [out [table_schema|e]]; cbn [snd] in *; [|congruence].
  pose proof (proj1 (enough_fuel (S (depth table_schema))) table_schema
                ltac:(lia)) as Hf.
  destruct (import_record_fields _ table_schema) as [fields|e];
    cbn [snd]; [|congruence].
  destruct spec as [s [m|]]; cbn [models servers].
  - pose proof (setitem_not_out_of_fuel m table_name
                  {| model_type := py "table"; model_fields := fields |}) as Hi.
    destruct (setitem m table_name _) as [m'|e]; cbn [snd]; [|congruence].
    specialize (IH {| servers := s; models := Some m' |}).
    now destruct (import_tables _ _ _ _) as [[out' final] raised].
  - pose proof (setitem_not_out_of_fuel [] table_name
                  {| model_type := py "table"; model_fields := fields |}) as Hi.
    destruct (setitem [] table_name _) as [m'|e]; cbn [snd]; [|congruence].
    specialize (IH {| servers := s; models := Some m' |}).
    now destruct (import_tables _ _ _ _) as [[out' final] raised].
Qed.

(** ** The exceptions of the normalizer *)

Lemma words_from_nonempty (s cur : pystr) :
  has_word s = true \/ cur <> [] -> words_from s cur <> [].
Proof.
  revert cur. induction s as [|c s IH]; intros cur H; cbn [words_from].
  - destruct H as [H|H]; [discriminate|]. now destruct cur.
  - cbn [has_word existsb] in H. destruct (is_word c).
    + apply IH. right. discriminate.
    + destruct cur; [|discriminate].
      apply IH. destruct H as [H|H]; [now left|congruence].
Qed.

Lemma last_word (s : pystr) :
  has_word s = true -> exists w, last_item (findall_words s) = Ok w.
Proof.
  intros H. unfold last_item, findall_words.
  pose proof (words_from_nonempty s [] (or_introl H)) as Hne.
  destruct (rev (words_from s [])) as [|w l] eqn:E; [|eauto].
  exfalso. apply Hne. rewrite <- (rev_involutive (words_from s [])), E. reflexivity.
Qed.

Lemma has_word_app (a b : pystr) :
  has_word (a ++ b) = (has_word a || has_word b)%bool.
Proof. apply existsb_app. Qed.

Lemma in_or_not (c : ascii) (s : pystr) : In c s \/ ~ In c s.
Proof.
  induction s as [|d s [IH|IH]]; [now right|left; now right|].
  destruct (Ascii.eqb d c) eqn:E.
  - apply Ascii.eqb_eq in E. left. now left.
  - right. intros [H|H]; [|auto]. subst. now rewrite Ascii.eqb_refl in E.
Qed.

Lemma rfind_none (s : pystr) (c : ascii) : ~ In c s -> rfind s c = -1.
Proof.
  intros H. unfold rfind.
  destruct (index_of c (rev s)) as [i|] eqn:E; [|reflexivity].
  apply index_of_some in E as (a & b & Hs & _). exfalso. apply H.
  apply in_rev. rewrite Hs. apply in_elt.
Qed.

Lemma slice_to_is_prefix (s : pystr) (j : Z) : exists t, s = slice_to s j ++ t.
Proof.
  unfold slice_to. eexists. symmetry. apply firstn_skipn.
Qed.

(** the text before the last bracket, or before the last character when
    there is no bracket, holds a word *)
Lemma guarded_prev (s : pystr) :
  guarded s -> has_word (slice_to s (rfind s "<")) = true.
Proof.
  intros [H1 H2]. destruct (in_or_not "<"%char s) as [Hin|Hnot].
  - destruct (rfind_split s "<"%char Hin) as (prev & rest & Hs & _ & ->).
    rewrite Hs at 1. rewrite slice_to_prefix. now apply (H1 prev rest).
  - now rewrite (rfind_none s _ Hnot).
Qed.

Lemma guarded_start (s : pystr) :
  startswith s (py "array<") = true \/ startswith s (py "struct<") = true ->
  guarded s.
Proof.
  intros H.
  assert (Hs : exists r, s = "a"%char :: "r"%char :: r \/ s = "s"%char :: "t"%char :: r).
  { destruct H as [H|H]; apply startswith_spec in H as [r ->]; eexists;
      [left|right]; reflexivity. }
  destruct Hs as [r Hs]. split.
  - intros a b E.
    destruct a as [|x [|y a]]; cbn [app] in E.
    + destruct Hs as [-> | ->]; discriminate E.
    + destruct Hs as [-> | ->]; discriminate E.
    + destruct Hs as [-> | ->]; injection E as <- <- _; reflexivity.
  - assert (Hlen : exists x y z t, s = x :: y :: z :: t /\ is_word x = true).
    { destruct H as [H|H]; apply startswith_spec in H as [t ->];
        eexists _, _, _, _; split; reflexivity. }
    destruct Hlen as (x & y & z & t & -> & Hx).
    unfold slice_to, len. cbn [length]. rewrite bound_neg by lia.
    replace (Z.to_nat (-1 + Z.of_nat (S (S (S (length t))))))
      with (S (S (length t))) by lia.
    cbn [firstn has_word existsb]. now rewrite Hx.
Qed.

(** a literal that opens with ['T] spliced after a prefix of a guarded
    text gives a guarded text *)
Lemma guarded_splice (s p t q : pystr) (c : ascii) :
  guarded s -> s = p ++ t ->
  guarded (p ++ "'"%char :: "T"%char :: c :: q).
Proof.
  intros [H1 _] Hs. split.
  - intros a b E. apply app_eq_app in E as [l [[Hp Hl]|[Ha Hl]]].
    + destruct l as [|x l]; cbn [app] in Hl; [discriminate Hl|].
      injection Hl as <- _. apply (H1 a (l ++ t)).
      rewrite Hs, Hp, <- app_assoc. reflexivity.
    + destruct l as [|x [|y l]]; cbn [app] in Hl; try discriminate Hl.
      injection Hl as <- <- _. rewrite Ha, has_word_app.
      cbn [has_word existsb].
      change (is_word "T") with true. now rewrite !orb_true_r.
  - destruct (exists_last (l := c :: q) ltac:(discriminate)) as (q' & y & Hq).
    rewrite Hq.
    replace (p ++ "'"%char :: "T"%char :: q' ++ [y])
      with ((p ++ "'"%char :: "T"%char :: q') ++ [y])
      by (rewrite <- app_assoc; reflexivity).
    change (-1) with (- len [y]). rewrite slice_to_drop by discriminate.
    rewrite has_word_app. cbn [has_word existsb].
    change (is_word "T") with true. now rewrite !orb_true_r.
Qed.

(** One pass on a guarded text: nothing is raised, and the text stays
    guarded. *)
Lemma rewrite_innermost_guarded (s : pystr) :
  guarded s -> exists s', rewrite_innermost s = Ok s' /\ guarded s'.
Proof.
  intros Hg. unfold rewrite_innermost. cbv zeta.
  destruct (last_word _ (guarded_prev s Hg)) as [w ->]. cbn [bind].
  destruct (slice_to_is_prefix s (rfind s "<")) as [t Ht].
  destruct (str_eqb w (py "struct")) eqn:Es.
  - apply str_eqb_eq in Es. subst w.
    change (str_eqb (py "struct") (py "array")) with false.
    match goal with
    | |- context [struct_fields ?x ?last ?l ?fields] =>
        destruct (struct_fields_ok l x last fields) as [text ->]
    end.
    cbn [bind]. eexists. split; [reflexivity|].
    destruct (slice_to_is_prefix (slice_to s (rfind s "<")) (-6)) as [t' Ht'].
    apply (guarded_splice s _ (t' ++ t) _ _ Hg).
    rewrite Ht at 1. rewrite Ht' at 1. now rewrite <- app_assoc.
  - cbn [bind]. destruct (str_eqb w (py "array")).
    + destruct (slice_to_is_prefix (slice_to s (rfind s "<")) (-5)) as [t' Ht'].
      assert (Hp : s = slice_to (slice_to s (rfind s "<")) (-5) ++ t' ++ t).
      { rewrite Ht at 1. rewrite Ht' at 1. now rewrite <- app_assoc. }
      destruct (startswith _ (py "'Type'")); eexists; (split; [reflexivity|]);
        apply (guarded_splice s _ (t' ++ t) _ _ Hg Hp).
    + eauto.
Qed.

Lemma for_range_guarded (n : nat) (s : pystr) :
  guarded s -> exists s', for_range n rewrite_innermost s = Ok s'.
Proof.
  revert s. induction n as [|n IH]; intros s Hg; cbn [for_range]; [eauto|].
  destruct (rewrite_innermost_guarded s Hg) as (s1 & -> & Hg1). cbn [bind].
  now apply IH.
Qed.

(** ** The exceptions of the decoder *)

Lemma scanstring_raises (s acc : pystr) (e : exn) :
  Json.scanstring s acc = Raise e -> decoding e.
Proof.
  remember (length s) as n eqn:Hn. revert s acc Hn.
  induction n as [n IHn] using lt_wf_ind. intros s acc ->.
  assert (IH : forall t, (length t < length s)%nat -> forall acc,
            Json.scanstring t acc = Raise e -> decoding e).
  { intros t Ht acc'. now apply (IHn (length t)). }
  clear IHn. unfold decoding.
  destruct s as [|c s]; cbn [Json.scanstring]; [intros [= <-]; auto|].
  destruct (Ascii.eqb c dquote); [discriminate|].
  destruct (Ascii.eqb c "\").
  { destruct s as [|x s]; [intros [= <-]; auto|].
    destruct (Ascii.eqb x "u").
    - destruct s as [|h1 [|h2 [|h3 [|h4 rest]]]]; try (intros [= <-]; auto).
      destruct (Json.hex4 h1 h2 h3 h4); [|intros [= <-]; auto].
      destruct (Nat.ltb _ _); [|intros [= <-]; auto].
      apply IH. cbn [length]. lia.
    - destruct (Json.unescape x); [|intros [= <-]; auto].
      apply IH. cbn [length]. lia. }
  destruct (Nat.ltb _ _); [intros [= <-]; auto|].
  apply IH. cbn [length]. lia.
Qed.

Lemma scan_number_raises (s : pystr) (e : exn) :
  Json.scan_number s = Some (Raise e) -> decoding e.
Proof.
  unfold Json.scan_number, decoding.
  assert (G : forall (negative : bool) (s1 : pystr),
            match s1 with
            | [] => None
            | d :: s2 =>
                if Json.is_digit d
                then
                  let (magnitude, rest) :=
                    if Ascii.eqb d "0" then (0, s2) else Json.span_digits s1 0 in
                  if Json.has_frac_or_exp rest
                  then Some (Raise NotModelled)
                  else Some (Ok (PInt (if negative then - magnitude else magnitude), rest))
                else None
            end = Some (Raise e) -> e = JSONDecodeError \/ e = NotModelled).
  { intros negative [|d s2]; [discriminate|].
    destruct (Json.is_digit d); [|discriminate].
    destruct (if Ascii.eqb d "0" then (0, s2) else Json.span_digits (d :: s2) 0)
      as [magnitude rest].
    destruct (Json.has_frac_or_exp rest); [intros [= <-]; auto|discriminate]. }
  destruct s as [|c s']; [discriminate|].
  destruct (Ascii.eqb c "-"); cbv beta iota.
  - apply (G true s').
  - apply (G false (c :: s')).
Qed.

(** the parsers raise the decoder's exceptions or run out of fuel, and
    what [parse_members] returns is a dictionary *)
Lemma parsers_raise (fuel : nat) :
  (forall s e, Json.parse_value fuel s = Raise e -> decoding e \/ e = OutOfFuel)
  /\ (forall s pairs e,
        Json.parse_members fuel s pairs = Raise e -> decoding e \/ e = OutOfFuel)
  /\ (forall s values e,
        Json.parse_elements fuel s values = Raise e -> decoding e \/ e = OutOfFuel)
  /\ (forall s pairs v rest,
        Json.parse_members fuel s pairs = Ok (v, rest) -> exists d, v = PDict d).
Proof.
  induction fuel as [|fuel (IHv & IHm & IHe & IHd)].
  { split; [|split; [|split]]; cbn.
    - intros ? ? [= <-]. now right.
    - intros ? ? ? [= <-]. now right.
    - intros ? ? ? [= <-]. now right.
    - intros; discriminate. }
  split; [|split; [|split]].
  - intros s e. destruct s as [|c s']; cbn [Json.parse_value].
    { intros [= <-]. left. now left. }
    destruct (Ascii.eqb c dquote).
    { destruct (Json.scanstring s' []) as [[text rest]|e'] eqn:E; cbn [bind];
        [discriminate|].
      intros [= <-]. left. now apply (scanstring_raises s' []). }
    destruct (Ascii.eqb c "{").
    { destruct (Json.skip_ws s') as [|d rest]; [intros [= <-]; left; now left|].
      destruct (Ascii.eqb d "}"); [discriminate|].
      destruct (Ascii.eqb d dquote); [apply IHm|intros [= <-]; left; now left]. }
    destruct (Ascii.eqb c "[").
    { destruct (Json.skip_ws s') as [|d rest]; [intros [= <-]; left; now left|].
      destruct (Ascii.eqb d "]"); [discriminate|]. apply IHe. }
    destruct (startswith (c :: s') (py "null")); [discriminate|].
    destruct (startswith (c :: s') (py "true")); [discriminate|].
    destruct (startswith (c :: s') (py "false")); [discriminate|].
    destruct (Json.scan_number (c :: s')) as [r|] eqn:En.
    { intros ->. left. now apply (scan_number_raises (c :: s')). }
    destruct (_ || _)%bool; intros [= <-]; left; [now right|now left].
  - intros s pairs e. cbn [Json.parse_members].
    destruct (Json.scanstring s []) as [[key s1]|e'] eqn:E; cbn [bind].
    2:{ intros [= <-]. left. now apply (scanstring_raises s []). }
    destruct (Json.skip_ws s1) as [|c s2]; [intros [= <-]; left; now left|].
    destruct (Ascii.eqb c ":"); [|intros [= <-]; left; now left].
    destruct (Json.parse_value fuel (Json.skip_ws s2)) as [[value s3]|e'] eqn:Ev;
      cbn [bind].
    2:{ intros [= <-]. now apply (IHv _ _ Ev). }
    destruct (Json.skip_ws s3) as [|d s4]; [intros [= <-]; left; now left|].
    destruct (Ascii.eqb d "}"); [discriminate|].
    destruct (Ascii.eqb d ","); [|intros [= <-]; left; now left].
    destruct (Json.skip_ws s4) as [|q s5]; [intros [= <-]; left; now left|].
    destruct (Ascii.eqb q dquote); [apply IHm|intros [= <-]; left; now left].
  - intros s values e. cbn [Json.parse_elements].
    destruct (Json.parse_value fuel s) as [[value s1]|e'] eqn:Ev; cbn [bind].
    2:{ intros [= <-]. now apply (IHv _ _ Ev). }
    destruct (Json.skip_ws s1) as [|d s2]; [intros [= <-]; left; now left|].
    destruct (Ascii.eqb d "]"); [discriminate|].
    destruct (Ascii.eqb d ","); [apply IHe|intros [= <-]; left; now left].
  - intros s pairs v rest. cbn [Json.parse_members].
    destruct (Json.scanstring s []) as [[key s1]|e']; cbn [bind]; [|discriminate].
    destruct (Json.skip_ws s1) as [|c s2]; [discriminate|].
    destruct (Ascii.eqb c ":"); [|discriminate].
    destruct (Json.parse_value fuel (Json.skip_ws s2)) as [[value s3]|e'];
      cbn [bind]; [|discriminate].
    destruct (Json.skip_ws s3) as [|d s4]; [discriminate|].
    destruct (Ascii.eqb d "}"); [intros [= <- _]; eauto|].
    destruct (Ascii.eqb d ","); [|discriminate].
    destruct (Json.skip_ws s4) as [|q s5]; [discriminate|].
    destruct (Ascii.eqb q dquote); [apply IHd|discriminate].
Qed.

(** what [json.loads] makes of a text in braces: a dictionary, or one of
    the decoder's exceptions *)
Lemma loads_braces (text : pystr) :
  (exists d, Json.loads (json_text text) = Ok (PDict d))
  \/ exists e, Json.loads (json_text text) = Raise e /\ decoding e.
Proof.
  pose proof (JsonFacts.loads_not_out_of_fuel (json_text text)) as Hfuel.
  unfold Json.loads in *.
  set (fuel := (2 * length (json_text text))%nat) in *. clearbody fuel.
  change (Json.skip_ws (json_text text))
    with ("{"%char :: jsonify text ++ py "}") in *.
  rewrite parse_brace in *.
  destruct (parsers_raise fuel) as (_ & Hm & _ & Hd).
  assert (Hend : forall (d : dict pyval) rest,
    (exists d0, match Json.skip_ws rest with
                | [] => Ok (PDict d)
                | _ :: _ => Raise JSONDecodeError
                end = Ok (PDict d0))
    \/ exists e, match Json.skip_ws rest with
                 | [] => Ok (PDict d)
                 | _ :: _ => Raise JSONDecodeError
                 end = Raise e /\ decoding e).
  { intros d rest. destruct (Json.skip_ws rest); [left; eauto|].
    right. exists JSONDecodeError. split; [reflexivity|now left]. }
  destruct (Json.skip_ws (jsonify text ++ py "}")) as [|c rest].
  { right. exists JSONDecodeError. split; [reflexivity|now left]. }
  destruct (Ascii.eqb c "}"); [cbn [bind]; apply Hend|].
  destruct (Ascii.eqb c dquote).
  - destruct (Json.parse_members fuel rest []) as [[v rest']|e] eqn:E; cbn [bind] in *.
    + destruct (Hd _ _ _ _ E) as [d ->]. apply Hend.
    + right. exists e. split; [reflexivity|].
      destruct (Hm _ _ _ E) as [H| ->]; [exact H|]. now destruct Hfuel.
  - right. exists JSONDecodeError. split; [reflexivity|now left].
Qed.

(** X20: where the exceptions of the normalizer come from.  On a type
    text that begins with [array<] or [struct<], which is when
    [format_schema] calls it, the loop of [generate_sub_fields] raises
    nothing: the word looked up before a bracket is always there, so there
    is no [IndexError].  The loop ends with a text, and the function
    returns or raises what [json.loads] returns or raises on that text in
    braces; [format_schema] on a column of that type raises what
    [json.loads] raised, or else a [KeyError], for a dictionary without
    [Items] or [Fields]. *)
Theorem normalizer_exceptions (s : pystr) :
  startswith s (py "array<") = true \/ startswith s (py "struct<") = true ->
  exists text,
    for_range (count s "<") rewrite_innermost s = Ok text
    /\ generate_sub_fields s = Json.loads (json_text text)
    /\ (forall c e,
          Type_ c = s ->
          snd (format_schema [0%nat] [column_record c]) = Raise e ->
          Json.loads (json_text text) = Raise e \/ e = KeyError).
Proof.
  intros Hs.
  destruct (for_range_guarded (count s "<") s (guarded_start s Hs)) as [text Hloop].
  assert (Hgen : generate_sub_fields s = Json.loads (json_text text)).
  { unfold generate_sub_fields. cbv zeta. now rewrite Hloop. }
  exists text. split; [exact Hloop|]. split; [exact Hgen|].
  intros c e Hc.
  assert (Hrec : forall e', format_record (column_record c) = Raise e' ->
                            Json.loads (json_text text) = Raise e' \/ e' = KeyError).
  { intros e'. unfold format_record. cbn [subscript].
    rewrite column_type, Hc. cbn [bind]. rewrite Hgen.
    destruct (loads_braces text) as [[d Hd]|(e0 & He0 & _)].
    - rewrite Hd. cbn [bind subscript].
      destruct (startswith s (py "array<")).
      { destruct (dict_get d (py "Items")); cbn [bind]; [discriminate|].
        intros [= <-]. now right. }
      destruct (startswith s (py "struct<")); [|discriminate].
      destruct (dict_get d (py "Fields")); cbn [bind]; [discriminate|].
      intros [= <-]. now right.
    - rewrite He0. cbn [bind].
      destruct (startswith s (py "array<")); [intros [= <-]; now left|].
      destruct (startswith s (py "struct<")); [intros [= <-]; now left|discriminate]. }
  unfold format_schema. cbn [format_columns].
  rewrite (format_column_record 0 [column_record c] (column_record c) eq_refl).
  destruct (format_record (column_record c)) as [d'|e'] eqn:E;
    cbn [bind format_columns snd]; [discriminate|].
  intros [= <-]. now apply Hrec.
Qed.

(** ** Instances of the further properties *)

Lemma column_of_grammar_witness :
  import_columns [Scenario.struct_column] =
  ([formatted Scenario.struct_column
      (Struct [(py "a", Scalar (py "string")); (py "b", Array (Scalar (py "int")))])],
   Ok [(PStr (py "s"),
        column_field Scenario.struct_column
          (Struct [(py "a", Scalar (py "string"));
                   (py "b", Array (Scalar (py "int")))]))]).
Proof.
  apply (column_of_grammar Scenario.struct_column
           (Struct [(py "a", Scalar (py "string")); (py "b", Array (Scalar (py "int")))]));
    [reflexivity|unfold nesting_bound; cbn; lia|reflexivity].
Defined.

Lemma descriptor_of_grammar_witness :
  generate_sub_fields (py "array<struct<a:string>>") =
  Ok (PDict (entries (Array (Struct [(py "a", Scalar (py "string"))])))).
Proof.
  apply (descriptor_of_grammar (Array (Struct [(py "a", Scalar (py "string"))])));
    [reflexivity|reflexivity|unfold nesting_bound; cbn; lia].
Defined.

Lemma format_schema_idempotent_witness :
  exists h',
    format_schema [0%nat] [column_record Scenario.tags_column] = (h', Ok [0%nat])
    /\ format_schema [0%nat] h' = (h', Ok [0%nat]).
Proof.
  eexists.
  assert (H : format_schema [0%nat] [column_record Scenario.tags_column] =
              (_, Ok [0%nat])) by (vm_compute; reflexivity).
  split; [exact H|]. exact (format_schema_idempotent _ _ _ _ H).
Defined.

Lemma failing_column_stops_run_witness :
  exists d,
    format_record (column_record Scenario.tags_column) = Ok d
    /\ format_record (column_record Scenario.unbalanced_column) = Raise JSONDecodeError
    /\ import_columns [Scenario.tags_column; Scenario.unbalanced_column;
                       Scenario.id_column] =
       ([d; column_record Scenario.unbalanced_column;
         column_record Scenario.id_column], Raise JSONDecodeError).
Proof.
  eexists.
  assert (H1 : format_record (column_record Scenario.tags_column) = Ok _)
    by (vm_compute; reflexivity).
  assert (H2 : format_record (column_record Scenario.unbalanced_column) =
               Raise JSONDecodeError) by (vm_compute; reflexivity).
  split; [exact H1|]. split; [exact H2|].
  apply (failing_column_stops_run [Scenario.tags_column] Scenario.unbalanced_column
           [Scenario.id_column] [_] JSONDecodeError);
    [repeat constructor; exact H1|exact H2].
Defined.

Lemma unbracketed_composite_fails_witness :
  import_columns [Scenario.column "s" "STRUCT<a:int>" false] =
  ([column_record (Scenario.column "s" "STRUCT<a:int>" false)], Raise TypeError)
  /\ import_columns [Scenario.column "l" "array" false] =
     ([column_record (Scenario.column "l" "array" false)], Raise AttributeError).
Proof.
  split.
  - exact (proj1 (unbracketed_composite_fails
                    (Scenario.column "s" "STRUCT<a:int>" false) eq_refl eq_refl)
             eq_refl).
  - exact (proj2 (unbracketed_composite_fails
                    (Scenario.column "l" "array" false) eq_refl eq_refl)
             eq_refl).
Defined.

Lemma keys_in_first_occurrence_order_witness :
  exists h m,
    import_columns (Scenario.id_column :: Scenario.p_column
                    :: Scenario.renamed_columns) = (h, Ok m)
    /\ List.map fst m = [PStr (py "id"); PStr (py "p")].
Proof.
  eexists _, _.
  assert (H : import_columns (Scenario.id_column :: Scenario.p_column
                              :: Scenario.renamed_columns) = (_, Ok _))
    by (vm_compute; reflexivity).
  split; [exact H|].
  exact (keys_in_first_occurrence_order _ _ _ H).
Defined.

Lemma comma_in_member_type_witness :
  generate_sub_fields (py "struct<amount:decimal(10,2)>") = Raise JSONDecodeError.
Proof.
  exact (proj1 (comma_in_member_type (py "amount") (py "decimal(10") (py "2)")
                  eq_refl eq_refl eq_refl)).
Defined.

Lemma sample_partition_keys :
  partition_keys Sample.orders_table [(py "day", py "string")].
Proof.
  right. eexists. split; [reflexivity|]. repeat constructor.
Qed.

Lemma partition_keys_appended_witness :
  match get_glue_table_schema (Returns Sample.glue) (py "sales") (PStr (py "orders")) with
  | (out, Returns table_schema) =>
      out = []
      /\ import_record_fields (S (depth table_schema)) table_schema =
         snd (import_columns
                (Sample.orders_columns
                 ++ List.map partition_column [(py "day", py "string")]))
  | (out, Throws e) =>
      out = []
      /\ exists e', e = Python e'
           /\ snd (import_columns
                     (Sample.orders_columns
                      ++ List.map partition_column [(py "day", py "string")])) =
              Raise e'
  end.
Proof.
  eapply (partition_keys_appended Sample.glue (py "sales") (PStr (py "orders"))
            Sample.orders_response Sample.orders_table);
    [reflexivity|reflexivity|reflexivity|reflexivity|exact sample_partition_keys].
Defined.

Lemma get_glue_tables_lists_pages_witness :
  get_glue_tables (Returns Sample.glue) (py "sales") = ([], Returns [PStr (py "orders")]).
Proof.
  apply (get_glue_tables_lists_pages Sample.glue (py "sales") [Sample.sales_page] None
           [[[(py "Name", PStr (py "orders"))]; [(py "Owner", PStr (py "nobody"))]]]).
  - reflexivity.
  - repeat constructor.
Defined.

Lemma unreadable_table_gets_empty_model_witness :
  import_tables (Returns Sample.glue) (py "sales") [PStr (py "returns")] Sample.blank =
  ([table_not_found (PStr (py "returns")) (py "sales")],
   {| servers := None;
      models := Some [(PStr (py "returns"),
                       {| model_type := py "table"; model_fields := [] |})] |},
   None).
Proof.
  rewrite (unreadable_table_gets_empty_model Sample.glue (py "sales") (py "returns")
             [] Sample.blank EntityNotFoundException eq_refl).
  reflexivity.
Defined.

Lemma import_glue_frame_witness :
  exists out final,
    import_glue (Returns Sample.glue) Sample.blank (py "sales")
      (Some (List.map PStr [py "orders"])) = (out, final, None)
    /\ servers final =
       Some (production (PStr (py "123456789012")) (py "sales") (PStr (py "None")))
    /\ exists model, model_of final (PStr (py "orders")) = Some model
                     /\ model_type model = py "table".
Proof.
  eexists _, _.
  assert (H : import_glue (Returns Sample.glue) Sample.blank (py "sales")
                (Some (List.map PStr [py "orders"])) = (_, _, None))
    by (vm_compute; reflexivity).
  split; [exact H|].
  destruct (import_glue_frame Sample.glue Sample.blank (py "sales") [py "orders"]
              Sample.sales_response Sample.sales_database (PStr (py "123456789012"))
              _ _ _ eq_refl eq_refl eq_refl ltac:(discriminate) H)
    as (Hs & _ & Hm).
  split; [exact Hs|]. apply (Hm eq_refl). now left.
Defined.

Lemma import_glue_without_listing_witness :
  import_glue (Returns Sample.glue_without_listing) Sample.blank (py "sales") None =
  ([error_line (ClientException (py "AccessDeniedException"))],
   {| servers :=
        Some (production (PStr (py "123456789012")) (py "sales") (PStr (py "None")));
      models := None |},
   None).
Proof.
  apply (import_glue_without_listing Sample.glue_without_listing Sample.blank
           (py "sales") Sample.sales_response Sample.sales_database
           (PStr (py "123456789012")) [] (Some (ClientException (py "AccessDeniedException")))
           (ClientException (py "AccessDeniedException")));
    try reflexivity.
  discriminate.
Defined.

Lemma table_model_witness :
  exists fields,
    snd (import_columns
           (Sample.orders_columns
            ++ List.map partition_column [(py "day", py "string")])) = Ok fields
    /\ import_tables (Returns Sample.glue) (py "sales") [PStr (py "orders")]
         Sample.blank =
       ([],
        {| servers := None;
           models := Some [(PStr (py "orders"),
                            {| model_type := py "table"; model_fields := fields |})] |},
        None).
Proof.
  eexists.
  assert (H : snd (import_columns
                     (Sample.orders_columns
                      ++ List.map partition_column [(py "day", py "string")])) = Ok _)
    by (vm_compute; reflexivity).
  split; [exact H|].
  pose proof (table_model Sample.glue (py "sales") (py "orders") Sample.blank
                Sample.orders_response Sample.orders_table _
                Sample.orders_columns [(py "day", py "string")]
                eq_refl eq_refl eq_refl eq_refl sample_partition_keys) as Ht.
  rewrite H in Ht. exact Ht.
Defined.

Lemma normalizer_exceptions_witness :
  exists text,
    for_range (count (py "struct<a:string") "<") rewrite_innermost
      (py "struct<a:string") = Ok text
    /\ generate_sub_fields (py "struct<a:string") = Json.loads (json_text text).
Proof.
  destruct (normalizer_exceptions (py "struct<a:string") (or_intror eq_refl))
    as (text & Hloop & Hgen & _).
  exists text. split; assumption.
Defined.
(** ** The objects of the importer are written before they are stored *)

Module ObjectFacts.
Import Objects.

Lemma triple_lift {A : Type} (P : state -> Prop) (x : res A)
    (Q : A -> state -> Prop) (E : exn -> state -> Prop) :
  (forall a s, x = Ok a -> P s -> Q a s) ->
  (forall e s, x = Raise e -> P s -> E e s) ->
  triple P (lift x) Q E.
Proof.
  intros HQ HE s s' r HP [= <- <-]. destruct x; auto.
Qed.

Lemma triple_ret {A : Type} (P : state -> Prop) (a : A)
    (Q : A -> state -> Prop) (E : exn -> state -> Prop) :
  (forall s, P s -> Q a s) -> triple P (ret a) Q E.
Proof. intros HQ s s' r HP [= <- <-]. auto. Qed.

Lemma triple_and_then {A B : Type} (P : state -> Prop) (m : M A) (k : A -> M B)
    (Q : A -> state -> Prop) (R : B -> state -> Prop) (E : exn -> state -> Prop) :
  triple P m Q E -> (forall a, triple (Q a) (k a) R E) ->
  triple P (and_then m k) R E.
Proof.
  intros Hm Hk s s' r HP. unfold and_then.
  destruct (m s) as [s1 [a|e]] eqn:E1; specialize (Hm _ _ _ HP E1); cbn in Hm.
  - intros H. exact (Hk a _ _ _ Hm H).
  - intros [= <- <-]. exact Hm.
Qed.

Lemma triple_for_in {A : Type} (I : state -> Prop) (l : list A) (body : A -> M unit)
    (E : exn -> state -> Prop) :
  (forall a, In a l -> triple I (body a) (fun _ => I) E) ->
  triple I (for_in l body) (fun _ => I) E.
Proof.
  induction l as [|a l IH]; intros Hbody; cbn [for_in].
  - apply triple_ret. auto.
  - eapply triple_and_then; [apply Hbody; now left|].
    intros u. apply IH. intros b Hb. apply Hbody. now right.
Qed.

Lemma sealed_snoc (history : list event) (e : event) :
  sealed history ->
  (forall r, writes e = Some r -> ~ linked history r) ->
  sealed (history ++ [e]).
Proof.
  intros Hs He i j e1 e2 r H1 H2 Hlt Hl.
  apply lookup_app_Some in H2 as [H2|[Hj H2]].
  - pose proof (lookup_lt_Some _ _ _ H2) as Hj.
    rewrite lookup_app_l in H1 by lia. exact (Hs _ _ _ _ _ H1 H2 Hlt Hl).
  - destruct (j - length history)%nat as [|n] eqn:En; [|now destruct n].
    injection H2 as <-. assert (j = length history) by lia. subst j.
    rewrite lookup_app_l in H1 by lia.
    intros Hw. apply (He _ Hw). exists e1. split; [|exact Hl].
    eapply list_elem_of_In, list_elem_of_lookup_2, H1.
Qed.

Lemma linked_snoc (history : list event) (e : event) (r : ref) :
  linked (history ++ [e]) r <-> linked history r \/ links e = Some r.
Proof.
  unfold linked. split.
  - intros (e0 & Hin & Hl). apply in_app_or in Hin as [Hin|[<-|[]]]; eauto.
  - intros [(e0 & Hin & Hl)| Hl].
    + exists e0. split; [apply in_or_app; now left|exact Hl].
    + exists e. split; [apply in_or_app; right; now left|exact Hl].
Qed.

Lemma building_sub (open open' : list ref) (s : state) :
  building open s -> List.NoDup open' -> (forall r, In r open' -> In r open) ->
  building open' s.
Proof.
  intros (Hs & _ & Hsc & Ho) Hn Hsub. repeat split; auto; now apply Ho, Hsub.
Qed.

Lemma building_tail (r : ref) (open : list ref) (s : state) :
  building (r :: open) s -> building open s.
Proof.
  intros H. apply (building_sub _ _ _ H).
  - destruct H as (_ & Hn & _). now inversion Hn.
  - intros x Hx. now right.
Qed.

Lemma triple_create (open : list ref) (o : object) (E : exn -> state -> Prop) :
  triple (building open) (create o) (fun r => building (r :: open)) E.
Proof.
  intros s s' r (Hs & Hn & Hsc & Ho) [= <- <-].
  unfold building. cbn [objects events]. rewrite length_app. cbn [length].
  split; [|split; [|split]].
  - apply sealed_snoc; [exact Hs|]. intros r [=].
  - constructor; [|exact Hn]. intros Hin. apply Ho in Hin as [Hlt _]. lia.
  - intros r Hl. apply linked_snoc in Hl as [Hl|[=]]. apply Hsc in Hl. lia.
  - intros r Hr. rewrite linked_snoc. destruct Hr as [<-|Hr].
    + split; [lia|]. intros [Hl|[=]]. apply Hsc in Hl. lia.
    + destruct (Ho r Hr) as [Hlt Hnl]. split; [lia|]. now intros [Hl|[=]].
Qed.

(** an assignment of a value that is no object, to an object under
    construction *)
Lemma triple_assign (open : list ref) (r : ref) (attribute : string)
    (update : object -> object) (E : exn -> state -> Prop) :
  In r open ->
  triple (building open) (assign r attribute update None) (fun _ => building open) E.
Proof.
  intros Hr s s' res (Hs & Hn & Hsc & Ho) [= <- <-].
  unfold building. cbn [objects events]. rewrite length_alter.
  split; [|split; [|split]].
  - apply sealed_snoc; [exact Hs|]. intros x [= <-]. now apply Ho.
  - exact Hn.
  - intros x Hl. apply linked_snoc in Hl as [Hl|[=]]. now apply Hsc.
  - intros x Hx. rewrite linked_snoc. destruct (Ho x Hx) as [Hlt Hnl].
    split; [exact Hlt|]. now intros [Hl|[=]].
Qed.

(** an assignment that stores the object [c]: its construction is over *)
Lemma triple_assign_object (open : list ref) (r c : ref) (attribute : string)
    (update : object -> object) (E : exn -> state -> Prop) :
  In r open ->
  triple (building (c :: open)) (assign r attribute update (Some c))
    (fun _ => building open) E.
Proof.
  intros Hr s s' res (Hs & Hn & Hsc & Ho) [= <- <-].
  unfold building. cbn [objects events]. rewrite length_alter.
  inversion Hn as [|? ? Hc Hn']; subst.
  split; [|split; [|split]].
  - apply sealed_snoc; [exact Hs|]. intros x [= <-]. apply Ho. now right.
  - exact Hn'.
  - intros x Hl. apply linked_snoc in Hl as [Hl|[= <-]]; [now apply Hsc|].
    apply Ho. now left.
  - intros x Hx. rewrite linked_snoc.
    destruct (Ho x (or_intror Hx)) as [Hlt Hnl].
    split; [exact Hlt|]. intros [Hl|[= <-]]; [now apply Hnl|now apply Hc].
Qed.

(** an entry set to the object [f]: its construction is over *)
Lemma triple_store (open : list ref) (m f : ref) (k : pyval)
    (E : exn -> state -> Prop) :
  In m open ->
  (forall e s, building (f :: open) s -> E e s) ->
  triple (building (f :: open)) (store m k f) (fun _ => building open) E.
Proof.
  intros Hm HE s s' res Hb. unfold store.
  destruct (hashable k).
  - destruct Hb as (Hs & Hn & Hsc & Ho). intros [= <- <-].
    unfold building. cbn [objects events]. rewrite length_alter.
    inversion Hn as [|? ? Hf Hn']; subst.
    split; [|split; [|split]].
    + apply sealed_snoc; [exact Hs|]. intros x [= <-]. apply Ho. now right.
    + exact Hn'.
    + intros x Hl. apply linked_snoc in Hl as [Hl|[= <-]]; [now apply Hsc|].
      apply Ho. now left.
    + intros x Hx. rewrite linked_snoc.
      destruct (Ho x (or_intror Hx)) as [Hlt Hnl].
      split; [exact Hlt|]. intros [Hl|[= <-]]; [now apply Hnl|now apply Hf].
  - intros [= <- <-]. now apply HE.
Qed.

Lemma triple_lift_keep {A : Type} (P : state -> Prop) (x : res A)
    (E : exn -> state -> Prop) :
  (forall e s, P s -> E e s) -> triple P (lift x) (fun _ => P) E.
Proof. intros HE. apply triple_lift; auto. Qed.

Lemma triple_raise {A : Type} (P : state -> Prop) (c : M A)
    (Q : A -> state -> Prop) (E E' : exn -> state -> Prop) :
  triple P c Q E -> (forall e s, E e s -> E' e s) -> triple P c Q E'.
Proof.
  intros H HE s s' r HP Hc. specialize (H _ _ _ HP Hc).
  destruct r; [exact H|now apply HE].
Qed.

Lemma import_record_fields_S (fuel : nat) (record_fields : pyval) :
  import_record_fields (S fuel) record_fields =
  let! imported_fields := create (DictObject []) in
  let! record_fields := lift (iterate record_fields) in
  let! _ :=
    for_in record_fields (fun field =>
      let! imported_field := create Field_ in
      let! sql_type := lift (get field (py "Type")) in
      let! field_type := lift (map_type_from_sql sql_type) in
      let! hive := lift (get field (py "Hive")) in
      let! _ :=
        assign imported_field "required"
          (set_required (Some (if truthy hive then true else false))) None in
      let! description := lift (get field (py "Comment")) in
      let! _ :=
        assign imported_field "description" (set_description description) None in
      let! _ :=
        if is_type field_type (py "struct") then
          let! _ := assign imported_field "type" (set_type field_type) None in
          let! sub := lift (get field (py "Fields")) in
          let! fields := import_record_fields fuel sub in
          assign imported_field "fields" (set_fields (Some fields)) (Some fields)
        else if is_type field_type (py "array") then
          let! _ := assign imported_field "type" (set_type field_type) None in
          let! sub := lift (get field (py "Items")) in
          let! items := import_array_field fuel sub in
          assign imported_field "items" (set_items (Some items)) (Some items)
        else assign imported_field "type" (set_type field_type) None in
      let! name := lift (get field (py "Name")) in
      store imported_fields name imported_field) in
  ret imported_fields.
Proof. reflexivity. Qed.

Lemma import_array_field_S (fuel : nat) (array_field : pyval) :
  import_array_field (S fuel) array_field =
  let! items := create Field_ in
  let! sql_type := lift (get array_field (py "Type")) in
  let! field_type := lift (map_type_from_sql sql_type) in
  if is_type field_type (py "struct") then
    let! _ := assign items "type" (set_type field_type) None in
    let! sub := lift (get array_field (py "Fields")) in
    let! fields := import_record_fields fuel sub in
    let! _ := assign items "fields" (set_fields (Some fields)) (Some fields) in
    ret items
  else if is_type field_type (py "array") then
    let! _ := assign items "type" (set_type field_type) None in
    let! sub := lift (get array_field (py "Items")) in
    let! fields := import_array_field fuel sub in
    let! _ := assign items "fields" (set_fields (Some fields)) (Some fields) in
    ret items
  else
    let! _ := assign items "type" (set_type field_type) None in
    ret items.
Proof. reflexivity. Qed.

(** an exception leaves the objects that were under construction
    behind *)
Ltac abandon :=
  intros; cbv beta in *;
  repeat match goal with
         | H : building (_ :: ?open) ?s |- building ?open' ?s =>
             first [exact H | apply building_tail in H]
         end;
  try assumption.

(** Each call builds its objects on top of those under construction and
    returns the one it built, not yet stored anywhere. *)
Lemma import_building (fuel : nat) :
  (forall v open,
     triple (building open) (import_record_fields fuel v)
       (fun m => building (m :: open)) (fun _ => building open))
  /\ (forall v open,
        triple (building open) (import_array_field fuel v)
          (fun r => building (r :: open)) (fun _ => building open)).
Proof.
  induction fuel as [|fuel [IHr IHa]].
  { split; intros v open; apply triple_lift; [discriminate|auto|discriminate|auto]. }
  split; intros v open.
  - rewrite import_record_fields_S.
    eapply triple_and_then; [apply triple_create|]. intros m.
    eapply triple_and_then; [apply triple_lift_keep; abandon|]. intros l.
    eapply triple_and_then; [|intros u; apply triple_ret; intros s0 H0; exact H0].
    apply triple_for_in. intros field _.
    eapply triple_and_then; [apply triple_create|]. intros f.
    eapply triple_and_then; [apply triple_lift_keep; abandon|]. intros sql_type.
    eapply triple_and_then; [apply triple_lift_keep; abandon|]. intros field_type.
    eapply triple_and_then; [apply triple_lift_keep; abandon|]. intros hive.
    eapply triple_and_then; [apply triple_assign; now left|]. intros u1.
    eapply triple_and_then; [apply triple_lift_keep; abandon|]. intros description.
    eapply triple_and_then; [apply triple_assign; now left|]. intros u2.
    eapply triple_and_then
      with (Q := fun _ => building (f :: m :: open)).
    + destruct (is_type field_type (py "struct")).
      { eapply triple_and_then; [apply triple_assign; now left|]. intros u3.
        eapply triple_and_then; [apply triple_lift_keep; abandon|]. intros sub.
        eapply triple_and_then;
          [eapply triple_raise; [apply IHr|abandon]|].
        intros c. apply triple_assign_object. now left. }
      destruct (is_type field_type (py "array")).
      { eapply triple_and_then; [apply triple_assign; now left|]. intros u3.
        eapply triple_and_then; [apply triple_lift_keep; abandon|]. intros sub.
        eapply triple_and_then;
          [eapply triple_raise; [apply IHa|abandon]|].
        intros c. apply triple_assign_object. now left. }
      apply triple_assign. now left.
    + intros u3.
      eapply triple_and_then; [apply triple_lift_keep; abandon|]. intros name.
      apply triple_store; [now left|abandon].
  - rewrite import_array_field_S.
    eapply triple_and_then; [apply triple_create|]. intros r.
    eapply triple_and_then; [apply triple_lift_keep; abandon|]. intros sql_type.
    eapply triple_and_then; [apply triple_lift_keep; abandon|]. intros field_type.
    destruct (is_type field_type (py "struct")).
    { eapply triple_and_then; [apply triple_assign; now left|]. intros u3.
      eapply triple_and_then; [apply triple_lift_keep; abandon|]. intros sub.
      eapply triple_and_then; [eapply triple_raise; [apply IHr|abandon]|].
      intros c.
      eapply triple_and_then; [apply triple_assign_object; now left|].
      intros u4. apply triple_ret. auto. }
    destruct (is_type field_type (py "array")).
    { eapply triple_and_then; [apply triple_assign; now left|]. intros u3.
      eapply triple_and_then; [apply triple_lift_keep; abandon|]. intros sub.
      eapply triple_and_then; [eapply triple_raise; [apply IHa|abandon]|].
      intros c.
      eapply triple_and_then; [apply triple_assign_object; now left|].
      intros u4. apply triple_ret. auto. }
    eapply triple_and_then; [apply triple_assign; now left|].
    intros u4. apply triple_ret. auto.
Qed.

Lemma building_start : building [] start.
Proof.
  repeat split.
  - intros i j e e' r H. discriminate H.
  - constructor.
  - intros r (e & [] & _).
  - destruct H.
  - destruct H.
Qed.

(** the history of every run, whatever comes out of it, is sealed *)
Lemma import_sealed (fuel : nat) (v : pyval) (s : state) (r : res ref) :
  import_record_fields fuel v start = (s, r) -> sealed (events s).
Proof.
  intros H. destruct (import_building fuel) as [Hr _].
  specialize (Hr v [] _ _ _ building_start H).
  destruct r; [apply building_tail in Hr|]; apply Hr.
Qed.

Lemma import_record_fields_loop (fuel : nat) (record_fields : pyval) :
  import_record_fields (S fuel) record_fields =
  let! imported_fields := create (DictObject []) in
  let! record_fields := lift (iterate record_fields) in
  let! _ := for_in record_fields (import_field fuel imported_fields) in
  ret imported_fields.
Proof. reflexivity. Qed.

Lemma and_then_inv {A B : Type} (m : M A) (k : A -> M B) (s s' : state) (r : res B) :
  and_then m k s = (s', r) ->
  exists s1 r1, m s = (s1, r1)
    /\ match r1 with
       | Ok a => k a s1 = (s', r)
       | Raise e => s' = s1 /\ r = Raise e
       end.
Proof.
  unfold and_then. destruct (m s) as [s1 [a|e]]; intros H.
  - exists s1, (Ok a). auto.
  - injection H as <- <-. exists s1, (Raise e). auto.
Qed.

Lemma lift_inv {A B : Type} (x : res A) (k : A -> M B) (s s' : state) (r : res B) :
  and_then (lift x) k s = (s', r) ->
  match x with
  | Ok a => k a s = (s', r)
  | Raise e => s' = s /\ r = Raise e
  end.
Proof.
  unfold and_then, lift. destruct x; [auto|]. now intros [= <- <-].
Qed.

Lemma create_inv {B : Type} (o : object) (k : ref -> M B) (s s' : state) (r : res B) :
  and_then (create o) k s = (s', r) ->
  k (length (objects s))
    {| objects := objects s ++ [o];
       events := events s ++ [Created (length (objects s))] |} = (s', r).
Proof. auto. Qed.

Lemma assign_inv {B : Type} (x : ref) (attribute : string) (update : object -> object)
    (value : option ref) (k : unit -> M B) (s s' : state) (r : res B) :
  and_then (assign x attribute update value) k s = (s', r) ->
  k tt {| objects := alter update x (objects s);
          events := events s ++ [Assigned x attribute value] |} = (s', r).
Proof. auto. Qed.

End ObjectFacts.

(** ** The objects built are the fields of the value model *)

Lemma holds_each (objs : list Objects.object) (es : list (pyval * ref))
    (m : list (pyval * Field)) :
  (fix each (es : list (pyval * ref)) (m : list (pyval * Field)) {struct m} : Prop :=
     match m, es with
     | [], [] => True
     | (k, g) :: m', (k', rg) :: es' =>
         k' = k /\ Objects.holds objs rg g /\ each es' m'
     | _, _ => False
     end) es m
  <-> Objects.holds_entries objs es m.
Proof.
  unfold Objects.holds_entries. revert es.
  induction m as [|[k g] m IH]; intros [|[k' rg] es]; split; try easy.
  - intros (-> & Hg & H). constructor; [split; [reflexivity|exact Hg]|now apply IH].
  - intros H. inversion H as [|? ? ? ? [Hk Hg] Hrest]; subst. cbn [fst snd] in *.
    split; [exact Hk|]. split; [exact Hg|]. now apply IH.
Qed.

Lemma holds_field (objs : list Objects.object) (r : ref) t q d fs it :
  Objects.holds objs r (mkField t q d fs it) <->
  exists rf ri,
    objs !! r = Some (Objects.FieldObject t q d rf ri)
    /\ match fs with
       | Unset => rf = None
       | Mapping m => exists rm, rf = Some rm /\ Objects.holds_mapping objs rm m
       | Single g => exists rg, rf = Some rg /\ Objects.holds objs rg g
       end
    /\ match it with
       | None => ri = None
       | Some g => exists rg, ri = Some rg /\ Objects.holds objs rg g
       end.
Proof.
  cbn [Objects.holds]. split; intros (rf & ri & Hr & Hf & Hi); exists rf, ri;
    (split; [exact Hr|]); (split; [|exact Hi]); destruct fs as [|m|g]; try exact Hf.
  - destruct Hf as (rm & es & -> & Hm & He). exists rm. split; [reflexivity|].
    exists es. split; [exact Hm|]. now apply holds_each.
  - destruct Hf as (rm & -> & es & Hm & He). exists rm, es.
    split; [reflexivity|]. split; [exact Hm|]. now apply holds_each.
Qed.

Lemma agree_alter (lo x : nat) (update : Objects.object -> Objects.object)
    (objs objs2 : list Objects.object) :
  (x < lo)%nat -> Objects.agree lo (alter update x objs) objs2 ->
  Objects.agree lo objs objs2.
Proof.
  intros Hx H i Hlo Hi. rewrite H by (rewrite ?length_alter; lia).
  apply list_lookup_alter_ne. lia.
Qed.

Lemma agree_from (lo lo' : nat) (objs objs2 : list Objects.object) :
  (lo <= lo')%nat -> Objects.agree lo objs objs2 -> Objects.agree lo' objs objs2.
Proof. intros Hle H i Hlo Hi. apply H; lia. Qed.

Ltac raised H :=
  destruct H as [-> ->]; cbn [Objects.objects];
  rewrite ?length_alter, ?length_app; cbn [length];
  split; [lia|]; split;
  [intros i Hi Hne; rewrite ?list_lookup_alter_ne by lia; now rewrite lookup_app_l by lia
  |intros acc; reflexivity].

(** One pass of the loop: it leaves the other objects as they were,
    creates the field at the end of the store and stores it in the
    mapping under the key that the value model finds. *)
Lemma import_field_values (fuel : nat) :
  (forall v, returns_value (Objects.import_record_fields fuel v)
               (import_record_fields fuel v) Objects.holds_mapping) ->
  (forall v, returns_value (Objects.import_array_field fuel v)
               (import_array_field fuel v) Objects.holds) ->
  forall m field s s' r,
    Objects.import_field fuel m field s = (s', r) ->
    (m < length (Objects.objects s))%nat ->
    (length (Objects.objects s) <= length (Objects.objects s'))%nat
    /\ (forall i, (i < length (Objects.objects s))%nat -> i <> m ->
          Objects.objects s' !! i = Objects.objects s !! i)
    /\ match r with
       | Ok _ =>
           (length (Objects.objects s) < length (Objects.objects s'))%nat
           /\ exists k F,
                import_record_field fuel field = Ok (k, F)
                /\ hashable k = true
                /\ Objects.objects s' !! m =
                   Objects.set_entry k (length (Objects.objects s))
                     <$> Objects.objects s !! m
                /\ forall objs2,
                     Objects.agree (length (Objects.objects s)) (Objects.objects s') objs2 ->
                     Objects.holds objs2 (length (Objects.objects s)) F
       | Raise e =>
           forall acc : list (pyval * Field),
             (let* kf := import_record_field fuel field in
              setitem acc (fst kf) (snd kf)) = Raise e
       end.
Proof.
  intros IHr IHa m field [os ev] s' r H Hm.
  unfold Objects.import_field in H. unfold import_record_field.
  cbn [Objects.objects] in *.
  apply ObjectFacts.create_inv in H. cbn [Objects.objects Objects.events] in H.
  apply ObjectFacts.lift_inv in H.
  destruct (get field (py "Type")) as [sql_type|e]; cbn [bind]; [|raised H].
  apply ObjectFacts.lift_inv in H.
  destruct (map_type_from_sql sql_type) as [field_type|e]; cbn [bind]; [|raised H].
  apply ObjectFacts.lift_inv in H.
  destruct (get field (py "Hive")) as [hive|e]; cbn [bind]; [|raised H].
  apply ObjectFacts.assign_inv in H. cbn [Objects.objects Objects.events] in H.
  apply ObjectFacts.lift_inv in H.
  destruct (get field (py "Comment")) as [description|e]; cbn [bind]; [|raised H].
  apply ObjectFacts.assign_inv in H. cbn [Objects.objects Objects.events] in H.
  apply ObjectFacts.and_then_inv in H as (s1 & r1 & H1 & H).
  set (q := Some (if truthy hive then true else false)) in *.
  set (pb := (if is_type field_type (py "struct") then _ else _) : res Field).
  set (n := length os) in *.
  set (os1 := alter (Objects.set_description description) n _) in H1.
  set (ev1 := (_ ++ [Objects.Assigned n "description" None])) in H1.
  assert (Hlen1 : length os1 = S n).
  { unfold os1. rewrite !length_alter, length_app. cbn [length]. lia. }
  assert (Hn1 : os1 !! n = Some (Objects.FieldObject None q description None None)).
  { unfold os1. rewrite !list_lookup_alter_eq, lookup_app_r by (unfold n; lia).
    unfold n. now rewrite Nat.sub_diag. }
  assert (Hframe1 : forall i, (i < n)%nat -> os1 !! i = os !! i).
  { intros i Hi. unfold os1. rewrite !list_lookup_alter_ne by lia.
    apply lookup_app_l. exact Hi. }
  clearbody os1 ev1.
  assert (Hbranch :
    (length os1 <= length (Objects.objects s1))%nat
    /\ (forall i, (i < n)%nat -> Objects.objects s1 !! i = os !! i)
    /\ match r1 with
       | Ok _ =>
           exists F, pb = Ok F
             /\ forall objs2, Objects.agree n (Objects.objects s1) objs2 ->
                  Objects.holds objs2 n F
       | Raise e => pb = Raise e
       end).
  { subst pb. clear H.
    destruct (is_type field_type (py "struct")).
    { apply ObjectFacts.assign_inv in H1. cbn [Objects.objects Objects.events] in H1.
      apply ObjectFacts.lift_inv in H1.
      destruct (get field (py "Fields")) as [sub|e]; cbn [bind].
      2:{ destruct H1 as [-> ->]. cbn [Objects.objects]. rewrite length_alter.
          split; [lia|]. split; [|reflexivity].
          intros i Hi. rewrite list_lookup_alter_ne by lia. now apply Hframe1. }
      apply ObjectFacts.and_then_inv in H1 as (sc & rc & Hc & H1).
      destruct (IHr sub _ _ _ Hc) as (Hlenc & Hframec & Hres).
      cbn [Objects.objects] in *. rewrite length_alter in *.
      destruct rc as [c|e].
      2:{ destruct H1 as [-> ->]. rewrite Hres. cbn [bind].
          split; [lia|]. split; [|reflexivity].
          intros i Hi. rewrite Hframec by lia.
          rewrite list_lookup_alter_ne by lia. now apply Hframe1. }
      destruct Hres as (-> & Hclt & kfs & -> & Hrep). cbn [bind].
      unfold Objects.assign in H1. injection H1 as <- <-.
      cbn [Objects.objects]. rewrite length_alter.
      split; [lia|]. split.
      { intros i Hi. rewrite list_lookup_alter_ne by lia.
        rewrite Hframec by lia. rewrite list_lookup_alter_ne by lia.
        now apply Hframe1. }
      eexists. split; [reflexivity|]. intros objs2 Hag.
      apply holds_field. exists (Some (length os1)), None.
      split.
      { rewrite Hag by (rewrite ?length_alter; lia).
        rewrite list_lookup_alter_eq, Hframec by lia.
        rewrite list_lookup_alter_eq, Hn1. reflexivity. }
      split; [|reflexivity].
      exists (length os1). split; [reflexivity|]. apply Hrep.
      intros i Hlo Hi. rewrite Hag by (rewrite ?length_alter; lia).
      apply list_lookup_alter_ne. lia. }
    destruct (is_type field_type (py "array")).
    { apply ObjectFacts.assign_inv in H1. cbn [Objects.objects Objects.events] in H1.
      apply ObjectFacts.lift_inv in H1.
      destruct (get field (py "Items")) as [sub|e]; cbn [bind].
      2:{ destruct H1 as [-> ->]. cbn [Objects.objects]. rewrite length_alter.
          split; [lia|]. split; [|reflexivity].
          intros i Hi. rewrite list_lookup_alter_ne by lia. now apply Hframe1. }
      apply ObjectFacts.and_then_inv in H1 as (sc & rc & Hc & H1).
      destruct (IHa sub _ _ _ Hc) as (Hlenc & Hframec & Hres).
      cbn [Objects.objects] in *. rewrite length_alter in *.
      destruct rc as [c|e].
      2:{ destruct H1 as [-> ->]. rewrite Hres. cbn [bind].
          split; [lia|]. split; [|reflexivity].
          intros i Hi. rewrite Hframec by lia.
          rewrite list_lookup_alter_ne by lia. now apply Hframe1. }
      destruct Hres as (-> & Hclt & g & -> & Hrep). cbn [bind].
      unfold Objects.assign in H1. injection H1 as <- <-.
      cbn [Objects.objects]. rewrite length_alter.
      split; [lia|]. split.
      { intros i Hi. rewrite list_lookup_alter_ne by lia.
        rewrite Hframec by lia. rewrite list_lookup_alter_ne by lia.
        now apply Hframe1. }
      eexists. split; [reflexivity|]. intros objs2 Hag.
      apply holds_field. exists None, (Some (length os1)).
      split.
      { rewrite Hag by (rewrite ?length_alter; lia).
        rewrite list_lookup_alter_eq, Hframec by lia.
        rewrite list_lookup_alter_eq, Hn1. reflexivity. }
      split; [reflexivity|].
      exists (length os1). split; [reflexivity|]. apply Hrep.
      intros i Hlo Hi. rewrite Hag by (rewrite ?length_alter; lia).
      apply list_lookup_alter_ne. lia. }
    unfold Objects.assign in H1. injection H1 as <- <-.
    cbn [Objects.objects]. rewrite length_alter.
    split; [lia|]. split.
    { intros i Hi. rewrite list_lookup_alter_ne by lia. now apply Hframe1. }
    eexists. split; [reflexivity|]. intros objs2 Hag.
    apply holds_field. exists None, None.
    split; [|split; reflexivity].
    rewrite Hag by (rewrite ?length_alter; lia).
    rewrite list_lookup_alter_eq, Hn1. reflexivity. }
  clear H1. destruct Hbranch as (Hlenb & Hframeb & Hb).
  destruct r1 as [[]|e].
  2:{ destruct H as [-> ->]. rewrite Hb. cbn [bind].
      split; [lia|]. split; [|reflexivity]. intros i Hi _. now apply Hframeb. }
  destruct Hb as (F & -> & HF). cbn [bind].
  apply ObjectFacts.lift_inv in H.
  destruct (get field (py "Name")) as [name|e]; cbn [bind].
  2:{ destruct H as [-> ->].
      split; [lia|]. split; [|reflexivity]. intros i Hi _. now apply Hframeb. }
  unfold Objects.store in H. unfold setitem. cbn [fst snd].
  destruct (hashable name) eqn:Eh.
  2:{ injection H as <- <-.
      split; [lia|]. split; [|reflexivity]. intros i Hi _. now apply Hframeb. }
  injection H as <- <-. cbn [Objects.objects]. rewrite length_alter.
  split; [lia|]. split.
  { intros i Hi Hne. rewrite list_lookup_alter_ne by lia. now apply Hframeb. }
  split; [lia|]. exists name, F. split; [reflexivity|]. split; [exact Eh|].
  split.
  { rewrite list_lookup_alter_eq, Hframeb by lia. reflexivity. }
  intros objs2 Hag. apply HF. eapply agree_alter; [|exact Hag]. lia.
Qed.

Lemma holds_entries_store (objs : list Objects.object) (es : list (pyval * ref))
    (acc : list (pyval * Field)) (k : pyval) (r : ref) (F : Field) :
  Objects.holds_entries objs es acc -> Objects.holds objs r F ->
  Objects.holds_entries objs (store_key es k r) (store_key acc k F).
Proof.
  unfold Objects.holds_entries. intros H HF.
  induction H as [|[k1 r1] [k2 F1] es acc [Hk H1] Hrest IH]; cbn [store_key].
  - constructor; [split; [reflexivity|exact HF]|constructor].
  - cbn [fst snd] in Hk, H1. subst k2.
    destruct (key_eqb k1 k); constructor; try assumption;
      try (split; [reflexivity|assumption]).
Qed.

(** The loop: the mapping under construction holds, entry for entry, what
    the value model has stored so far. *)
Lemma for_in_values (fuel : nat) :
  (forall v, returns_value (Objects.import_record_fields fuel v)
               (import_record_fields fuel v) Objects.holds_mapping) ->
  (forall v, returns_value (Objects.import_array_field fuel v)
               (import_array_field fuel v) Objects.holds) ->
  forall (m : ref) (l : list pyval) s s' r es acc,
    Objects.for_in l (Objects.import_field fuel m) s = (s', r) ->
    Objects.objects s !! m = Some (Objects.DictObject es) ->
    (forall objs2, Objects.agree (S m) (Objects.objects s) objs2 ->
                   Objects.holds_entries objs2 es acc) ->
    (length (Objects.objects s) <= length (Objects.objects s'))%nat
    /\ (forall i, (i < length (Objects.objects s))%nat -> i <> m ->
          Objects.objects s' !! i = Objects.objects s !! i)
    /\ match r with
       | Ok _ =>
           exists es' acc',
             for_each l (fun imported_fields field =>
               let* kf := import_record_field fuel field in
               setitem imported_fields (fst kf) (snd kf)) acc = Ok acc'
             /\ Objects.objects s' !! m = Some (Objects.DictObject es')
             /\ forall objs2, Objects.agree (S m) (Objects.objects s') objs2 ->
                              Objects.holds_entries objs2 es' acc'
       | Raise e =>
           for_each l (fun imported_fields field =>
             let* kf := import_record_field fuel field in
             setitem imported_fields (fst kf) (snd kf)) acc = Raise e
       end.
Proof.
  intros IHr IHa m l. induction l as [|field l IH]; intros s s' r es acc H Hm Hacc.
  - injection H as <- <-. split; [lia|]. split; [reflexivity|].
    exists es, acc. auto.
  - cbn [Objects.for_in for_each] in *.
    apply ObjectFacts.and_then_inv in H as (s1 & r1 & H1 & H).
    pose proof (lookup_lt_Some _ _ _ Hm) as Hlt.
    destruct (import_field_values fuel IHr IHa _ _ _ _ _ H1 Hlt)
      as (Hlen1 & Hframe1 & Hpass).
    destruct r1 as [[]|e].
    2:{ destruct H as [-> ->]. rewrite Hpass. cbn [bind]. auto. }
    destruct Hpass as (Hgrow & k & F & -> & Hk & Hm1 & HF). cbn [bind fst snd].
    unfold setitem at 1 3. rewrite Hk. cbn [bind].
    rewrite Hm in Hm1. cbn [fmap option_fmap option_map Objects.set_entry] in Hm1.
    specialize (IH _ _ _ _ (store_key acc k F) H Hm1).
    destruct IH as (Hlen & Hframe & Hres).
    { intros objs2 Hag. apply holds_entries_store.
      - apply Hacc. intros i Hlo Hi. rewrite Hag by lia. apply Hframe1; lia.
      - apply HF. eapply agree_from; [|exact Hag]. lia. }
    split; [lia|]. split; [|exact Hres].
    intros i Hi Hne. rewrite Hframe by lia. now apply Hframe1.
Qed.

(** The two functions on objects do what the functions on values do. *)
Lemma import_values (fuel : nat) :
  (forall v, returns_value (Objects.import_record_fields fuel v)
               (import_record_fields fuel v) Objects.holds_mapping)
  /\ (forall v, returns_value (Objects.import_array_field fuel v)
                  (import_array_field fuel v) Objects.holds).
Proof.
  induction fuel as [|fuel [IHr IHa]].
  { split; intros v s s' r [= <- <-]; (split; [lia|]); split; reflexivity. }
  split; intros v [os ev] s' r H.
  - rewrite ObjectFacts.import_record_fields_loop in H.
    rewrite import_record_fields_unfold.
    apply ObjectFacts.create_inv in H. cbn [Objects.objects Objects.events] in *.
    apply ObjectFacts.lift_inv in H.
    destruct (iterate v) as [l|e]; cbn [bind].
    2:{ destruct H as [-> ->]. cbn [Objects.objects]. rewrite length_app.
        split; [lia|]. split; [|reflexivity].
        intros i Hi. now apply lookup_app_l. }
    apply ObjectFacts.and_then_inv in H as (s1 & r1 & H1 & H).
    destruct (for_in_values fuel IHr IHa (length os) l _ _ _ [] [] H1)
      as (Hlen & Hframe & Hres).
    { cbn [Objects.objects]. rewrite lookup_app_r by lia.
      now rewrite Nat.sub_diag. }
    { intros objs2 _. constructor. }
    cbn [Objects.objects] in *. rewrite length_app in *. cbn [length] in *.
    assert (Hold : forall i, (i < length os)%nat -> Objects.objects s1 !! i = os !! i).
    { intros i Hi. rewrite Hframe by lia. now apply lookup_app_l. }
    destruct r1 as [[]|e].
    2:{ destruct H as [-> ->]. split; [lia|]. split; [exact Hold|exact Hres]. }
    injection H as <- <-. destruct Hres as (es' & acc' & -> & Hm & Hrep).
    split; [lia|]. split; [exact Hold|]. split; [reflexivity|]. split; [lia|].
    exists acc'. split; [reflexivity|]. intros objs2 Hag.
    exists es'. split.
    + rewrite Hag by lia. exact Hm.
    + apply Hrep. eapply agree_from; [|exact Hag]. lia.
  - rewrite ObjectFacts.import_array_field_S in H.
    rewrite import_array_field_unfold.
    apply ObjectFacts.create_inv in H. cbn [Objects.objects Objects.events] in *.
    apply ObjectFacts.lift_inv in H.
    set (n := length os) in *.
    set (os1 := os ++ [Objects.Field_]) in H.
    set (ev1 := ev ++ _) in H.
    assert (Hlen1 : length os1 = S n).
    { unfold os1. rewrite length_app. cbn [length]. lia. }
    assert (Hn1 : os1 !! n = Some Objects.Field_).
    { unfold os1. rewrite lookup_app_r by (unfold n; lia).
      unfold n. now rewrite Nat.sub_diag. }
    assert (Hframe1 : forall i, (i < n)%nat -> os1 !! i = os !! i).
    { intros i Hi. now apply lookup_app_l. }
    clearbody os1 ev1.
    destruct (get v (py "Type")) as [sql_type|e]; cbn [bind].
    2:{ destruct H as [-> ->]. cbn [Objects.objects].
        split; [lia|]. split; [exact Hframe1|reflexivity]. }
    apply ObjectFacts.lift_inv in H.
    destruct (map_type_from_sql sql_type) as [field_type|e]; cbn [bind].
    2:{ destruct H as [-> ->]. cbn [Objects.objects].
        split; [lia|]. split; [exact Hframe1|reflexivity]. }
    destruct (is_type field_type (py "struct")).
    { apply ObjectFacts.assign_inv in H. cbn [Objects.objects Objects.events] in H.
      apply ObjectFacts.lift_inv in H.
      destruct (get v (py "Fields")) as [sub|e]; cbn [bind].
      2:{ destruct H as [-> ->]. cbn [Objects.objects]. rewrite length_alter.
          split; [lia|]. split; [|reflexivity].
          intros i Hi. rewrite list_lookup_alter_ne by lia. now apply Hframe1. }
      apply ObjectFacts.and_then_inv in H as (sc & rc & Hc & H).
      destruct (IHr sub _ _ _ Hc) as (Hlenc & Hframec & Hres).
      cbn [Objects.objects] in *. rewrite length_alter in *.
      destruct rc as [c|e].
      2:{ destruct H as [-> ->]. rewrite Hres. cbn [bind].
          split; [lia|]. split; [|reflexivity].
          intros i Hi. rewrite Hframec by lia.
          rewrite list_lookup_alter_ne by lia. now apply Hframe1. }
      destruct Hres as (-> & Hclt & kfs & -> & Hrep). cbn [bind].
      apply ObjectFacts.assign_inv in H. injection H as <- <-.
      cbn [Objects.objects]. rewrite length_alter.
      split; [lia|]. split.
      { intros i Hi. rewrite list_lookup_alter_ne by lia.
        rewrite Hframec by lia. rewrite list_lookup_alter_ne by lia.
        now apply Hframe1. }
      split; [reflexivity|]. split; [lia|].
      eexists. split; [reflexivity|]. intros objs2 Hag.
      apply holds_field. exists (Some (length os1)), None.
      split.
      { rewrite Hag by (rewrite ?length_alter; lia).
        rewrite list_lookup_alter_eq, Hframec by lia.
        rewrite list_lookup_alter_eq, Hn1. reflexivity. }
      split; [|reflexivity].
      exists (length os1). split; [reflexivity|]. apply Hrep.
      intros i Hlo Hi. rewrite Hag by (rewrite ?length_alter; lia).
      apply list_lookup_alter_ne. lia. }
    destruct (is_type field_type (py "array")).
    { apply ObjectFacts.assign_inv in H. cbn [Objects.objects Objects.events] in H.
      apply ObjectFacts.lift_inv in H.
      destruct (get v (py "Items")) as [sub|e]; cbn [bind].
      2:{ destruct H as [-> ->]. cbn [Objects.objects]. rewrite length_alter.
          split; [lia|]. split; [|reflexivity].
          intros i Hi. rewrite list_lookup_alter_ne by lia. now apply Hframe1. }
      apply ObjectFacts.and_then_inv in H as (sc & rc & Hc & H).
      destruct (IHa sub _ _ _ Hc) as (Hlenc & Hframec & Hres).
      cbn [Objects.objects] in *. rewrite length_alter in *.
      destruct rc as [c|e].
      2:{ destruct H as [-> ->]. rewrite Hres. cbn [bind].
          split; [lia|]. split; [|reflexivity].
          intros i Hi. rewrite Hframec by lia.
          rewrite list_lookup_alter_ne by lia. now apply Hframe1. }
      destruct Hres as (-> & Hclt & g & -> & Hrep). cbn [bind].
      apply ObjectFacts.assign_inv in H. injection H as <- <-.
      cbn [Objects.objects]. rewrite length_alter.
      split; [lia|]. split.
      { intros i Hi. rewrite list_lookup_alter_ne by lia.
        rewrite Hframec by lia. rewrite list_lookup_alter_ne by lia.
        now apply Hframe1. }
      split; [reflexivity|]. split; [lia|].
      eexists. split; [reflexivity|]. intros objs2 Hag.
      apply holds_field. exists (Some (length os1)), None.
      split.
      { rewrite Hag by (rewrite ?length_alter; lia).
        rewrite list_lookup_alter_eq, Hframec by lia.
        rewrite list_lookup_alter_eq, Hn1. reflexivity. }
      split; [|reflexivity].
      exists (length os1). split; [reflexivity|]. apply Hrep.
      intros i Hlo Hi. rewrite Hag by (rewrite ?length_alter; lia).
      apply list_lookup_alter_ne. lia. }
    apply ObjectFacts.assign_inv in H. injection H as <- <-.
    cbn [Objects.objects]. rewrite length_alter.
    split; [lia|]. split.
    { intros i Hi. rewrite list_lookup_alter_ne by lia. now apply Hframe1. }
    split; [reflexivity|]. split; [lia|].
    eexists. split; [reflexivity|]. intros objs2 Hag.
    apply holds_field. exists None, None.
    split; [|split; reflexivity].
    rewrite Hag by (rewrite ?length_alter; lia).
    rewrite list_lookup_alter_eq, Hn1. reflexivity.
Qed.

(** ** What a run leaves behind *)

Lemma format_record_rests (d d' : dict pyval) :
  format_record d = Ok d' -> composite d' = false.
Proof.
  intros H. destruct (composite d) eqn:Ec.
  - now destruct (format_record_composite _ _ H Ec).
  - now rewrite (format_record_scalar _ _ H Ec).
Qed.

(** After a pass that succeeds, a record of the schema is what
    [format_schema] made of it the first time it met it. *)
Lemma format_columns_exact (schema : list ref) (h h' : heap) (column : ref)
    (d : dict pyval) :
  format_columns schema h = (h', Ok tt) ->
  In column schema -> h !! column = Some d ->
  exists d', h' !! column = Some d' /\ format_record d = Ok d'.
Proof.
  revert h d. induction schema as [|j schema IH]; intros h d H Hin Hd; [easy|].
  cbn [format_columns] in H.
  destruct (format_column j h) as [h1|e] eqn:E; [|discriminate].
  apply format_column_step in E as (dj & dj' & Hj & Hf & ->).
  destruct (decide (column = j)) as [->|Hne].
  - assert (d = dj) by congruence. subst dj.
    destruct (format_columns_frame _ _ _ _ H) as [_ Hframe].
    destruct (Hframe j dj') as (d' & Hd' & [_ Hs] & _).
    { apply list_lookup_insert_eq. eapply lookup_lt_Some; eauto. }
    exists dj'. split; [|exact Hf].
    now rewrite Hd', (Hs (format_record_rests _ _ Hf)).
  - destruct Hin as [->|Hin]; [congruence|].
    apply (IH _ d H Hin). rewrite list_lookup_insert_ne; auto.
Qed.

Lemma format_record_updated (d d' : dict pyval) (type : pystr) :
  format_record d = Ok d' -> dict_get d (py "Type") = Some (PStr type) ->
  updated d type d'.
Proof.
  unfold format_record, updated. cbn [subscript]. intros H Ht.
  rewrite Ht in H. cbn [bind] in H.
  destruct (startswith type (py "array<")).
  { bind_inv H. bind_inv H. injection H as <-. eauto. }
  destruct (startswith type (py "struct<")).
  { bind_inv H. bind_inv H. injection H as <-. eauto. }
  now injection H.
Qed.

(** C4, amended: what the run writes to.  [format_schema] updates the
    records of composite columns in place and nothing else: the store
    keeps its size, every record keeps all its entries but [Type],
    [Items] and [Fields], and a record whose type does not open [array<]
    or [struct<], or that is not in the schema, is left as it was.  A
    record of the schema whose type opens [array<] (or [struct<]) ends
    with the [Items] (or [Fields]) of the descriptor that
    [generate_sub_fields] returned stored under that key, and with the
    bare kind as its [Type]; the records are still so when the whole run
    is over.  The importer proper creates each field empty and fills it
    by assignment, and it fills the mappings entry by entry: once a field
    or a mapping has been stored in another object it is never written
    again, and the objects built are the fields of the value model. *)
Theorem format_schema_frame :
  (forall (schema : list ref) (h h' : heap) r,
     format_schema schema h = (h', r) ->
     length h' = length h
     /\ forall column d, h !! column = Some d ->
          exists d', h' !! column = Some d' /\ same_record d d'
                     /\ (~ In column schema -> d' = d))
  /\ (forall (schema : list ref) (h h' : heap) column d type,
        format_schema schema h = (h', Ok schema) ->
        In column schema -> h !! column = Some d ->
        dict_get d (py "Type") = Some (PStr type) ->
        exists d', h' !! column = Some d' /\ updated d type d')
  /\ (forall cols h' m (i : nat) c,
        import_columns cols = (h', Ok m) -> cols !! i = Some c ->
        exists d', h' !! i = Some d' /\ updated (column_record c) (Type_ c) d')
  /\ (forall fuel v s r,
        Objects.import_record_fields fuel v Objects.start = (s, r) ->
        Objects.sealed (Objects.events s)
        /\ match r with
           | Ok m =>
               exists kfs, import_record_fields fuel v = Ok kfs
                 /\ Objects.holds_mapping (Objects.objects s) m kfs
           | Raise e => import_record_fields fuel v = Raise e
           end).
Proof.
  split; [|split; [|split]].
  - intros schema h h' r. unfold format_schema.
    destruct (format_columns schema h) as [h1 r1] eqn:E.
    intros [= <- _]. now apply format_columns_frame in E.
  - intros schema h h' column d type. unfold format_schema.
    destruct (format_columns schema h) as [h1 [[]|e]] eqn:E; [|discriminate].
    intros [= <-] Hin Hd Ht.
    destruct (format_columns_exact _ _ _ _ _ E Hin Hd) as (d' & Hd' & Hf).
    exists d'. split; [exact Hd'|]. now apply format_record_updated.
  - intros cols h' m i c H Hc.
    apply import_columns_entries in H as (kfs & fuel & Hpost & _).
    assert (Hi : List.map column_record cols !! i = Some (column_record c)).
    { rewrite list_lookup_fmap, Hc. reflexivity. }
    destruct (Forall2_lookup_l _ _ _ _ _ Hpost Hi) as (d' & Hd' & Hf).
    exists d'. split; [exact Hd'|]. apply (format_record_updated _ _ _ Hf).
    apply column_type.
  - intros fuel v s r H. split; [exact (ObjectFacts.import_sealed _ _ _ _ H)|].
    destruct (import_values fuel) as [Hr _].
    destruct (Hr v _ _ _ H) as (_ & _ & Hres).
    destruct r as [m|e]; [|exact Hres].
    destruct Hres as (_ & _ & kfs & Hpure & Hrep).
    exists kfs. split; [exact Hpure|]. apply Hrep. intros i _ _. reflexivity.
Qed.

(** ** An instance of the frame *)

Lemma format_schema_frame_witness :
  (exists h',
     format_schema [0%nat] [column_record Scenario.tags_column] = (h', Ok [0%nat])
     /\ length h' = 1%nat
     /\ exists d', h' !! 0%nat = Some d'
          /\ same_record (column_record Scenario.tags_column) d'
          /\ updated (column_record Scenario.tags_column) (py "array<string>") d')
  /\ (exists h' m d',
        import_columns [Scenario.tags_column] = (h', Ok m)
        /\ h' !! 0%nat = Some d'
        /\ updated (column_record Scenario.tags_column)
             (Type_ Scenario.tags_column) d')
  /\ (exists s m,
        Objects.import_record_fields 3
          (PList [PDict [(py "Name", PStr (py "tags")); (py "Type", PStr (py "array"));
                         (py "Items", PDict [(py "Type", PStr (py "string"))])]])
          Objects.start = (s, Ok m)
        /\ Objects.sealed (Objects.events s)).
Proof.
  destruct format_schema_frame as (Hframe & Hupdated & Hrun & Hobjects).
  split; [|split].
  - eexists.
    assert (H : format_schema [0%nat] [column_record Scenario.tags_column] =
                (_, Ok [0%nat]))
      by (vm_compute; reflexivity).
    destruct (Hframe _ _ _ _ H) as [Hlen Hrec].
    destruct (Hrec 0%nat (column_record Scenario.tags_column) eq_refl)
      as (d' & Hd' & Hs & _).
    destruct (Hupdated _ _ _ 0%nat (column_record Scenario.tags_column)
                (py "array<string>") H (or_introl eq_refl) eq_refl eq_refl)
      as (d'' & Hd'' & Hu).
    split; [exact H|]. split; [exact Hlen|]. exists d'.
    split; [exact Hd'|]. split; [exact Hs|].
    assert (d'' = d') by congruence. now subst d''.
  - eexists _, _.
    assert (H : import_columns [Scenario.tags_column] = (_, Ok _))
      by (vm_compute; reflexivity).
    destruct (Hrun _ _ _ 0%nat Scenario.tags_column H eq_refl) as (d' & Hd' & Hu).
    exists d'. split; [exact H|]. split; assumption.
  - eexists _, _.
    assert (H : Objects.import_record_fields 3
                  (PList [PDict [(py "Name", PStr (py "tags"));
                                 (py "Type", PStr (py "array"));
                                 (py "Items", PDict [(py "Type", PStr (py "string"))])]])
                  Objects.start = (_, Ok _))
      by (vm_compute; reflexivity).
    split; [exact H|]. exact (proj1 (Hobjects _ _ _ _ H)).
Defined.
